(** * slp-parser: a shallow embedding of the upload handlers, the file picker
      and the statistics components, with the properties of the specification.

    Conventions of the embedding.

    - A JavaScript [number] is an IEEE 754 binary64.  The finite ones are
      the rationals they are ([Qc], canonical fractions, so that equality is
      Leibniz equality); [double] adds the infinities and [NaN].  The
      arithmetic of the statistics is that of the doubles: the exact result
      rounded to the nearest double, ties to even, with overflow to an
      infinity and gradual underflow ([round64]).  Counters, which only ever
      grow by 1 from 0, are kept exact: a list holds fewer than 2^32
      replays and every integer up to 2^53 is a double.  The sign of zero is
      not kept: no operation of this code tells [-0] from [0], its divisors
      being lengths, the literal 2, counters, or totals compared with 0
      first.
    - The numbers of a replay are finite: they are read from JSON text.
    - Player indices and character identifiers are integers ([Z]).
    - An exception is an explicit error result; a handler's observable
      behaviour is the list of effects it performs, in order.
    - [Array.prototype.sort] is the stable sort determined by its comparator
      (ECMAScript 2019); it is embedded as a stable insertion sort. *)

From Stdlib Require Import String Ascii.
From Stdlib Require Import List ZArith QArith Qcanon Bool Lia.
From Stdlib Require Import Permutation Sorted.
Import ListNotations.

(* ================================================================== *)
(** ** Numbers *)

Abbreviation number := Qc.

Definition Qcleb (x y : number) : bool :=
  match (x ?= y)%Qc with Gt => false | _ => true end.

Definition Qcltb (x y : number) : bool :=
  match (x ?= y)%Qc with Lt => true | _ => false end.

Definition ofZ (z : Z) : number := Q2Qc (inject_Z z).
Definition ofNat (n : nat) : number := ofZ (Z.of_nat n).

(** *** The doubles *)

Inductive double :=
| NaN
| Inf (negative : bool)
| Num (q : number).

(** The integer part of the binary logarithm of [n / d]. *)
Definition ilog2 (n d : positive) : Z :=
  let c := (Z.log2 (Zpos n) - Z.log2 (Zpos d))%Z in
  if (0 <=? c)%Z then
    if (Zpos d * 2 ^ c <=? Zpos n)%Z then c else (c - 1)%Z
  else
    if (Zpos d <=? Zpos n * 2 ^ (- c))%Z then c else (c - 1)%Z.

(** The integer nearest to [n / d], the even one of two that are equally
    near ([0 <= n], [0 < d]). *)
Definition nearest_even (n d : Z) : Z :=
  let f := (n / d)%Z in
  match (2 * (n mod d) ?= d)%Z with
  | Lt => f
  | Gt => (f + 1)%Z
  | Eq => if Z.even f then f else (f + 1)%Z
  end.

Definition pow2 (e : Z) : number :=
  if (0 <=? e)%Z then ofZ (2 ^ e) else (/ ofZ (2 ^ (- e)))%Qc.

(** The double nearest to the positive rational [n / d]: 53 significant
    bits, no exponent of the last place below -1074; [None] past the
    largest double. *)
Definition round_pos (n d : positive) : option number :=
  let e := Z.max (ilog2 n d - 52) (-1074) in
  let m := if (0 <=? e)%Z then nearest_even (Zpos n) (Zpos d * 2 ^ e)
           else nearest_even (Zpos n * 2 ^ (- e)) (Zpos d) in
  if (0 <=? e)%Z && (2 ^ 1024 <=? m * 2 ^ e)%Z then None
  else Some (ofZ m * pow2 e)%Qc.

Definition round64 (q : number) : double :=
  match Qnum q with
  | Z0 => Num 0%Qc
  | Zpos n => match round_pos n (Qden q) with
              | Some r => Num r
              | None => Inf false
              end
  | Zneg n => match round_pos n (Qden q) with
              | Some r => Num (- r)%Qc
              | None => Inf true
              end
  end.

(** The double that a decimal literal of the source text denotes. *)
Definition literal (q : number) : number :=
  match round64 q with
  | Num r => r
  | _ => 0%Qc
  end.

Definition is_zero (q : number) : bool :=
  match (q ?= 0)%Qc with Eq => true | _ => false end.

(** [a + b] *)
Definition dadd (a b : double) : double :=
  match a, b with
  | NaN, _ | _, NaN => NaN
  | Inf s, Inf s' => if Bool.eqb s s' then Inf s else NaN
  | Inf s, Num _ | Num _, Inf s => Inf s
  | Num x, Num y => round64 (x + y)%Qc
  end.

(** [a * b] *)
Definition dmul (a b : double) : double :=
  match a, b with
  | NaN, _ | _, NaN => NaN
  | Inf s, Inf s' => Inf (xorb s s')
  | Inf s, Num y | Num y, Inf s =>
      if is_zero y then NaN else Inf (xorb s (Qcltb y 0))
  | Num x, Num y => round64 (x * y)%Qc
  end.

(** [a / b] *)
Definition ddiv (a b : double) : double :=
  match a, b with
  | NaN, _ | _, NaN => NaN
  | Inf _, Inf _ => NaN
  | Inf s, Num y => Inf (xorb s (Qcltb y 0))
  | Num _, Inf _ => Num 0%Qc
  | Num x, Num y =>
      if is_zero y then (if is_zero x then NaN else Inf (Qcltb x 0))
      else round64 (x / y)%Qc
  end.

(** [a < b] *)
Definition dlt (a b : double) : bool :=
  match a, b with
  | NaN, _ | _, NaN => false
  | Inf s, Inf s' => s && negb s'
  | Inf s, Num _ => s
  | Num _, Inf s => negb s
  | Num x, Num y => Qcltb x y
  end.

(** [a > 0] *)
Definition dpositive (a : double) : bool :=
  match a with
  | NaN => false
  | Inf negative => negb negative
  | Num q => Qcltb 0 q
  end.

(** [a <= b] *)
Definition dle (a b : double) : Prop :=
  match a, b with
  | NaN, _ | _, NaN => False
  | Inf true, _ | _, Inf false => True
  | Inf false, _ | _, Inf true => False
  | Num x, Num y => (x <= y)%Qc
  end.

(** What [sort] reads off [a - b], the result of a comparator: its sign,
    a [NaN] counting as 0.  The difference of two doubles rounds to a double
    of the same sign (it never underflows to 0), so that the exact
    difference stands for the rounded one. *)
Definition difference (a b : double) : number :=
  match a, b with
  | NaN, _ | _, NaN => 0%Qc
  | Inf s, Inf s' =>
      if Bool.eqb s s' then 0%Qc else if s then ofZ (-1) else ofZ 1
  | Inf s, Num _ => if s then ofZ (-1) else ofZ 1
  | Num _, Inf s => if s then ofZ 1 else ofZ (-1)
  | Num x, Num y => (x - y)%Qc
  end.

(* ================================================================== *)
(** ** Arrays: [Array.prototype.sort] *)

Section JsSort.
Variable A : Type.
(** The comparator: a negative or zero result keeps the first argument
    in front. *)
Variable cmp : A -> A -> number.

Definition before (a b : A) : Prop := (cmp a b <= 0)%Qc.

Fixpoint insert (x : A) (l : list A) : list A :=
  match l with
  | [] => [x]
  | y :: t => if Qcleb (cmp x y) 0 then x :: y :: t else y :: insert x t
  end.

Fixpoint js_sort (l : list A) : list A :=
  match l with
  | [] => []
  | x :: t => insert x (js_sort t)
  end.
End JsSort.

Arguments before {A} cmp a b.
Arguments insert {A} cmp x l.
Arguments js_sort {A} cmp l.

(* ================================================================== *)
(** ** Strings *)

(** [s.endsWith(suffix)] *)
Definition endsWith (s suffix : string) : bool :=
  let n := String.length s in
  let m := String.length suffix in
  if (m <=? n)%nat then String.eqb (substring (n - m) m s) suffix else false.

(** An exception is a value: [Throw] stands for the [TypeError] raised by
    a property access on [undefined]. *)
Inductive Throws (A : Type) : Type :=
| Return (a : A)
| Throw.
Arguments Return {A} a.
Arguments Throw {A}.

Definition bind {A B : Type} (m : Throws A) (k : A -> Throws B) : Throws B :=
  match m with
  | Return a => k a
  | Throw => Throw
  end.

Notation "x <- m ;; k" := (bind m (fun x => k))
  (at level 100, m at next level, right associativity).

(* ================================================================== *)
(** ** The file picker *)

(** A browser [File]; only its name is inspected. *)
Record File := { name : string; size : Z }.

(** What a handler does besides updating the component state. *)
Inductive PickerEffect :=
| Alert (msg : string)
| ResetInput                        (* fileInputRef.current.value = "" *)
| OnFileUpload (files : list File). (* the callback of the page *)

(** What the user does.  [None] is a drop or a change event that carries
    no file list. *)
Inductive PickerEvent :=
| Drop (files : option (list File))
| Change (files : option (list File))
| Submit
| ClearSelection.

Definition validFiles (files : list File) : list File :=
  filter (fun file => endsWith (name file) ".slp") files.

(** [components/FileUpload.tsx] *)
Module FileUpload.

Record State := { dragActive : bool; selectedFiles : list File }.

Definition initial : State := {| dragActive := false; selectedFiles := [] |}.

Definition handleDrop (st : State) (files : option (list File))
  : State * list PickerEffect :=
  let st := {| dragActive := false; selectedFiles := selectedFiles st |} in
  match files with
  | None => (st, [])
  | Some fs =>
      let valid := validFiles fs in
      if (0 <? length valid)%nat then
        ({| dragActive := dragActive st;
            selectedFiles := selectedFiles st ++ valid |}, [])
      else (st, [Alert "Please upload .slp files only"])
  end.

Definition handleFileChange (st : State) (files : option (list File))
  : State * list PickerEffect :=
  match files with
  | None => (st, [])
  | Some fs =>
      let valid := validFiles fs in
      if (0 <? length valid)%nat then
        ({| dragActive := dragActive st;
            selectedFiles := selectedFiles st ++ valid |}, [])
      else (st, [Alert "Please upload .slp files only"; ResetInput])
  end.

Definition handleSubmit (st : State) : State * list PickerEffect :=
  if (0 <? length (selectedFiles st))%nat
  then (st, [OnFileUpload (selectedFiles st)])
  else (st, []).

(** This version renders no "Clear Selection" button. *)
Definition step (st : State) (e : PickerEvent) : State * list PickerEffect :=
  match e with
  | Drop files => handleDrop st files
  | Change files => handleFileChange st files
  | Submit => handleSubmit st
  | ClearSelection => (st, [])
  end.

Fixpoint run (st : State) (es : list PickerEvent)
  : State * list PickerEffect :=
  match es with
  | [] => (st, [])
  | e :: rest =>
      let '(st1, out1) := step st e in
      let '(st2, out2) := run st1 rest in
      (st2, out1 ++ out2)
  end.

End FileUpload.

(** The [FileUpload] component that declares [MAX_FILES]. *)
Module FileUploadMax.

Definition MAX_FILES : nat := 100.

Record State := { dragActive : bool; selectedFiles : list File }.

Definition initial : State := {| dragActive := false; selectedFiles := [] |}.

Definition too_many : string :=
  "You can upload a maximum of 100 files. Only the first 100 will be used.".

(** [combined.slice(0, MAX_FILES)] *)
Definition slice0 (n : nat) (l : list File) : list File := firstn n l.

Definition handleDrop (st : State) (files : option (list File))
  : State * list PickerEffect :=
  let st := {| dragActive := false; selectedFiles := selectedFiles st |} in
  match files with
  | None => (st, [])
  | Some fs =>
      let valid := validFiles fs in
      if (0 <? length valid)%nat then
        let combined := selectedFiles st ++ valid in
        if (MAX_FILES <? length combined)%nat then
          ({| dragActive := dragActive st;
              selectedFiles := slice0 MAX_FILES combined |},
           [Alert too_many])
        else
          ({| dragActive := dragActive st; selectedFiles := combined |}, [])
      else (st, [Alert "Please upload .slp files only"])
  end.

Definition handleFileChange (st : State) (files : option (list File))
  : State * list PickerEffect :=
  match files with
  | None => (st, [])
  | Some fs =>
      let valid := validFiles fs in
      if (0 <? length valid)%nat then
        let combined := selectedFiles st ++ valid in
        ({| dragActive := dragActive st;
            selectedFiles := slice0 MAX_FILES combined |},
         if (MAX_FILES <? length combined)%nat then [Alert too_many] else [])
      else (st, [Alert "Please upload .slp files only"; ResetInput])
  end.

Definition handleSubmit (st : State) : State * list PickerEffect :=
  if (0 <? length (selectedFiles st))%nat
  then (st, [OnFileUpload (selectedFiles st)])
  else (st, []).

Definition step (st : State) (e : PickerEvent) : State * list PickerEffect :=
  match e with
  | Drop files => handleDrop st files
  | Change files => handleFileChange st files
  | Submit => handleSubmit st
  | ClearSelection =>
      ({| dragActive := dragActive st; selectedFiles := [] |}, [])
  end.

Fixpoint run (st : State) (es : list PickerEvent)
  : State * list PickerEffect :=
  match es with
  | [] => (st, [])
  | e :: rest =>
      let '(st1, out1) := step st e in
      let '(st2, out2) := run st1 rest in
      (st2, out1 ++ out2)
  end.

End FileUploadMax.

(* ================================================================== *)
(** ** The HTTP handlers *)

Module Http.

Definition buffer := list Byte.byte.

(** One part of a multipart body. *)
Record Part := { fieldName : string; partFilename : option string;
                 content : buffer }.

Record Request := { method : string; parts : list Part }.

(** [new IncomingForm({ keepExtensions, maxFileSize })] *)
Record FormOptions := { keepExtensions : bool; maxFileSize : Z }.

(** A file as formidable hands it to the callback. *)
Record UploadedFile := { originalFilename : option string; filepath : string }.

(** The arguments of the [form.parse] callback: [err], or [files] with
    its [replayFile] property ([None] when the property is absent). *)
Inductive FormResult :=
| FormError
| FormFiles (replayFile : option (list UploadedFile)).

Section Handlers.
(** The state of the machine (file system) and the parsed replay. *)
Variables World Parsed : Type.

(** The libraries and the platform the handlers call.  A [None] or a
    [false] is a thrown exception. *)
Record Env := {
  formParse : FormOptions -> World -> Request -> World * FormResult;
  readFileSync : World -> string -> option buffer;
  writeFileSync : World -> string -> buffer -> World * bool;
  unlinkSync : World -> string -> World * bool;
  readdir : World -> string -> option (list string);
  unzipSync : buffer -> option (list (string * buffer));
  SlippiGame : World -> string -> option Parsed;
  path_join : list string -> string;
  cwd : string;
  APP_ENV : option string
}.

Inductive Result :=
| ResParsed (filename : string) (parsed : Parsed)
| ResError (filename : string) (error : string).

Definition res_filename (r : Result) : string :=
  match r with ResParsed f _ => f | ResError f _ => f end.

Inductive Body :=
| Message (message : string)
| Replay (replayData : Parsed)
| Results (results : list Result)
| Files (files : list string)
| Error (error : string).

(** The calls that leave the handler, in order.  [ok] is [false] when
    the call threw. *)
Inductive Event :=
| EvRead (path : string) (ok : bool)
| EvUnzip (ok : bool)
| EvWrite (path : string) (data : buffer) (ok : bool)
| EvParse (path : string) (res : option Parsed)
| EvUnlink (path : string) (ok : bool)
| EvRespond (status : Z) (body : Body).

Variable env : Env.

(** [lib/slippiParser.ts]: the [catch] logs and throws again. *)
Definition parseSlippiReplay (w : World) (filePath : string)
  : option Parsed := SlippiGame env w filePath.

(** [lib/unzip.ts]; the entries are those of [Object.entries]. *)
Definition unzipFile (b : buffer) : option (list (string * buffer)) :=
  unzipSync env b.

Definition options : FormOptions :=
  {| keepExtensions := true; maxFileSize := 10 * 1024 * 1024 |}.

Definition has_suffix (o : option string) (suffix : string) : bool :=
  match o with
  | None => false
  | Some s => if String.eqb s "" then false else endsWith s suffix
  end.

(** *** [pages/api/parse-replay.ts], one replay per request *)
Definition handler (w : World) (req : Request) : World * list Event :=
  if negb (String.eqb (method req) "POST") then
    (w, [EvRespond 405 (Message "Method not allowed")])
  else
    match formParse env options w req with
    | (w, FormError) =>
        (w, [EvRespond 500 (Message "Error parsing form data")])
    | (w, FormFiles None) | (w, FormFiles (Some [])) =>
        (w, [EvRespond 400 (Message "No replay file uploaded")])
    | (w, FormFiles (Some (file :: _))) =>
        if negb (has_suffix (originalFilename file) ".slp") then
          (w, [EvRespond 400 (Message "Only .slp files are accepted")])
        else
          let tempPath := filepath file in
          match parseSlippiReplay w tempPath with
          | None =>
              (w, [EvParse tempPath None;
                   EvRespond 500 (Message "Error parsing replay file")])
          | Some replayData =>
              let '(w1, ok) := unlinkSync env w tempPath in
              (w1, [EvParse tempPath (Some replayData);
                    EvUnlink tempPath ok;
                    EvRespond 200 (Replay replayData)])
          end
    end.

(** *** [pages/api/parse-replay.ts], a zip of replays per request *)

Definition tempPathOf (filename : string) : string :=
  match APP_ENV env with
  | Some e =>
      if String.eqb e "development"
      then path_join env [cwd env; "tmp_" ++ filename]
      else path_join env ["/tmp"; "tmp_" ++ filename]
  | None => path_join env ["/tmp"; "tmp_" ++ filename]
  end%string.

(** The [for] loop over [Object.entries(unzipped)].  The last
    component is [None] when [writeFileSync] threw, which leaves the
    loop. *)
Fixpoint loop (w : World) (entries : list (string * buffer))
         (results : list Result)
  : World * list Event * option (list Result) :=
  match entries with
  | [] => (w, [], Some results)
  | (filename, data) :: rest =>
      if negb (endsWith filename ".slp") then loop w rest results
      else
        let tempPath := tempPathOf filename in
        match writeFileSync env w tempPath data with
        | (w1, false) => (w1, [EvWrite tempPath data false], None)
        | (w1, true) =>
            let parsed := parseSlippiReplay w1 tempPath in
            let results1 :=
              match parsed with
              | Some p => results ++ [ResParsed filename p]
              | None => results ++ [ResError filename "Failed to parse"]
              end in
            let '(w2, ok) := unlinkSync env w1 tempPath in
            let '(w3, tr, out) := loop w2 rest results1 in
            (w3,
             EvWrite tempPath data true :: EvParse tempPath parsed
               :: EvUnlink tempPath ok :: tr,
             out)
        end
  end.

Definition zip_handler (w : World) (req : Request) : World * list Event :=
  if negb (String.eqb (method req) "POST") then
    (w, [EvRespond 405 (Message "Method not allowed")])
  else
    match formParse env options w req with
    | (w, FormError) =>
        (w, [EvRespond 500 (Message "Error parsing form data")])
    | (w, FormFiles None) | (w, FormFiles (Some [])) =>
        (w, [EvRespond 400 (Message "No replay file uploaded")])
    | (w, FormFiles (Some (file :: _))) =>
        if negb (has_suffix (originalFilename file) ".zip") then
          (w, [EvRespond 400 (Message "Only .zip files are accepted")])
        else
          let failed := EvRespond 500 (Message "Error parsing replay file") in
          match readFileSync env w (filepath file) with
          | None => (w, [EvRead (filepath file) false; failed])
          | Some zipBuffer =>
              match unzipFile zipBuffer with
              | None =>
                  (w, [EvRead (filepath file) true; EvUnzip false; failed])
              | Some unzipped =>
                  let '(w1, tr, out) := loop w unzipped [] in
                  let pre := EvRead (filepath file) true :: EvUnzip true :: tr in
                  match out with
                  | None => (w1, pre ++ [failed])
                  | Some results =>
                      let '(w2, ok) := unlinkSync env w1 (filepath file) in
                      (w2, pre ++ [EvUnlink (filepath file) ok;
                                   EvRespond 200 (Results results)])
                  end
              end
          end
    end.

(** *** [pages/api/sample-data.ts] *)
Definition sample_handler (w : World) : World * list Event :=
  let dir := path_join env [cwd env; "public"; "assets"; "slp-demo-data"]%string in
  match readdir env w dir with
  | Some files =>
      let slpFiles := filter (fun f => endsWith f ".slp") files in
      (w, [EvRespond 200 (Files slpFiles)])
  | None => (w, [EvRespond 500 (Error "Failed to list sample files")])
  end.

(** Observations on a trace. *)
Definition responses (tr : list Event) : list (Z * Body) :=
  flat_map (fun e => match e with
                     | EvRespond s b => [(s, b)]
                     | _ => []
                     end) tr.

Definition parser_calls (tr : list Event) : list (string * option Parsed) :=
  flat_map (fun e => match e with
                     | EvParse p r => [(p, r)]
                     | _ => []
                     end) tr.

Definition unlink_attempts (tr : list Event) : list string :=
  flat_map (fun e => match e with
                     | EvUnlink p _ => [p]
                     | _ => []
                     end) tr.

Definition written (tr : list Event) : list string :=
  flat_map (fun e => match e with
                     | EvWrite p _ true => [p]
                     | _ => []
                     end) tr.

End Handlers.

Arguments Message {Parsed} message.
Arguments Replay {Parsed} replayData.
Arguments Results {Parsed} results.
Arguments Files {Parsed} files.
Arguments Error {Parsed} error.
Arguments ResParsed {Parsed} filename parsed.
Arguments ResError {Parsed} filename error.
Arguments res_filename {Parsed} r.
Arguments EvRead {Parsed} path ok.
Arguments EvUnzip {Parsed} ok.
Arguments EvWrite {Parsed} path data ok.
Arguments EvParse {Parsed} path res.
Arguments EvUnlink {Parsed} path ok.
Arguments EvRespond {Parsed} status body.
Arguments formParse {World Parsed} e _ _ _.
Arguments readFileSync {World Parsed} e _ _.
Arguments writeFileSync {World Parsed} e _ _ _.
Arguments unlinkSync {World Parsed} e _ _.
Arguments readdir {World Parsed} e _ _.
Arguments unzipSync {World Parsed} e _.
Arguments SlippiGame {World Parsed} e _ _.
Arguments path_join {World Parsed} e _.
Arguments cwd {World Parsed} e.
Arguments APP_ENV {World Parsed} e.
Arguments parseSlippiReplay {World Parsed} env w filePath.
Arguments unzipFile {World Parsed} env b.
Arguments handler {World Parsed} env w req.
Arguments tempPathOf {World Parsed} env filename.
Arguments loop {World Parsed} env w entries results.
Arguments zip_handler {World Parsed} env w req.
Arguments sample_handler {World Parsed} env w.
Arguments responses {Parsed} tr.
Arguments parser_calls {Parsed} tr.
Arguments unlink_attempts {Parsed} tr.
Arguments written {Parsed} tr.

End Http.

(* ================================================================== *)
(** ** The replay data ([components/ReplayDetails.tsx]) *)

Module ReplayDetails.

Record Names := { netplay : string; code : string }.
Record Player := { names : Names }.

Module Metadata.
Record t := { startAt : string; lastFrame : number; playedOn : string;
              players : list Player }.
End Metadata.

Module Ratio.
Record t := { count : number; total : number; ratio : number }.
End Ratio.

Module Overall.
Record t := {
  conversionCount : number;
  counterHitRatio : Ratio.t;
  damagePerOpening : Ratio.t;
  digitalInputsPerMinute : Ratio.t;
  inputsPerMinute : Ratio.t;
  neutralWinRatio : Ratio.t;
  openingsPerKill : Ratio.t;
  playerIndex : Z;
  successfulConversions : Ratio.t;
  totalDamage : number
}.
End Overall.

Module Stock.
Record t := { count : number; currentPercent : number;
              endFrame : option number; endPercent : option number;
              playerIndex : Z; startFrame : number; startPercent : number }.
End Stock.

Module SettingsPlayer.
Record t := { displayName : string; port : Z; characterId : Z;
              characterColor : string; playerIndex : Z }.
End SettingsPlayer.

Module Settings.
Record t := { stageId : Z; players : list SettingsPlayer.t }.
End Settings.

(** [conversions] is read by the details view only and is left out. *)
Module Stats.
Record t := { overall : list Overall.t; stocks : list Stock.t }.
End Stats.

Record ReplayData := { metadata : Metadata.t; stats : Stats.t;
                       settings : Settings.t }.

End ReplayDetails.

Import ReplayDetails.

(* ================================================================== *)
(** ** Array and object primitives *)

(** [a[i]]: [undefined] out of range. *)
Definition at_index {A : Type} (a : list A) (i : Z) : option A :=
  if (i <? 0)%Z then None else nth_error a (Z.to_nat i).

(** [a[a.length - 1]] *)
Definition last_element {A : Type} (a : list A) : option A :=
  at_index a (Z.of_nat (length a) - 1).

(** [a.findIndex(p)] *)
Fixpoint findIndex_from {A : Type} (p : A -> bool) (a : list A) (i : Z) : Z :=
  match a with
  | [] => (-1)%Z
  | x :: t => if p x then i else findIndex_from p t (i + 1)%Z
  end.

Definition findIndex {A : Type} (p : A -> bool) (a : list A) : Z :=
  findIndex_from p a 0%Z.

(** [a.forEach(f)] for a callback that updates an accumulator and may throw. *)
Fixpoint forEach {A S : Type} (f : S -> A -> Throws S) (a : list A) (s : S)
  : Throws S :=
  match a with
  | [] => Return s
  | x :: t => s1 <- f s x ;; forEach f t s1
  end.

(** [selectedPlayer ? .. : ..] on a [string | null]. *)
Definition truthy (s : option string) : bool :=
  match s with
  | None => false
  | Some s => negb (String.eqb s "")
  end.

(** [r?.ratio] used as a condition. *)
Definition nonzero (n : number) : bool :=
  match (n ?= 0)%Qc with Eq => false | _ => true end.

(** An object used as a dictionary: the properties in creation order. *)
Section Dictionary.
Variables K V : Type.
Variable eqb : K -> K -> bool.

Fixpoint get (m : list (K * V)) (k : K) : option V :=
  match m with
  | [] => None
  | (k', v) :: t => if eqb k' k then Some v else get t k
  end.

(** [m[k] = v]: replaces the value of an existing property, creates a new
    property otherwise. *)
Fixpoint set (m : list (K * V)) (k : K) (v : V) : list (K * V) :=
  match m with
  | [] => [(k, v)]
  | (k', v') :: t => if eqb k' k then (k', v) :: t else (k', v') :: set t k v
  end.

Definition alter (f : V -> V) (m : list (K * V)) (k : K) : list (K * V) :=
  match get m k with
  | Some v => set m k (f v)
  | None => m
  end.
End Dictionary.

Arguments get {K V} eqb m k.
Arguments set {K V} eqb m k v.
Arguments alter {K V} eqb f m k.

(** [Object.values] of an object whose keys are numbers: the keys that are
    array indices come first in ascending order, the others follow in
    creation order. *)
Definition is_array_index (k : Z) : bool :=
  ((0 <=? k) && (k <? 2 ^ 32 - 1))%Z.

Definition values_of_numeric_keys {V : Type} (m : list (Z * V)) : list V :=
  map snd
      (js_sort (fun a b => ofZ (fst a - fst b))
               (filter (fun kv => is_array_index (fst kv)) m)
       ++ filter (fun kv => negb (is_array_index (fst kv))) m).

(** The libraries the components call. *)
Record Lib := {
  getCharacterName : Z -> string;              (* @slippi/slippi-js *)
  localeCompare : string -> string -> number;  (* String.prototype *)
  toString : double -> string                  (* String(n) *)
}.

(** A table cell: [number] or [string]. *)
Inductive value := VNum (n : double) | VStr (s : string).

Inductive SortDir := asc | desc.

Definition js_String (lib : Lib) (v : value) : string :=
  match v with
  | VNum n => toString lib n
  | VStr s => s
  end.

(** The body of the comparator passed to [sort] by both tables. *)
Definition compare_values (lib : Lib) (sortDir : SortDir) (aValue bValue : value)
  : number :=
  match aValue, bValue with
  | VNum a, VNum b =>
      match sortDir with asc => difference a b | desc => difference b a end
  | _, _ =>
      match sortDir with
      | asc => localeCompare lib (js_String lib aValue) (js_String lib bValue)
      | desc => localeCompare lib (js_String lib bValue) (js_String lib aValue)
      end
  end.

(* ================================================================== *)
(** ** ReplayDataSummary: the statistics helpers *)

Module ReplayDataSummary.

(** The arrays live in a store; a reference is a position in it.  The
    spread [[...data]] allocates, [sort] overwrites the array it is
    called on. *)
Definition ref := nat.
Definition heap := list (list number).

Definition read (h : heap) (r : ref) : list number := nth r h [].

Definition alloc (h : heap) (a : list number) : heap * ref :=
  (h ++ [a], length h).

Fixpoint write (h : heap) (r : ref) (a : list number) : heap :=
  match h, r with
  | [], _ => []
  | _ :: t, O => a :: t
  | x :: t, S r' => x :: write t r' a
  end.

(** [arr.sort(cmp)]: sorts in place and returns the same reference.  Of
    the number a comparator returns, [sort] reads the sign. *)
Definition sort_in_place (cmp : number -> number -> number)
           (h : heap) (r : ref) : heap * ref :=
  (write h r (js_sort cmp (read h r)), r).

(** [data.reduce((sum, val) => sum + val, 0) / data.length]: of no
    element, [0 / 0]. *)
Definition calculateAverage (data : list number) : double :=
  ddiv (fold_left (fun sum val => dadd sum (Num val)) data (Num 0%Qc))
       (Num (ofNat (length data))).

(** An element read for an addition: [undefined] becomes [NaN]. *)
Definition operand (o : option number) : double :=
  match o with
  | Some a => Num a
  | None => NaN
  end.

(** [calculateMedian]: the store is threaded through; [None] is
    [undefined].  The comparator [a - b] is read by its sign, which is that
    of the exact difference. *)
Definition calculateMedian (h : heap) (data : ref) : heap * option double :=
  let '(h1, copy) := alloc h (read h data) in
  let '(h2, sorted) := sort_in_place (fun a b => (a - b)%Qc) h1 copy in
  let s := read h2 sorted in
  let mid := (Z.of_nat (length s) / 2)%Z in
  let res :=
    if (Z.of_nat (length s) mod 2 =? 0)%Z then
      Some (ddiv (dadd (operand (at_index s (mid - 1)))
                       (operand (at_index s mid)))
                 (Num (ofZ 2)))
    else option_map Num (at_index s mid) in
  (h2, res).

(** The specification's words: the sum of the elements, and their mean. *)
Fixpoint sum (l : list number) : number :=
  match l with
  | [] => 0%Qc
  | x :: t => (x + sum t)%Qc
  end.

Definition mean (l : list number) : number :=
  (sum l / ofNat (length l))%Qc.


(** The axes of the scatter plot. *)
Inductive StatKey :=
| conversionCount | counterHitRatio | damagePerOpening
| digitalInputsPerMinute | inputsPerMinute | neutralWinRatio
| openingsPerKill | successfulConversions | totalDamage.

(** [typeof p[k] === "object" && "ratio" in p[k] ? p[k].ratio : p[k]] *)
Definition coordinate (p : Overall.t) (k : StatKey) : number :=
  match k with
  | conversionCount => Overall.conversionCount p
  | counterHitRatio => Ratio.ratio (Overall.counterHitRatio p)
  | damagePerOpening => Ratio.ratio (Overall.damagePerOpening p)
  | digitalInputsPerMinute => Ratio.ratio (Overall.digitalInputsPerMinute p)
  | inputsPerMinute => Ratio.ratio (Overall.inputsPerMinute p)
  | neutralWinRatio => Ratio.ratio (Overall.neutralWinRatio p)
  | openingsPerKill => Ratio.ratio (Overall.openingsPerKill p)
  | successfulConversions => Ratio.ratio (Overall.successfulConversions p)
  | totalDamage => Overall.totalDamage p
  end.

Record Point := { x : number; y : number }.

(** [[players[0], players[1]]] with the callback [p => p.names.code]
    applied by [findIndex]: a missing player throws when it is reached. *)
Definition selectedPlayerIndex (replay : ReplayData)
           (selectedPlayer : option string) : Throws Z :=
  let players := Metadata.players (metadata replay) in
  let same (p : Player) :=
    match selectedPlayer with
    | Some s => String.eqb (code (names p)) s
    | None => false
    end in
  match at_index players 0 with
  | None => Throw
  | Some p0 =>
      if same p0 then Return 0%Z
      else match at_index players 1 with
           | None => Throw
           | Some p1 => if same p1 then Return 1%Z else Return (-1)%Z
           end
  end.

(** [stocks[stocks.length - 1].playerIndex] *)
Definition winnerIndex (replay : ReplayData) : Throws Z :=
  match last_element (Stats.stocks (stats replay)) with
  | None => Throw
  | Some lastStock => Return (Stock.playerIndex lastStock)
  end.

Definition winner (replay : ReplayData) : Throws (option Overall.t) :=
  w <- winnerIndex replay ;;
  Return (find (fun p => (Overall.playerIndex p =? w)%Z)
               (Stats.overall (stats replay))).

Definition loser (replay : ReplayData) : Throws (option Overall.t) :=
  w <- winnerIndex replay ;;
  Return (find (fun p => negb (Overall.playerIndex p =? w)%Z)
               (Stats.overall (stats replay))).

(** The callback of [filteredData.forEach]; the accumulator is
    [(winData, lossData)]. *)
Definition visit (selectedPlayer : option string) (xAxis yAxis : StatKey)
           (acc : list Point * list Point) (replay : ReplayData)
  : Throws (list Point * list Point) :=
  win <- winner replay ;;
  los <- loser replay ;;
  sel <- selectedPlayerIndex replay selectedPlayer ;;
  let '(winData, lossData) := acc in
  let winData :=
    match win with
    | Some p =>
        if (Overall.playerIndex p =? sel)%Z
        then winData ++ [{| x := coordinate p xAxis; y := coordinate p yAxis |}]
        else winData
    | None => winData
    end in
  let lossData :=
    match los with
    | Some p =>
        if (Overall.playerIndex p =? sel)%Z
        then lossData ++ [{| x := coordinate p xAxis; y := coordinate p yAxis |}]
        else lossData
    | None => lossData
    end in
  Return (winData, lossData).

(** [replayDataList.filter(..)] when a player is selected: [map] reads
    the code of both players before [includes] looks at them. *)
Fixpoint filteredData (selectedPlayer : option string)
         (replayDataList : list ReplayData) : Throws (list ReplayData) :=
  match selectedPlayer with
  | None => Return replayDataList
  | Some s =>
      if String.eqb s "" then Return replayDataList
      else
        match replayDataList with
        | [] => Return []
        | replay :: rest =>
            let players := Metadata.players (metadata replay) in
            match at_index players 0, at_index players 1 with
            | Some p0, Some p1 =>
                kept <- filteredData selectedPlayer rest ;;
                if String.eqb (code (names p0)) s
                   || String.eqb (code (names p1)) s
                then Return (replay :: kept)
                else Return kept
            | _, _ => Throw
            end
        end
  end.

(** The effect, once both axes are chosen and the list is not empty. *)
Definition chartData (selectedPlayer : option string) (xAxis yAxis : StatKey)
           (replayDataList : list ReplayData)
  : Throws (list Point * list Point) :=
  kept <- filteredData selectedPlayer replayDataList ;;
  forEach (visit selectedPlayer xAxis yAxis) kept ([], []).

End ReplayDataSummary.

(* ================================================================== *)
(** ** [components/CharacterBreakdown.tsx] *)

Module CharacterBreakdown.

(** A property of [statsMap]: three counters of games, two of ratios, and
    three totals of ratios. *)
Module Entry.
Record t := {
  characterId : Z;
  totalGames : number;
  wins : number;
  losses : number;
  totalDamagePerOpening : double;
  openingsCount : number;
  openingsPerKillTotal : double;
  killsCount : number;
  inputsPerMinuteTotal : double
}.
End Entry.

Record CharacterStats := {
  characterId : Z;
  characterName : string;
  totalGames : number;
  wins : number;
  losses : number;
  winRate : double;
  averageDamagePerOpening : double;
  averageOpeningsPerKill : double;
  averageInputsPerMinute : double
}.

(** [keyof CharacterStats] *)
Inductive Column :=
| ColCharacterId | ColCharacterName | ColTotalGames | ColWins | ColLosses
| ColWinRate | ColAverageDamagePerOpening | ColAverageOpeningsPerKill
| ColAverageInputsPerMinute.

(** [a[sortBy]] *)
Definition cell (row : CharacterStats) (sortBy : Column) : value :=
  match sortBy with
  | ColCharacterId => VNum (Num (ofZ (characterId row)))
  | ColCharacterName => VStr (characterName row)
  | ColTotalGames => VNum (Num (totalGames row))
  | ColWins => VNum (Num (wins row))
  | ColLosses => VNum (Num (losses row))
  | ColWinRate => VNum (winRate row)
  | ColAverageDamagePerOpening => VNum (averageDamagePerOpening row)
  | ColAverageOpeningsPerKill => VNum (averageOpeningsPerKill row)
  | ColAverageInputsPerMinute => VNum (averageInputsPerMinute row)
  end.

(** [useState("totalGames")], [useState("desc")] *)
Definition initial_sortBy : Column := ColTotalGames.
Definition initial_sortDir : SortDir := desc.

Definition StatsMap := list (Z * Entry.t).

Definition fresh (characterId : Z) : Entry.t :=
  {| Entry.characterId := characterId;
     Entry.totalGames := 0%Qc; Entry.wins := 0%Qc; Entry.losses := 0%Qc;
     Entry.totalDamagePerOpening := Num 0%Qc; Entry.openingsCount := 0%Qc;
     Entry.openingsPerKillTotal := Num 0%Qc; Entry.killsCount := 0%Qc;
     Entry.inputsPerMinuteTotal := Num 0%Qc |}.

(** Lines 101-126: the updates of one entry for one game. *)
Definition record_game (isWinner : bool) (playerStats : Overall.t)
           (e : Entry.t) : Entry.t :=
  let dpo := Ratio.ratio (Overall.damagePerOpening playerStats) in
  let opk := Ratio.ratio (Overall.openingsPerKill playerStats) in
  let ipm := Ratio.ratio (Overall.inputsPerMinute playerStats) in
  {| Entry.characterId := Entry.characterId e;
     Entry.totalGames := (Entry.totalGames e + 1)%Qc;
     Entry.wins :=
       if isWinner then (Entry.wins e + 1)%Qc else Entry.wins e;
     Entry.losses :=
       if isWinner then Entry.losses e else (Entry.losses e + 1)%Qc;
     Entry.totalDamagePerOpening :=
       if nonzero dpo then dadd (Entry.totalDamagePerOpening e) (Num dpo)
       else Entry.totalDamagePerOpening e;
     Entry.openingsCount :=
       if nonzero dpo then (Entry.openingsCount e + 1)%Qc
       else Entry.openingsCount e;
     Entry.openingsPerKillTotal :=
       if nonzero opk then dadd (Entry.openingsPerKillTotal e) (Num opk)
       else Entry.openingsPerKillTotal e;
     Entry.killsCount :=
       if nonzero opk then (Entry.killsCount e + 1)%Qc
       else Entry.killsCount e;
     Entry.inputsPerMinuteTotal :=
       if nonzero ipm then dadd (Entry.inputsPerMinuteTotal e) (Num ipm)
       else Entry.inputsPerMinuteTotal e |}.

(** Lines 50-56 *)
Definition selectedPlayerIndex (selectedPlayer : option string)
           (replay : ReplayData) : Z :=
  match selectedPlayer with
  | Some s =>
      if truthy selectedPlayer then
        findIndex
          (fun p =>
             match at_index (Metadata.players (metadata replay))
                            (SettingsPlayer.playerIndex p) with
             | Some pl => String.eqb (code (names pl)) s
             | None => false
             end)
          (Settings.players (settings replay))
      else (-1)%Z
  | None => (-1)%Z
  end.

(** Lines 65-127: the callback of [playerIndices.forEach]. *)
Definition visit_player (replay : ReplayData) (statsMap : StatsMap)
           (playerIndex : Z) : Throws StatsMap :=
  if (playerIndex =? -1)%Z then Return statsMap
  else
    match find (fun p => (SettingsPlayer.playerIndex p =? playerIndex)%Z)
               (Settings.players (settings replay)) with
    | None => Return statsMap
    | Some p =>
        let characterId := SettingsPlayer.characterId p in
        let statsMap :=
          match get Z.eqb statsMap characterId with
          | None => set Z.eqb statsMap characterId (fresh characterId)
          | Some _ => statsMap
          end in
        match find (fun p => (Overall.playerIndex p =? playerIndex)%Z)
                   (Stats.overall (stats replay)) with
        | None => Return statsMap
        | Some playerStats =>
            match last_element (Stats.stocks (stats replay)) with
            | None => Throw
            | Some lastStock =>
                let isWinner :=
                  negb (Stock.playerIndex lastStock =? playerIndex)%Z in
                Return (alter Z.eqb (record_game isWinner playerStats)
                              statsMap characterId)
            end
        end
    end.

(** Lines 48-129: the callback of [replayDataList.forEach]. *)
Definition visit_replay (selectedPlayer : option string)
           (statsMap : StatsMap) (replay : ReplayData) : Throws StatsMap :=
  let selectedPlayerIndex := selectedPlayerIndex selectedPlayer replay in
  match selectedPlayer with
  | Some _ =>
      if negb (selectedPlayerIndex =? -1)%Z then
        let playerIndices :=
          if truthy selectedPlayer then [selectedPlayerIndex]
          else map SettingsPlayer.playerIndex
                   (Settings.players (settings replay)) in
        forEach (visit_player replay) playerIndices statsMap
      else Return statsMap
  | None =>
      forEach (visit_player replay)
              (map SettingsPlayer.playerIndex
                   (Settings.players (settings replay)))
              statsMap
  end.

(** Lines 132-154 *)
Definition to_row (lib : Lib) (stats : Entry.t) : CharacterStats :=
  {| characterId := Entry.characterId stats;
     characterName := getCharacterName lib (Entry.characterId stats);
     totalGames := Entry.totalGames stats;
     wins := Entry.wins stats;
     losses := Entry.losses stats;
     winRate :=
       if Qcltb 0 (Entry.totalGames stats)
       then dmul (ddiv (Num (Entry.wins stats)) (Num (Entry.totalGames stats)))
                 (Num (ofZ 100))
       else Num 0%Qc;
     averageDamagePerOpening :=
       if Qcltb 0 (Entry.openingsCount stats)
       then ddiv (Entry.totalDamagePerOpening stats)
                 (Num (Entry.openingsCount stats))
       else Num 0%Qc;
     averageOpeningsPerKill :=
       if Qcltb 0 (Entry.killsCount stats)
       then ddiv (Entry.openingsPerKillTotal stats)
                 (Num (Entry.killsCount stats))
       else Num 0%Qc;
     averageInputsPerMinute :=
       if Qcltb 0 (Entry.totalGames stats)
       then ddiv (Entry.inputsPerMinuteTotal stats)
                 (Num (Entry.totalGames stats))
       else Num 0%Qc |}.

Definition statsMap (selectedPlayer : option string)
           (replayDataList : list ReplayData) : Throws StatsMap :=
  forEach (visit_replay selectedPlayer) replayDataList [].

Definition characterStatsArray (lib : Lib) (selectedPlayer : option string)
           (replayDataList : list ReplayData) : Throws (list CharacterStats) :=
  m <- statsMap selectedPlayer replayDataList ;;
  Return (map (to_row lib) (values_of_numeric_keys m)).

(** Lines 157-169 *)
Definition comparator (lib : Lib) (sortBy : Column) (sortDir : SortDir)
           (a b : CharacterStats) : number :=
  compare_values lib sortDir (cell a sortBy) (cell b sortBy).

Definition sortedStats (lib : Lib) (selectedPlayer : option string)
           (sortBy : Column) (sortDir : SortDir)
           (replayDataList : list ReplayData) : Throws (list CharacterStats) :=
  rows <- characterStatsArray lib selectedPlayer replayDataList ;;
  Return (js_sort (comparator lib sortBy sortDir) rows).

(** The effect: the new value of the [characterStats] state. *)
Definition effect (lib : Lib) (selectedPlayer : option string)
           (sortBy : Column) (sortDir : SortDir)
           (replayDataList : list ReplayData)
           (characterStats : list CharacterStats)
  : Throws (list CharacterStats) :=
  match replayDataList with
  | [] => Return characterStats
  | _ => sortedStats lib selectedPlayer sortBy sortDir replayDataList
  end.

(** [handleSort] on the pair [(sortBy, sortDir)]. *)
Definition Column_eqb (a b : Column) : bool :=
  match a, b with
  | ColCharacterId, ColCharacterId | ColCharacterName, ColCharacterName
  | ColTotalGames, ColTotalGames | ColWins, ColWins | ColLosses, ColLosses
  | ColWinRate, ColWinRate
  | ColAverageDamagePerOpening, ColAverageDamagePerOpening
  | ColAverageOpeningsPerKill, ColAverageOpeningsPerKill
  | ColAverageInputsPerMinute, ColAverageInputsPerMinute => true
  | _, _ => false
  end.

Definition handleSort (st : Column * SortDir) (column : Column)
  : Column * SortDir :=
  let '(sortBy, sortDir) := st in
  (column,
   if Column_eqb sortBy column then
     match sortDir with desc => asc | asc => desc end
   else desc).

End CharacterBreakdown.

(* ================================================================== *)
(** ** MatchupAnalysis *)

Module MatchupAnalysis.

(** A property of [statsMap]: three counters of games and two totals of
    damage. *)
Module Entry.
Record t := {
  characterId : Z;
  opponentCharacterId : Z;
  totalGames : number;
  wins : number;
  losses : number;
  totalDamageDealt : double;
  totalDamageTaken : double
}.
End Entry.

Record MatchupStats := {
  characterId : Z;
  characterName : string;
  opponentCharacterId : Z;
  opponentCharacterName : string;
  totalGames : number;
  wins : number;
  losses : number;
  winRate : double;
  averageDamageDealt : double;
  averageDamageTaken : double;
  damageRatio : double
}.

(** [keyof MatchupStats] *)
Inductive Column :=
| ColCharacterId | ColCharacterName | ColOpponentCharacterId
| ColOpponentCharacterName | ColTotalGames | ColWins | ColLosses
| ColWinRate | ColAverageDamageDealt | ColAverageDamageTaken
| ColDamageRatio.

Definition cell (row : MatchupStats) (sortBy : Column) : value :=
  match sortBy with
  | ColCharacterId => VNum (Num (ofZ (characterId row)))
  | ColCharacterName => VStr (characterName row)
  | ColOpponentCharacterId => VNum (Num (ofZ (opponentCharacterId row)))
  | ColOpponentCharacterName => VStr (opponentCharacterName row)
  | ColTotalGames => VNum (Num (totalGames row))
  | ColWins => VNum (Num (wins row))
  | ColLosses => VNum (Num (losses row))
  | ColWinRate => VNum (winRate row)
  | ColAverageDamageDealt => VNum (averageDamageDealt row)
  | ColAverageDamageTaken => VNum (averageDamageTaken row)
  | ColDamageRatio => VNum (damageRatio row)
  end.

Definition initial_sortBy : Column := ColTotalGames.
Definition initial_sortDir : SortDir := desc.

(** The key [`${playerCharacterId}-${opponentCharacterId}`] is kept as
    the pair it is printed from: on integers the template is injective,
    and no such key is an array index, so that [Object.values] follows
    the creation order. *)
Definition Key := (Z * Z)%type.
Definition Key_eqb (a b : Key) : bool :=
  ((fst a =? fst b) && (snd a =? snd b))%Z.

Definition StatsMap := list (Key * Entry.t).

Definition fresh (playerCharacterId opponentCharacterId : Z) : Entry.t :=
  {| Entry.characterId := playerCharacterId;
     Entry.opponentCharacterId := opponentCharacterId;
     Entry.totalGames := 0%Qc; Entry.wins := 0%Qc; Entry.losses := 0%Qc;
     Entry.totalDamageDealt := Num 0%Qc;
     Entry.totalDamageTaken := Num 0%Qc |}.

(** [n || 0] *)
Definition or_zero (n : number) : number := if nonzero n then n else 0%Qc.

(** Lines 171-181 *)
Definition record_game (isWinner : bool) (playerStats opponentStats : Overall.t)
           (e : Entry.t) : Entry.t :=
  {| Entry.characterId := Entry.characterId e;
     Entry.opponentCharacterId := Entry.opponentCharacterId e;
     Entry.totalGames := (Entry.totalGames e + 1)%Qc;
     Entry.wins :=
       if isWinner then (Entry.wins e + 1)%Qc else Entry.wins e;
     Entry.losses :=
       if isWinner then Entry.losses e else (Entry.losses e + 1)%Qc;
     Entry.totalDamageDealt :=
       dadd (Entry.totalDamageDealt e)
            (Num (or_zero (Overall.totalDamage playerStats)));
     Entry.totalDamageTaken :=
       dadd (Entry.totalDamageTaken e)
            (Num (or_zero (Overall.totalDamage opponentStats)))
  |}.

(** Lines 104-127: [Some (playerIndex, opponentIndex)], or [None] for
    the [return] that skips the replay. *)
Definition pick_player (selectedPlayer : option string)
           (selectedCharacter : option Z) (replay : ReplayData)
  : Throws (option (Z * Z)) :=
  let opponent (i : Z) := if (i =? 0)%Z then 1%Z else 0%Z in
  if truthy selectedPlayer then
    i <- ReplayDataSummary.selectedPlayerIndex replay selectedPlayer ;;
    if (i =? -1)%Z then Return None else Return (Some (i, opponent i))
  else
    match selectedCharacter with
    | Some c =>
        let playerWithCharacter :=
          findIndex (fun p => (SettingsPlayer.characterId p =? c)%Z)
                    (Settings.players (settings replay)) in
        if (playerWithCharacter =? -1)%Z then Return None
        else Return (Some (playerWithCharacter, opponent playerWithCharacter))
    | None => Return None
    end.

(** Lines 97-182: the callback of [replayDataList.forEach]. *)
Definition visit_replay (selectedPlayer : option string)
           (selectedCharacter : option Z)
           (statsMap : StatsMap) (replay : ReplayData) : Throws StatsMap :=
  let players := Settings.players (settings replay) in
  if negb (length players =? 2)%nat then Return statsMap
  else
    picked <- pick_player selectedPlayer selectedCharacter replay ;;
    match picked with
    | None => Return statsMap
    | Some (playerIndex, opponentIndex) =>
        match at_index players playerIndex, at_index players opponentIndex with
        | Some pl, Some op =>
            let playerCharacterId := SettingsPlayer.characterId pl in
            let opponentCharacterId := SettingsPlayer.characterId op in
            let mismatch :=
              match selectedCharacter with
              | Some c => negb (playerCharacterId =? c)%Z
              | None => false
              end in
            if mismatch then Return statsMap
            else
              let matchupKey := (playerCharacterId, opponentCharacterId) in
              let statsMap :=
                match get Key_eqb statsMap matchupKey with
                | None =>
                    set Key_eqb statsMap matchupKey
                        (fresh playerCharacterId opponentCharacterId)
                | Some _ => statsMap
                end in
              match find (fun p => (Overall.playerIndex p =? playerIndex)%Z)
                         (Stats.overall (stats replay)),
                    find (fun p => (Overall.playerIndex p =? opponentIndex)%Z)
                         (Stats.overall (stats replay)) with
              | Some playerStats, Some opponentStats =>
                  match last_element (Stats.stocks (stats replay)) with
                  | None => Throw
                  | Some lastStock =>
                      let isWinner :=
                        negb (Stock.playerIndex lastStock =? playerIndex)%Z in
                      Return (alter Key_eqb
                                    (record_game isWinner playerStats
                                                 opponentStats)
                                    statsMap matchupKey)
                  end
              | _, _ => Return statsMap
              end
        | _, _ => Return statsMap
        end
    end.

(** Lines 185-207 *)
Definition to_row (lib : Lib) (stats : Entry.t) : MatchupStats :=
  {| characterId := Entry.characterId stats;
     characterName := getCharacterName lib (Entry.characterId stats);
     opponentCharacterId := Entry.opponentCharacterId stats;
     opponentCharacterName :=
       getCharacterName lib (Entry.opponentCharacterId stats);
     totalGames := Entry.totalGames stats;
     wins := Entry.wins stats;
     losses := Entry.losses stats;
     winRate :=
       if Qcltb 0 (Entry.totalGames stats)
       then dmul (ddiv (Num (Entry.wins stats)) (Num (Entry.totalGames stats)))
                 (Num (ofZ 100))
       else Num 0%Qc;
     averageDamageDealt :=
       if Qcltb 0 (Entry.totalGames stats)
       then ddiv (Entry.totalDamageDealt stats)
                 (Num (Entry.totalGames stats))
       else Num 0%Qc;
     averageDamageTaken :=
       if Qcltb 0 (Entry.totalGames stats)
       then ddiv (Entry.totalDamageTaken stats)
                 (Num (Entry.totalGames stats))
       else Num 0%Qc;
     damageRatio :=
       if dpositive (Entry.totalDamageTaken stats)
       then ddiv (Entry.totalDamageDealt stats)
                 (Entry.totalDamageTaken stats)
       else Num 0%Qc |}.

Definition statsMap (selectedPlayer : option string)
           (selectedCharacter : option Z)
           (replayDataList : list ReplayData) : Throws StatsMap :=
  forEach (visit_replay selectedPlayer selectedCharacter) replayDataList [].

Definition matchupStatsArray (lib : Lib) (selectedPlayer : option string)
           (selectedCharacter : option Z)
           (replayDataList : list ReplayData) : Throws (list MatchupStats) :=
  m <- statsMap selectedPlayer selectedCharacter replayDataList ;;
  Return (map (to_row lib) (map snd m)).

(** Lines 210-221 *)
Definition comparator (lib : Lib) (sortBy : Column) (sortDir : SortDir)
           (a b : MatchupStats) : number :=
  compare_values lib sortDir (cell a sortBy) (cell b sortBy).

Definition sortedStats (lib : Lib) (selectedPlayer : option string)
           (selectedCharacter : option Z)
           (sortBy : Column) (sortDir : SortDir)
           (replayDataList : list ReplayData) : Throws (list MatchupStats) :=
  rows <- matchupStatsArray lib selectedPlayer selectedCharacter
                            replayDataList ;;
  Return (js_sort (comparator lib sortBy sortDir) rows).

Definition effect (lib : Lib) (selectedPlayer : option string)
           (selectedCharacter : option Z)
           (sortBy : Column) (sortDir : SortDir)
           (replayDataList : list ReplayData)
           (matchupStats : list MatchupStats)
  : Throws (list MatchupStats) :=
  match replayDataList with
  | [] => Return matchupStats
  | _ => sortedStats lib selectedPlayer selectedCharacter sortBy sortDir
                     replayDataList
  end.

End MatchupAnalysis.

(* ================================================================== *)
(** ** A small platform on which the handlers run

    An in-memory file system in which a file can only be created in a
    directory that exists, a parser that accepts any non-empty file, and a
    form parser that stores the [replayFile] parts under [/tmp].  It
    instantiates [Http.Env] for the concrete runs below. *)

Module MemPlatform.
Import Http.

Record Fs := { dirs : list string; files : list (string * buffer) }.

Definition lookup (w : Fs) (p : string) : option buffer :=
  get String.eqb (files w) p.

Fixpoint after_slash (l : list ascii) : list ascii :=
  match l with
  | [] => []
  | c :: t => if Ascii.eqb c "/" then t else after_slash t
  end.

Fixpoint until_slash (l : list ascii) : list ascii :=
  match l with
  | [] => []
  | c :: t => if Ascii.eqb c "/" then [] else c :: until_slash t
  end.

Definition dirname (p : string) : string :=
  string_of_list_ascii (rev (after_slash (rev (list_ascii_of_string p)))).

Definition basename (p : string) : string :=
  string_of_list_ascii (rev (until_slash (rev (list_ascii_of_string p)))).

Definition write (w : Fs) (p : string) (d : buffer) : Fs * bool :=
  if existsb (String.eqb (dirname p)) (dirs w)
  then ({| dirs := dirs w; files := set String.eqb (files w) p d |}, true)
  else (w, false).

Definition unlink (w : Fs) (p : string) : Fs * bool :=
  match lookup w p with
  | Some _ =>
      ({| dirs := dirs w;
          files := filter (fun kv => negb (String.eqb (fst kv) p)) (files w) |},
       true)
  | None => (w, false)
  end.

Definition list_dir (w : Fs) (d : string) : option (list string) :=
  if existsb (String.eqb d) (dirs w)
  then Some (map (fun kv => basename (fst kv))
                 (filter (fun kv => String.eqb (dirname (fst kv)) d) (files w)))
  else None.

(** The parsed replay is the size of the file. *)
Definition game (w : Fs) (p : string) : option nat :=
  match lookup w p with
  | Some (b :: t) => Some (length (b :: t))
  | _ => None
  end.

Definition upload_path (n : nat) : string :=
  ("/tmp/upload_" ++ string_of_list_ascii (repeat "x"%char n))%string.

Fixpoint store (w : Fs) (ps : list Part) (n : nat) : Fs * list UploadedFile :=
  match ps with
  | [] => (w, [])
  | p :: t =>
      let w1 := fst (write w (upload_path n) (content p)) in
      let '(w2, fs) := store w1 t (S n) in
      (w2, {| originalFilename := partFilename p;
              filepath := upload_path n |} :: fs)
  end.

Definition parse_form (opts : FormOptions) (w : Fs) (req : Request)
  : Fs * FormResult :=
  if existsb (fun p => (maxFileSize opts <? Z.of_nat (length (content p)))%Z)
             (parts req)
  then (w, FormError)
  else
    let '(w1, fs) :=
      store w (filter (fun p => String.eqb (fieldName p) "replayFile")
                      (parts req)) 0 in
    (w1, FormFiles (match fs with [] => None | _ => Some fs end)).

(** [archive]: what the uploaded buffer decodes to, [None] for a buffer
    that is no zip archive. *)
Definition env (archive : option (list (string * buffer))) : Env Fs nat :=
  {| formParse := parse_form;
     readFileSync := lookup;
     writeFileSync := write;
     unlinkSync := unlink;
     readdir := list_dir;
     unzipSync := fun _ => archive;
     SlippiGame := game;
     path_join := String.concat "/";
     cwd := "/app";
     APP_ENV := None |}.

Definition disk : Fs :=
  {| dirs := ["/tmp"; "/app/public/assets/slp-demo-data"]%string;
     files := [("/app/public/assets/slp-demo-data/a.slp", [Byte.x01]);
               ("/app/public/assets/slp-demo-data/notes.txt", [Byte.x02]);
               ("/app/public/assets/slp-demo-data/b.slp", [Byte.x03])]%string |}.

Definition post (filename : option string) (content : buffer) : Request :=
  {| method := "POST";
     parts := [{| fieldName := "replayFile"; partFilename := filename;
                  content := content |}] |}.

End MemPlatform.

(* ================================================================== *)
(** ** Sample replays and a sample library *)

Module Samples.

(** The doubles written [0.1] and [0.2]. *)
Definition tenth : number := literal (Q2Qc (1 # 10)).
Definition fifth : number := literal (Q2Qc (1 # 5)).

Definition rat (r : number) : Ratio.t :=
  {| Ratio.count := 0%Qc; Ratio.total := 0%Qc; Ratio.ratio := r |}.

Definition overall (playerIndex : Z) (dpo opk ipm damage : Z) : Overall.t :=
  {| Overall.conversionCount := ofZ 7;
     Overall.counterHitRatio := rat 0%Qc;
     Overall.damagePerOpening := rat (ofZ dpo);
     Overall.digitalInputsPerMinute := rat (ofZ 200);
     Overall.inputsPerMinute := rat (ofZ ipm);
     Overall.neutralWinRatio := rat 0%Qc;
     Overall.openingsPerKill := rat (ofZ opk);
     Overall.playerIndex := playerIndex;
     Overall.successfulConversions := rat 0%Qc;
     Overall.totalDamage := ofZ damage |}.

Definition stock (playerIndex : Z) : Stock.t :=
  {| Stock.count := ofZ 4; Stock.currentPercent := 0%Qc;
     Stock.endFrame := None; Stock.endPercent := None;
     Stock.playerIndex := playerIndex;
     Stock.startFrame := 0%Qc; Stock.startPercent := 0%Qc |}.

Definition player (code : string) : Player :=
  {| names := {| netplay := code; code := code |} |}.

Definition seat (playerIndex characterId : Z) : SettingsPlayer.t :=
  {| SettingsPlayer.displayName := ""; SettingsPlayer.port := playerIndex + 1;
     SettingsPlayer.characterId := characterId;
     SettingsPlayer.characterColor := "";
     SettingsPlayer.playerIndex := playerIndex |}.

(** A game between AAA#1 (index 0, character 2) and BBB#2 (index 1,
    character 9); [lastStock] is the index the last stock belongs to. *)
Definition game (lastStock : Z) (damage0 damage1 : Z) : ReplayData :=
  {| metadata := {| Metadata.startAt := ""; Metadata.lastFrame := ofZ 7200;
                    Metadata.playedOn := "";
                    Metadata.players := [player "AAA#1"; player "BBB#2"] |};
     stats := {| Stats.overall := [overall 0 12 3 300 damage0;
                                   overall 1 8 0 280 damage1];
                 Stats.stocks := [stock 0; stock 1; stock lastStock] |};
     settings := {| Settings.stageId := 31;
                    Settings.players := [seat 0 2; seat 1 9] |} |}.

Definition games : list ReplayData :=
  [game 1 100 60; game 0 80 120; game 1 90 0].

(** The same game against another character. *)
Definition versus (characterId : Z) (g : ReplayData) : ReplayData :=
  {| metadata := metadata g;
     stats := stats g;
     settings := {| Settings.stageId := Settings.stageId (settings g);
                    Settings.players := [seat 0 2; seat 1 characterId] |} |}.

(** Two games in which each player deals a damage of [2^1023], and a game
    of another matchup. *)
Definition huge_games : list ReplayData :=
  [game 1 (2 ^ 1023) (2 ^ 1023); game 1 (2 ^ 1023) (2 ^ 1023);
   versus 10 (game 1 100 60)].

(** The same game with no stock recorded. *)
Definition game_without_stocks : ReplayData :=
  {| metadata := metadata (game 0 0 0);
     stats := {| Stats.overall := Stats.overall (stats (game 0 0 0));
                 Stats.stocks := [] |};
     settings := settings (game 0 0 0) |}.

(** A library: names for two characters, strings compared code unit by
    code unit. *)
Definition lib : Lib :=
  {| getCharacterName := fun id =>
       if (id =? 2)%Z then "Fox"%string
       else if (id =? 9)%Z then "Marth"%string else "Unknown"%string;
     localeCompare := fun a b =>
       match String.compare a b with
       | Lt => ofZ (-1)
       | Eq => 0%Qc
       | Gt => ofZ 1
       end;
     toString := fun _ => ""%string |}.

End Samples.

(* ================================================================== *)
(** ** Predicates used to state the properties *)

(** Every list handed to the page's callback respects the cap. *)
Definition within_cap (out : list PickerEffect) : Prop :=
  forall fs, In (OnFileUpload fs) out ->
             (length fs <= FileUploadMax.MAX_FILES)%nat.

(** The specification's words: the name ends in the suffix. *)
Definition ends_in (s suffix : string) : Prop :=
  exists prefix : string, s = (prefix ++ suffix)%string.

Section HttpPredicates.
Import Http.
Variables World Parsed : Type.
Variable env : Env World Parsed.

(** The request is a POST whose form parses and whose first [replayFile]
    is [file]; [w'] is the state after the form was parsed. *)
Definition uploads (w : World) (req : Request) (file : UploadedFile)
           (w' : World) : Prop :=
  method req = "POST"%string
  /\ exists rest, formParse env options w req
                  = (w', FormFiles (Some (file :: rest))).

(** The request is a POST whose form parses and carries no [replayFile]. *)
Definition uploads_nothing (w : World) (req : Request) : Prop :=
  method req = "POST"%string
  /\ (snd (formParse env options w req) = FormFiles None
      \/ snd (formParse env options w req) = FormFiles (Some [])).

(** No original filename, or one that does not end in [suffix]. *)
Definition lacks_suffix (file : UploadedFile) (suffix : string) : Prop :=
  match originalFilename file with
  | None => True
  | Some n => ~ ends_in n suffix
  end.

(** A handler rejects every upload whose name lacks [suffix] with status
    400 and [msg], and without a call of the replay parser. *)
Definition rejects_with (suffix msg : string)
           (h : World -> Request -> World * list (Event Parsed)) : Prop :=
  forall w req file w',
    uploads w req file w' -> lacks_suffix file suffix ->
    responses (snd (h w req)) = [(400%Z, Message msg)]
    /\ parser_calls (snd (h w req)) = [].

Definition rejects_missing_file
           (h : World -> Request -> World * list (Event Parsed)) : Prop :=
  forall w req,
    uploads_nothing w req ->
    responses (snd (h w req)) = [(400%Z, Message "No replay file uploaded")]
    /\ parser_calls (snd (h w req)) = [].

(** formidable refuses an upload with a file larger than [maxFileSize]. *)
Definition enforces_maxFileSize : Prop :=
  forall opts w req,
    (exists p, In p (parts req)
               /\ (maxFileSize opts < Z.of_nat (length (content p)))%Z) ->
    snd (formParse env opts w req) = FormError.

(** The answer of both upload handlers to a form that does not parse. *)
Definition answers_form_error (w : World) (req : Request) : Prop :=
  (responses (snd (handler env w req))
   = [(500%Z, Message "Error parsing form data")]
   /\ parser_calls (snd (handler env w req)) = [])
  /\ (responses (snd (zip_handler env w req))
      = [(500%Z, Message "Error parsing form data")]
      /\ parser_calls (snd (zip_handler env w req)) = []).

(** No [writeFileSync] threw during the run. *)
Definition no_failed_write (tr : list (Event Parsed)) : Prop :=
  forall p d, ~ In (EvWrite p d false) tr.

(** A result and the parser call it comes from. *)
Definition reports (r : Result Parsed) (call : string * option Parsed) : Prop :=
  fst call = tempPathOf env (res_filename r)
  /\ match snd call with
     | Some parsed => r = ResParsed (res_filename r) parsed
     | None => r = ResError (res_filename r) "Failed to parse"
     end.

(** What the loop does for one [.slp] entry. *)
Record Step := { step_path : string; step_data : buffer;
                 step_parsed : option Parsed; step_unlinked : bool }.

Definition entry_events (s : Step) : list (Event Parsed) :=
  [EvWrite (step_path s) (step_data s) true;
   EvParse (step_path s) (step_parsed s);
   EvUnlink (step_path s) (step_unlinked s)].

(** The request uploads a file named [*.zip] that is read and unpacked to
    [unzipped]. *)
Definition uploads_zip (w : World) (req : Request) (file : UploadedFile)
           (unzipped : list (string * buffer)) : Prop :=
  exists w' zipBuffer,
    uploads w req file w'
    /\ (exists n, originalFilename file = Some n /\ ends_in n ".zip")
    /\ readFileSync env w' (filepath file) = Some zipBuffer
    /\ unzipFile env zipBuffer = Some unzipped.

Definition slp_names (unzipped : list (string * buffer)) : list string :=
  filter (fun f => endsWith f ".slp") (map fst unzipped).

(** The answer to a batch: 200, one result per [.slp] entry in the order
    of the archive, each reporting its own parser call. *)
Definition batch_answer (unzipped : list (string * buffer))
           (tr : list (Event Parsed)) : Prop :=
  exists results,
    responses tr = [(200%Z, Results results)]
    /\ map res_filename results = slp_names unzipped
    /\ Forall2 reports results (parser_calls tr).

(** C1 with a side condition on the run. *)
Definition batch_reports_when (side : list (Event Parsed) -> Prop) : Prop :=
  forall w req file unzipped,
    uploads_zip w req file unzipped ->
    side (snd (zip_handler env w req)) ->
    batch_answer unzipped (snd (zip_handler env w req)).

(** The trace of a batch that cleans up: after the read and the unzip,
    each [.slp] entry is written, parsed and unlinked, then the upload is
    unlinked, and the response comes last. *)
Definition cleans_up (file : UploadedFile) (unzipped : list (string * buffer))
           (tr : list (Event Parsed)) : Prop :=
  exists steps ok status body,
    tr = [EvRead (filepath file) true; EvUnzip true]
           ++ flat_map entry_events steps
           ++ [EvUnlink (filepath file) ok; EvRespond status body]
    /\ map step_path steps = map (tempPathOf env) (slp_names unzipped)
    /\ (forall p, In p (written tr) -> In p (unlink_attempts tr))
    /\ In (filepath file) (unlink_attempts tr).

(** C10 with a side condition on the run. *)
Definition batch_cleans_up_when (side : list (Event Parsed) -> Prop) : Prop :=
  forall w req file unzipped,
    uploads_zip w req file unzipped ->
    side (snd (zip_handler env w req)) ->
    cleans_up file unzipped (snd (zip_handler env w req)).

(** The same platform with another [unlinkSync]. *)
Definition with_unlink (u : World -> string -> World * bool) : Env World Parsed :=
  {| formParse := formParse env;
     readFileSync := readFileSync env;
     writeFileSync := writeFileSync env;
     unlinkSync := u;
     readdir := readdir env;
     unzipSync := unzipSync env;
     SlippiGame := SlippiGame env;
     path_join := path_join env;
     cwd := cwd env;
     APP_ENV := APP_ENV env |}.

(** [u] does to the files what [unlinkSync] does and may differ in what
    it throws. *)
Definition differs_in_failure (u : World -> string -> World * bool) : Prop :=
  forall w p, fst (u w p) = fst (unlinkSync env w p).

(** An event without the outcome of the deletion. *)
Definition forget_failure (e : Event Parsed) : Event Parsed :=
  match e with
  | EvUnlink p _ => EvUnlink p true
  | _ => e
  end.

End HttpPredicates.

Arguments uploads {World Parsed} env w req file w'.
Arguments uploads_nothing {World Parsed} env w req.
Arguments rejects_with {World Parsed} env suffix msg h.
Arguments rejects_missing_file {World Parsed} env h.
Arguments enforces_maxFileSize {World Parsed} env.
Arguments answers_form_error {World Parsed} env w req.
Arguments no_failed_write {Parsed} tr.
Arguments reports {World Parsed} env r call.
Arguments step_path {Parsed} s.
Arguments step_data {Parsed} s.
Arguments step_parsed {Parsed} s.
Arguments step_unlinked {Parsed} s.
Arguments entry_events {Parsed} s.
Arguments uploads_zip {World Parsed} env w req file unzipped.
Arguments batch_answer {World Parsed} env unzipped tr.
Arguments batch_reports_when {World Parsed} env side.
Arguments cleans_up {World Parsed} env file unzipped tr.
Arguments batch_cleans_up_when {World Parsed} env side.
Arguments with_unlink {World Parsed} env u.
Arguments differs_in_failure {World Parsed} env u.
Arguments forget_failure {Parsed} e.

(** Every value of a dictionary satisfies [P]. *)
Definition all_values {K V : Type} (P : V -> Prop) (m : list (K * V)) : Prop :=
  Forall P (map snd m).

(** The invariant of the entries of both aggregation maps: the counters of
    wins and losses are not negative and add up to the counter of games. *)
Definition balanced (e : CharacterBreakdown.Entry.t) : Prop :=
  (0 <= CharacterBreakdown.Entry.wins e)%Qc
  /\ (0 <= CharacterBreakdown.Entry.losses e)%Qc
  /\ (CharacterBreakdown.Entry.wins e + CharacterBreakdown.Entry.losses e)%Qc
     = CharacterBreakdown.Entry.totalGames e.

Definition balanced_matchup (e : MatchupAnalysis.Entry.t) : Prop :=
  (0 <= MatchupAnalysis.Entry.wins e)%Qc
  /\ (0 <= MatchupAnalysis.Entry.losses e)%Qc
  /\ (MatchupAnalysis.Entry.wins e + MatchupAnalysis.Entry.losses e)%Qc
     = MatchupAnalysis.Entry.totalGames e.




(** The specification's words: the win rate is [100 * wins / totalGames]
    when [totalGames] is positive and 0 otherwise. *)
Definition exact_win_rate (q : double) (wins totalGames : number) : Prop :=
  ((0 < totalGames)%Qc -> q = Num (ofZ 100 * wins / totalGames)%Qc)
  /\ (~ (0 < totalGames)%Qc -> q = Num 0%Qc).

(** [d] is a number of the interval from [lo] to [hi]. *)
Definition within (lo hi : number) (d : double) : Prop :=
  exists r, d = Num r /\ (lo <= r)%Qc /\ (r <= hi)%Qc.

(** [r] is within [eps] of [x]. *)
Definition near (eps r x : number) : Prop :=
  (x - eps <= r)%Qc /\ (r <= x + eps)%Qc.





(** Two cells in the order of the selected direction. *)
Definition in_order (lib : Lib) (sortDir : SortDir) (a b : value) : Prop :=
  match a, b with
  | VNum x, VNum y =>
      match sortDir with asc => dle x y | desc => dle y x end
  | _, _ =>
      match sortDir with
      | asc => (localeCompare lib (js_String lib a) (js_String lib b) <= 0)%Qc
      | desc => (localeCompare lib (js_String lib b) (js_String lib a) <= 0)%Qc
      end
  end.

(** Any two adjacent rows are in order on the selected column. *)
Definition adjacent_in_order {R : Type} (lib : Lib) (sortDir : SortDir)
           (cell : R -> value) (rows : list R) : Prop :=
  forall i a b,
    nth_error rows i = Some a -> nth_error rows (S i) = Some b ->
    in_order lib sortDir (cell a) (cell b).

(** [localeCompare] orders any two strings one way or the other. *)
Definition consistent_collation (lib : Lib) : Prop :=
  forall a b, (localeCompare lib a b <= 0)%Qc \/ (localeCompare lib b a <= 0)%Qc.

(* ================================================================== *)
(** ** Predicates for the properties of the picker *)

(** Every file of the list has a replay's name. *)
Definition all_slp (fs : list File) : Prop :=
  Forall (fun f => ends_in (name f) ".slp") fs.

(** Every list handed to the page's callback is a non-empty list of
    replays. *)
Definition submits_replays (out : list PickerEffect) : Prop :=
  forall fs, In (OnFileUpload fs) out -> fs <> [] /\ all_slp fs.

(* ================================================================== *)
(** ** Predicates for the runs of the handlers *)

Section RunPredicates.
Import Http.
Variable Parsed : Type.

(** The handler answers once, as its last call, with one of the statuses
    of the API. *)
Definition answers_once (tr : list (Event Parsed)) : Prop :=
  exists earlier status body,
    tr = earlier ++ [EvRespond status body]
    /\ responses earlier = []
    /\ In status [200; 400; 405; 500]%Z.

(** What the single-replay handler did, read off its parser calls: no
    call and a refusal, one successful call followed by the deletion of
    the parsed file and 200, or one failed call, no deletion and 500. *)
Definition single_run (tr : list (Event Parsed)) : Prop :=
  match parser_calls tr with
  | [] =>
      unlink_attempts tr = []
      /\ exists status message,
           responses tr = [(status, Message message)] /\ status <> 200%Z
  | [(path, Some data)] =>
      unlink_attempts tr = [path] /\ responses tr = [(200%Z, Replay data)]
  | [(path, None)] =>
      unlink_attempts tr = []
      /\ responses tr = [(500%Z, Message "Error parsing replay file")]
  | _ => False
  end.

End RunPredicates.

Arguments answers_once {Parsed} tr.
Arguments single_run {Parsed} tr.

(* ================================================================== *)
(** ** MatchupAnalysis: the header of the table *)

Module MatchupControls.
Import MatchupAnalysis.

Definition Column_index (c : Column) : nat :=
  match c with
  | ColCharacterId => 0 | ColCharacterName => 1 | ColOpponentCharacterId => 2
  | ColOpponentCharacterName => 3 | ColTotalGames => 4 | ColWins => 5
  | ColLosses => 6 | ColWinRate => 7 | ColAverageDamageDealt => 8
  | ColAverageDamageTaken => 9 | ColDamageRatio => 10
  end%nat.

(** [sortBy === column] *)
Definition Column_eqb (a b : Column) : bool :=
  (Column_index a =? Column_index b)%nat.

(** [handleSort] on the pair [(sortBy, sortDir)]. *)
Definition handleSort (st : Column * SortDir) (column : Column)
  : Column * SortDir :=
  let '(sortBy, sortDir) := st in
  (column,
   if Column_eqb sortBy column then
     match sortDir with desc => asc | asc => desc end
   else desc).

End MatchupControls.

(* ================================================================== *)
(** ** Predicates for the rows of the tables *)

(** Every property of a dictionary satisfies [P] with its key. *)
Definition all_entries {K V : Type} (P : K -> V -> Prop) (m : list (K * V))
  : Prop :=
  Forall (fun kv => P (fst kv) (snd kv)) m.

(** An entry of the Character Breakdown under its key. *)
Definition character_entry_ok (k : Z) (e : CharacterBreakdown.Entry.t) : Prop :=
  CharacterBreakdown.Entry.characterId e = k
  /\ (0 <= CharacterBreakdown.Entry.wins e)%Qc
  /\ (0 <= CharacterBreakdown.Entry.losses e)%Qc
  /\ balanced e.

(** An entry of the Matchup Analysis under its key. *)
Definition matchup_entry_ok (k : Z * Z) (e : MatchupAnalysis.Entry.t) : Prop :=
  (MatchupAnalysis.Entry.characterId e,
   MatchupAnalysis.Entry.opponentCharacterId e) = k
  /\ (0 <= MatchupAnalysis.Entry.wins e)%Qc
  /\ (0 <= MatchupAnalysis.Entry.losses e)%Qc
  /\ balanced_matchup e.

(** The invariant of the aggregation maps: distinct keys, and every entry
    in order under its key. *)
Definition character_map_ok (m : CharacterBreakdown.StatsMap) : Prop :=
  NoDup (map fst m) /\ all_entries character_entry_ok m.

Definition matchup_map_ok (m : MatchupAnalysis.StatsMap) : Prop :=
  NoDup (map fst m) /\ all_entries matchup_entry_ok m.

(** A click on a header: the table is sorted by that column, descending
    when the column is new, and a second click turns the direction. *)
Definition header_click {C : Type} (click : C * SortDir -> C -> C * SortDir)
  : Prop :=
  forall st c,
    fst (click st c) = c
    /\ (fst st <> c -> snd (click st c) = desc)
    /\ snd (click (click st c) c) <> snd (click st c)
    /\ click (click (click st c) c) c = click st c.

(** The sum of a column. *)
Definition sum_over {A : Type} (g : A -> number) (l : list A) : number :=
  fold_right (fun x acc => (g x + acc)%Qc) 0%Qc l.

(** A game between two players with distinct indices, statistics for both
    and a last stock that belongs to one of them. *)
Definition two_player_game (replay : ReplayData) : Prop :=
  exists p0 p1 s0 s1 earlier lastStock,
    Settings.players (settings replay) = [p0; p1]
    /\ SettingsPlayer.playerIndex p0 <> SettingsPlayer.playerIndex p1
    /\ SettingsPlayer.playerIndex p0 <> (-1)%Z
    /\ SettingsPlayer.playerIndex p1 <> (-1)%Z
    /\ find (fun p => (Overall.playerIndex p =? SettingsPlayer.playerIndex p0)%Z)
            (Stats.overall (stats replay)) = Some s0
    /\ find (fun p => (Overall.playerIndex p =? SettingsPlayer.playerIndex p1)%Z)
            (Stats.overall (stats replay)) = Some s1
    /\ Stats.stocks (stats replay) = earlier ++ [lastStock]
    /\ (Stock.playerIndex lastStock = SettingsPlayer.playerIndex p0
        \/ Stock.playerIndex lastStock = SettingsPlayer.playerIndex p1).

(** A replay the chart can read: two players in the metadata and at least
    one stock. *)
Definition chart_ready (replay : ReplayData) : Prop :=
  (exists p0 p1 others, Metadata.players (metadata replay) = p0 :: p1 :: others)
  /\ Stats.stocks (stats replay) <> [].

(** [pt] shows the statistics of the player of [replay] whose index is the
    position of the selected player among the first two players of the
    metadata. *)
Definition plotted_in (selectedPlayer : option string)
           (xAxis yAxis : ReplayDataSummary.StatKey) (replay : ReplayData)
           (pt : ReplayDataSummary.Point) : Prop :=
  exists p,
    In p (Stats.overall (stats replay))
    /\ ReplayDataSummary.selectedPlayerIndex replay selectedPlayer
       = Return (Overall.playerIndex p)
    /\ pt = {| ReplayDataSummary.x := ReplayDataSummary.coordinate p xAxis;
               ReplayDataSummary.y := ReplayDataSummary.coordinate p yAxis |}.

Definition plotted_from (selectedPlayer : option string)
           (xAxis yAxis : ReplayDataSummary.StatKey)
           (replayDataList : list ReplayData)
           (pt : ReplayDataSummary.Point) : Prop :=
  exists replay,
    In replay replayDataList /\ plotted_in selectedPlayer xAxis yAxis replay pt.

(** No player of the game has the index -1. *)
Definition indices_assigned (replay : ReplayData) : Prop :=
  Forall (fun p => Overall.playerIndex p <> (-1)%Z)
         (Stats.overall (stats replay)).

(* ================================================================== *)
(** ** The page *)

(** [Object.entries] of an object whose keys are strings: the keys that are
    array indices (canonical decimal numerals below 2^32 - 1) come first in
    ascending order, the others follow in creation order. *)
Definition digit (c : ascii) : option N :=
  let n := N_of_ascii c in
  if ((48 <=? n) && (n <=? 57))%N then Some (n - 48)%N else None.

Fixpoint numeral (s : string) (acc : N) : option N :=
  match s with
  | EmptyString => Some acc
  | String c t =>
      match digit c with
      | Some d => numeral t (10 * acc + d)%N
      | None => None
      end
  end.

Definition array_index (s : string) : option N :=
  match s with
  | EmptyString => None
  | String c t =>
      if Ascii.eqb c "0" && negb (String.eqb t "") then None
      else match numeral s 0 with
           | Some n => if (n <? 2 ^ 32 - 1)%N then Some n else None
           | None => None
           end
  end.

Definition is_index_key (s : string) : bool :=
  match array_index s with Some _ => true | None => false end.

Definition index_value (s : string) : Z :=
  match array_index s with Some n => Z.of_N n | None => 0%Z end.

Definition entries_of_string_keys {V : Type} (m : list (string * V))
  : list (string * V) :=
  js_sort (fun a b => ofZ (index_value (fst a) - index_value (fst b)))
          (filter (fun kv => is_index_key (fst kv)) m)
  ++ filter (fun kv => negb (is_index_key (fst kv))) m.

(** [response.ok] and [await response.json()]; a [Throw] is a rejected
    promise. *)
Record Response (Data : Type) := { ok : bool; json : Throws Data }.
Arguments ok {Data} r.
Arguments json {Data} r.

Definition generic_error : string :=
  "Error parsing replay files. Please make sure they are valid .slp files.".

(** The engine under the page.  [objectPrototype k] is
    [String(Object.prototype[k])] for the keys [k] that [Object.prototype]
    has ([constructor], [toString], [valueOf], [__proto__], ...), all of
    them functions or objects; [toNumber] is [Number] on strings. *)
Record Engine := {
  objectPrototype : string -> option string;
  toNumber : string -> double
}.

(** A property of the plain object [playerCounts]: a number, or the string
    that [+ 1] makes of a value that is no number. *)
Inductive counter :=
| CNum (n : number)
| CStr (s : string).

(** The number a counter is read as by [>] and [-]. *)
Definition numeric (engine : Engine) (c : counter) : double :=
  match c with
  | CNum n => Num n
  | CStr s => toNumber engine s
  end.

(** [a > b]: two strings are compared as strings. *)
Definition greater (engine : Engine) (a b : counter) : bool :=
  match a, b with
  | CStr s, CStr t =>
      match String.compare s t with Gt => true | _ => false end
  | _, _ => dlt (numeric engine b) (numeric engine a)
  end.

(** [playerCounts[code] = (playerCounts[code] || 0) + 1] for one player of
    [[players[0], players[1]]]; the access [player.names] throws on a
    missing player.  The object is a plain one: a code that it does not
    hold is looked up in [Object.prototype], whose functions and objects
    are truthy and turn [+ 1] into a concatenation; and the assignment to
    [__proto__] goes to the setter of [Object.prototype], which ignores a
    value that is no object and stores nothing. *)
Definition count_player (engine : Engine) (counts : list (string * counter))
           (player : option Player) : Throws (list (string * counter)) :=
  match player with
  | None => Throw
  | Some p =>
      let c := code (names p) in
      let next :=
        match get String.eqb counts c with
        | Some (CNum v) => CNum ((if nonzero v then v else 0) + 1)%Qc
        | Some (CStr s) =>
            if String.eqb s "" then CNum 1%Qc else CStr (s ++ "1")
        | None =>
            match objectPrototype engine c with
            | Some text => CStr (text ++ "1")
            | None => CNum 1%Qc
            end
        end in
      if String.eqb c "__proto__" then Return counts
      else Return (set String.eqb counts c next)
  end.

(** The occurrences of the players: [playerCounts] of the upload and
    [playerFrequency] of the render. *)
Definition playerCounts (engine : Engine) (replayDataList : list ReplayData)
  : Throws (list (string * counter)) :=
  forEach (fun counts replay =>
             let players := Metadata.players (metadata replay) in
             forEach (count_player engine)
                     [at_index players 0; at_index players 1] counts)
          replayDataList [].

(** [Object.entries(playerCounts).reduce((max, curr) =>
    curr[1] > max[1] ? curr : max, ["", 0])[0]] *)
Definition mostFrequentPlayer (engine : Engine)
           (counts : list (string * counter)) : string :=
  fst (fold_left (fun max curr =>
                    if greater engine (snd curr) (snd max) then curr else max)
                 (entries_of_string_keys counts) (""%string, CNum 0%Qc)).

(** [s || null] *)
Definition or_null (s : string) : option string :=
  if String.eqb s "" then None else Some s.


(** [setSelectedPlayer(e.target.value || null)] *)
Definition handlePlayerSelect (value : string) : option string :=
  or_null value.

(** An engine for the examples: the properties of [Object.prototype],
    with functions printed the way V8 prints them.  No such text followed
    by 1s is a numeral: [Number] makes [NaN] of it. *)
Definition sample_engine : Engine :=
  {| objectPrototype := fun k =>
       if String.eqb k "__proto__" then Some "[object Object]"%string
       else if existsb (String.eqb k)
                 ["constructor"; "hasOwnProperty"; "isPrototypeOf";
                  "propertyIsEnumerable"; "toLocaleString"; "toString";
                  "valueOf"; "__defineGetter__"; "__defineSetter__";
                  "__lookupGetter__"; "__lookupSetter__"]%string
       then Some ("function " ++ (if String.eqb k "constructor"
                                  then "Object" else k)
                  ++ "() { [native code] }")%string
       else None;
     toNumber := fun _ => NaN |}.

(** *** [pages/index.tsx], one replay per request, all or nothing *)
Module Home.

Record State := { replayDataList : list ReplayData;
                  loading : bool;
                  error : string }.

Section Upload.
(** The network and the server behind it. *)
Variable Net : Type.
Variable fetch : Net -> File -> Net * Throws (Response ReplayData).

(** Lines 19-35: the [for] loop.  The second component lists the files
    that were sent. *)
Fixpoint requests (n : Net) (files : list File)
         (newReplayDataList : list ReplayData)
  : Net * list File * Throws (list ReplayData) :=
  match files with
  | [] => (n, [], Return newReplayDataList)
  | file :: rest =>
      match fetch n file with
      | (n1, Throw) => (n1, [file], Throw)
      | (n1, Return response) =>
          if negb (ok response) then (n1, [file], Throw)
          else
            match json response with
            | Throw => (n1, [file], Throw)
            | Return data =>
                let '(n2, sent, out) :=
                  requests n1 rest (newReplayDataList ++ [data]) in
                (n2, file :: sent, out)
            end
      end
  end.

(** Lines 12-46; the state is the one after [finally]. *)
Definition handleFileUpload (st : State) (n : Net) (files : list File)
  : Net * list File * State :=
  let '(n1, sent, out) := requests n files [] in
  match out with
  | Return newReplayDataList =>
      (n1, sent,
       {| replayDataList := replayDataList st ++ newReplayDataList;
          loading := false;
          error := "" |})
  | Throw =>
      (n1, sent,
       {| replayDataList := replayDataList st;
          loading := false;
          error := generic_error |})
  end.
End Upload.

Arguments requests {Net} fetch n files newReplayDataList.
Arguments handleFileUpload {Net} fetch st n files.

End Home.

(** *** [pages/index.tsx], archives of replays, failures collected *)
Module HomeBatch.

Record Progress := { current : number; total : number }.

Record State := { replayDataList : list ReplayData;
                  loading : bool;
                  error : string;
                  selectedPlayer : option string;
                  activeTab : string;
                  progress : Progress }.

(** The variables of the loop. *)
Record Acc := { newReplayDataList : list ReplayData;
                successCount : number;
                errorFiles : list string }.

(** What leaves the loop, in order: a request with its answer, a
    [setProgress] with the [current] it sets. *)
Inductive Event :=
| Sent (file : File) (answer : Throws (Response (Http.Body ReplayData)))
| SetProgress (current : number).

(** Lines 150-157: [if (result.parsed)]. *)
Definition take_result (acc : Acc) (result : Http.Result ReplayData) : Acc :=
  match result with
  | Http.ResParsed _ parsed =>
      {| newReplayDataList := newReplayDataList acc ++ [parsed];
         successCount := (successCount acc + 1)%Qc;
         errorFiles := errorFiles acc |}
  | Http.ResError filename _ =>
      {| newReplayDataList := newReplayDataList acc;
         successCount := successCount acc;
         errorFiles := errorFiles acc ++ [filename] |}
  end.

Definition fail_file (acc : Acc) (file : File) : Acc :=
  {| newReplayDataList := newReplayDataList acc;
     successCount := successCount acc;
     errorFiles := errorFiles acc ++ [name file] |}.

Section Upload.
Variable Net : Type.
Variable engine : Engine.
Variable fetch : Net -> File -> Net * Throws (Response (Http.Body ReplayData)).

(** Lines 136-165: the [for] loop. *)
Fixpoint upload (n : Net) (files : list File) (acc : Acc)
  : Net * list Event * Throws Acc :=
  match files with
  | [] => (n, [], Return acc)
  | file :: rest =>
      match fetch n file with
      | (n1, Throw) => (n1, [Sent file Throw], Throw)
      | (n1, Return response) =>
          if negb (ok response) then
            let '(n2, tr, out) := upload n1 rest (fail_file acc file) in
            (n2,
             Sent file (Return response)
               :: SetProgress (successCount acc + 1)%Qc :: tr,
             out)
          else
            match json response with
            | Throw => (n1, [Sent file (Return response)], Throw)
            | Return data =>
                let acc1 :=
                  match data with
                  | Http.Results results => fold_left take_result results acc
                  | _ => fail_file acc file
                  end in
                let '(n2, tr, out) := upload n1 rest acc1 in
                (n2,
                 Sent file (Return response)
                   :: SetProgress (successCount acc1
                                   + ofNat (length (errorFiles acc1)))%Qc
                   :: tr,
                 out)
            end
      end
  end.

(** Lines 128-198; the state is the one after [finally]. *)
Definition handleFileUpload (st : State) (n : Net) (files : list File)
  : Net * list Event * State :=
  let '(n1, tr, out) :=
    upload n files {| newReplayDataList := []; successCount := 0%Qc;
                      errorFiles := [] |} in
  let finally (list : list ReplayData) (player : option string)
              (message : string) :=
    {| replayDataList := list; loading := false; error := message;
       selectedPlayer := player; activeTab := activeTab st;
       progress := {| current := 0%Qc; total := 0%Qc |} |} in
  match out with
  | Throw => (n1, tr, finally (replayDataList st) (selectedPlayer st)
                              generic_error)
  | Return acc =>
      let list := replayDataList st ++ newReplayDataList acc in
      match playerCounts engine (newReplayDataList acc) with
      | Throw => (n1, tr, finally list (selectedPlayer st) generic_error)
      | Return counts =>
          let message :=
            match errorFiles acc with
            | [] => ""
            | _ => "Failed to parse the following file(s): "
                   ++ String.concat ", " (errorFiles acc)
            end%string in
          (n1, tr,
           finally list (or_null (mostFrequentPlayer engine counts)) message)
      end
  end.
End Upload.

Arguments upload {Net} fetch n files acc.
Arguments handleFileUpload {Net} engine fetch st n files.

(** The requests of a run with their answers. *)
Definition exchanges (tr : list Event)
  : list (File * Throws (Response (Http.Body ReplayData))) :=
  flat_map (fun e => match e with
                     | Sent file answer => [(file, answer)]
                     | SetProgress _ => []
                     end) tr.

End HomeBatch.

(** The first two players of the metadata are there. *)
Definition has_two_players (replay : ReplayData) : Prop :=
  exists p0 p1 others, Metadata.players (metadata replay) = p0 :: p1 :: others.




(** The request was answered, and the answer could be read where the page
    reads it. *)
Definition answered {Data : Type} (x : File * Throws (Response Data)) : bool :=
  match snd x with
  | Throw => false
  | Return r =>
      if ok r then match json r with Return _ => true | Throw => false end
      else true
  end.

(** The replays an answer carries. *)
Definition parsed_in (x : File * Throws (Response (Http.Body ReplayData)))
  : list ReplayData :=
  match snd x with
  | Return r =>
      if ok r then
        match json r with
        | Return (Http.Results results) =>
            flat_map (fun result => match result with
                                    | Http.ResParsed _ parsed => [parsed]
                                    | Http.ResError _ _ => []
                                    end) results
        | _ => []
        end
      else []
  | Throw => []
  end.

(** The names an answer fails: the entries of the archive that were not
    parsed, or the file itself when the answer is not a list of results. *)
Definition failed_in (x : File * Throws (Response (Http.Body ReplayData)))
  : list string :=
  match snd x with
  | Return r =>
      if ok r then
        match json r with
        | Return (Http.Results results) =>
            flat_map (fun result => match result with
                                    | Http.ResParsed _ _ => []
                                    | Http.ResError filename _ => [filename]
                                    end) results
        | Return _ => [name (fst x)]
        | Throw => []
        end
      else [name (fst x)]
  | Throw => []
  end.

Definition failure_message (names : list string) : string :=
  match names with
  | [] => ""
  | _ => "Failed to parse the following file(s): " ++ String.concat ", " names
  end%string.

(** *** ReplayDataSummary: the statistics beside the chart *)
Module StatisticsSummary.
Import ReplayDataSummary.

(** One of [wins] and [losses]; a value that is [undefined] is [None]. *)
Record Series := { count : number;
                   xAvg : option double;
                   yAvg : option double;
                   xMedian : option double;
                   yMedian : option double }.

(** [data.length > 0 ? calc(data.map(f)) : 0]; [map] allocates the array
    it returns. *)
Definition guarded (calc : heap -> ref -> heap * option double)
           (h : heap) (data : list Point) (f : Point -> number)
  : heap * option double :=
  if (0 <? length data)%nat then
    let '(h1, values) := alloc h (map f data) in calc h1 values
  else (h, Some (Num 0%Qc)).

Definition average (h : heap) (data : ref) : heap * option double :=
  (h, Some (calculateAverage (read h data))).

Definition series (h : heap) (data : list Point) : heap * Series :=
  let '(h1, xa) := guarded average h data x in
  let '(h2, ya) := guarded average h1 data y in
  let '(h3, xm) := guarded calculateMedian h2 data x in
  let '(h4, ym) := guarded calculateMedian h3 data y in
  (h4, {| count := ofNat (length data);
          xAvg := xa; yAvg := ya; xMedian := xm; yMedian := ym |}).

(** The argument of [setStats]; [None] is [null]. *)
Definition stats (h : heap) (winData lossData : list Point)
  : heap * option (Series * Series) :=
  if (0 <? length winData)%nat || (0 <? length lossData)%nat then
    let '(h1, wins) := series h winData in
    let '(h2, losses) := series h1 lossData in
    (h2, Some (wins, losses))
  else (h, None).

End StatisticsSummary.

(** [r] is a number that is not [NaN]: 0 over no value. *)
Definition settled (values : list number) (r : option double) : Prop :=
  exists v, r = Some v /\ v <> NaN /\ (values = [] -> v = Num 0%Qc).

(** [r] is one of the values. *)
Definition one_of (values : list number) (r : option double) : Prop :=
  exists a, In a values /\ r = Some (Num a).

Definition series_settled (data : list ReplayDataSummary.Point)
           (s : StatisticsSummary.Series) : Prop :=
  let xs := map ReplayDataSummary.x data in
  let ys := map ReplayDataSummary.y data in
  StatisticsSummary.count s = ofNat (length data)
  /\ settled xs (StatisticsSummary.xAvg s)
  /\ settled ys (StatisticsSummary.yAvg s)
  /\ settled xs (StatisticsSummary.xMedian s)
  /\ settled ys (StatisticsSummary.yMedian s)
  /\ ((length data mod 2 = 1)%nat ->
      one_of xs (StatisticsSummary.xMedian s)
      /\ one_of ys (StatisticsSummary.yMedian s)).

(** *** MatchupAnalysis: the menu of characters *)
Module MatchupCharacters.

Record Choice := { id : Z; name : string }.

(** [characterSet.add(c)]: a [Set] keeps its elements in the order of
    their first insertion. *)
Definition add (characterSet : list Z) (c : Z) : list Z :=
  if existsb (Z.eqb c) characterSet then characterSet
  else characterSet ++ [c].

(** Lines 42-65: the callback of [replayDataList.forEach].  [find] and
    [indexOf] on [[players[0], players[1]]] give the position that
    [findIndex] gives. *)
Definition visit_replay (selectedPlayer : option string)
           (characterSet : list Z) (replay : ReplayData) : Throws (list Z) :=
  if truthy selectedPlayer then
    playerIndex <- ReplayDataSummary.selectedPlayerIndex replay selectedPlayer ;;
    if (playerIndex =? -1)%Z then Return characterSet
    else
      match find (fun p => (SettingsPlayer.playerIndex p =? playerIndex)%Z)
                 (Settings.players (settings replay)) with
      | Some p => Return (add characterSet (SettingsPlayer.characterId p))
      | None => Return characterSet
      end
  else
    Return (fold_left (fun s player => add s (SettingsPlayer.characterId player))
                      (Settings.players (settings replay)) characterSet).

(** Lines 67-74 *)
Definition uniqueCharacters (lib : Lib) (selectedPlayer : option string)
           (replayDataList : list ReplayData) : Throws (list Choice) :=
  characterSet <- forEach (visit_replay selectedPlayer) replayDataList [] ;;
  Return (js_sort (fun a b => localeCompare lib (name a) (name b))
                  (map (fun c => {| id := c; name := getCharacterName lib c |})
                       characterSet)).

(** Lines 36-77: the effect leaves the state alone over no replay. *)
Definition effect (lib : Lib) (selectedPlayer : option string)
           (replayDataList : list ReplayData) (current : list Choice)
  : Throws (list Choice) :=
  match replayDataList with
  | [] => Return current
  | _ => uniqueCharacters lib selectedPlayer replayDataList
  end.

End MatchupCharacters.

(** [c] is the character of a player of one of the replays. *)
Definition character_played (replayDataList : list ReplayData) (c : Z) : Prop :=
  exists replay p,
    In replay replayDataList
    /\ In p (Settings.players (settings replay))
    /\ SettingsPlayer.characterId p = c.

(** [statsMap] with the property [key] created when it is missing. *)
Definition with_matchup (m : MatchupAnalysis.StatsMap)
           (key : MatchupAnalysis.Key) : MatchupAnalysis.StatsMap :=
  match get MatchupAnalysis.Key_eqb m key with
  | None => set MatchupAnalysis.Key_eqb m key
                (MatchupAnalysis.fresh (fst key) (snd key))
  | Some _ => m
  end.

(** What one replay does to the map of the Matchup Analysis: nothing; or,
    for a matchup that agrees with the selected character, the creation of
    its entry, followed or not by the recording of one game. *)
Definition matchup_step (selectedPlayer : option string)
           (selectedCharacter : option Z)
           (m m' : MatchupAnalysis.StatsMap) : Prop :=
  m' = m
  \/ exists key,
       (forall c, selectedCharacter = Some c -> fst key = c)
       /\ (truthy selectedPlayer = true \/ selectedCharacter <> None)
       /\ (m' = with_matchup m key
           \/ exists isWinner playerStats opponentStats,
                m' = alter MatchupAnalysis.Key_eqb
                           (MatchupAnalysis.record_game isWinner playerStats
                                                        opponentStats)
                           (with_matchup m key) key).




(** The Character Breakdown reaches the winner determination of [replay]
    for the player with index [i]: the player is visited, has a character
    and has statistics. *)
Definition reaches_winner (selectedPlayer : option string)
           (replay : ReplayData) (i : Z) : Prop :=
  i <> (-1)%Z
  /\ (if truthy selectedPlayer
      then CharacterBreakdown.selectedPlayerIndex selectedPlayer replay = i
      else selectedPlayer = None
           /\ In i (map SettingsPlayer.playerIndex
                        (Settings.players (settings replay))))
  /\ find (fun p => (SettingsPlayer.playerIndex p =? i)%Z)
          (Settings.players (settings replay)) <> None
  /\ find (fun p => (Overall.playerIndex p =? i)%Z)
          (Stats.overall (stats replay)) <> None.

(** The Matchup Analysis reaches the winner determination of [replay]: the
    game has two players, a matchup that agrees with the selection is
    picked, and both of its players have statistics. *)
Definition matchup_reaches_winner (selectedPlayer : option string)
           (selectedCharacter : option Z) (replay : ReplayData) : Prop :=
  let players := Settings.players (settings replay) in
  length players = 2%nat
  /\ exists playerIndex opponentIndex pl op,
       MatchupAnalysis.pick_player selectedPlayer selectedCharacter replay
       = Return (Some (playerIndex, opponentIndex))
       /\ at_index players playerIndex = Some pl
       /\ at_index players opponentIndex = Some op
       /\ (forall c, selectedCharacter = Some c ->
                     SettingsPlayer.characterId pl = c)
       /\ find (fun p => (Overall.playerIndex p =? playerIndex)%Z)
               (Stats.overall (stats replay)) <> None
       /\ find (fun p => (Overall.playerIndex p =? opponentIndex)%Z)
               (Stats.overall (stats replay)) <> None.

(* ================================================================== *)
(** * Properties *)

(** ** Numbers *)

Lemma Qcleb_le (x y : number) : Qcleb x y = true <-> (x <= y)%Qc.
Proof.
  unfold Qcleb. rewrite Qcle_alt.
  destruct (x ?= y)%Qc; split; intros; congruence.
Qed.

Lemma Qcleb_gt (x y : number) : Qcleb x y = false <-> (y < x)%Qc.
Proof.
  unfold Qcleb. rewrite (Qcgt_alt x y).
  destruct (x ?= y)%Qc; split; intros; congruence.
Qed.

Lemma Qcltb_lt (x y : number) : Qcltb x y = true <-> (x < y)%Qc.
Proof.
  unfold Qcltb. rewrite Qclt_alt.
  destruct (x ?= y)%Qc; split; intros; congruence.
Qed.



Lemma Qc_0_le_1 : (0 <= 1)%Qc.
Proof. now vm_compute. Qed.

Lemma Qcinv_pos (t : Qc) : (0 < t)%Qc -> (0 < / t)%Qc.
Proof.
  unfold Qclt, Qcinv, Q2Qc. cbn [this]. intros H.
  rewrite !Qred_correct in *. now apply Qinv_lt_0_compat.
Qed.

Lemma Qcplus_nonneg (a b : Qc) : (0 <= a)%Qc -> (0 <= b)%Qc -> (0 <= a + b)%Qc.
Proof.
  intros Ha Hb. rewrite <- (Qcplus_0_l 0). now apply Qcplus_le_compat.
Qed.

Lemma ofZ_plus (a b : Z) : ofZ (a + b) = (ofZ a + ofZ b)%Qc.
Proof.
  unfold ofZ, Qcplus. apply Q2Qc_eq_iff. cbn [this Q2Qc].
  now rewrite !Qred_correct, inject_Z_plus.
Qed.

Lemma ofNat_S (n : nat) : ofNat (S n) = (ofNat n + 1)%Qc.
Proof.
  unfold ofNat. rewrite Nat2Z.inj_succ, <- Z.add_1_r, ofZ_plus. reflexivity.
Qed.

Lemma ofZ_le (a b : Z) : (ofZ a <= ofZ b)%Qc <-> (a <= b)%Z.
Proof.
  unfold ofZ, Qcle. cbn [this Q2Qc]. rewrite !Qred_correct.
  rewrite <- Zle_Qle. tauto.
Qed.

Lemma ofNat_le (a b : nat) : (ofNat a <= ofNat b)%Qc <-> (a <= b)%nat.
Proof. unfold ofNat. rewrite ofZ_le. lia. Qed.


Lemma ofNat_pos (n : nat) : (0 < ofNat (S n))%Qc.
Proof.
  apply Qcnot_le_lt. intros H. change 0%Qc with (ofNat 0) in H.
  apply ofNat_le in H. lia.
Qed.

Lemma is_zero_pos (q : number) : (0 < q)%Qc -> is_zero q = false.
Proof.
  intros H. unfold is_zero. rewrite Qclt_alt in H.
  destruct (q ?= 0)%Qc eqn:E; try reflexivity.
  apply Qceq_alt in E. subst q. discriminate.
Qed.

Lemma round64_number (q : number) : round64 q <> NaN.
Proof.
  unfold round64. destruct (Qnum q); [discriminate | |];
    destruct (round_pos _ _); discriminate.
Qed.

Lemma dadd_number (a : double) (v : number) : a <> NaN -> dadd a (Num v) <> NaN.
Proof.
  intros Ha. destruct a as [| s | x]; cbn [dadd];
    [contradiction | discriminate | apply round64_number].
Qed.

Lemma ddiv_number (a : double) (c : number) :
  a <> NaN -> (0 < c)%Qc -> ddiv a (Num c) <> NaN.
Proof.
  intros Ha Hc. destruct a as [| s | x]; cbn [ddiv];
    [contradiction | discriminate |].
  rewrite (is_zero_pos c Hc). apply round64_number.
Qed.

(** *** The doubles *)

Lemma ofZ_mult (a b : Z) : ofZ (a * b) = (ofZ a * ofZ b)%Qc.
Proof.
  apply Qc_is_canon. unfold ofZ, Qcmult. cbn [this Q2Qc].
  now rewrite !Qred_correct, inject_Z_mult.
Qed.

Lemma ofZ_pos (a : Z) : (0 < a)%Z -> (0 < ofZ a)%Qc.
Proof.
  intros H. apply Qcnot_le_lt. intros C. change 0%Qc with (ofZ 0) in C.
  apply (proj1 (ofZ_le a 0)) in C. lia.
Qed.

(** A fraction as the quotient it is. *)
Lemma Qc_fraction (q : number) :
  q = (ofZ (Qnum q) / ofZ (Zpos (Qden q)))%Qc.
Proof.
  apply Qc_is_canon. unfold Qcdiv, Qcmult, Qcinv, ofZ. cbn [this Q2Qc].
  rewrite !Qred_correct. destruct q as [[n d] c]. cbn [this Qnum Qden].
  apply Qmake_Qdiv.
Qed.

Lemma ilog2_lower (n d : positive) :
  (0 <= ilog2 n d)%Z -> (Zpos d * 2 ^ ilog2 n d <= Zpos n)%Z.
Proof.
  unfold ilog2.
  pose proof (Z.log2_spec (Zpos n) eq_refl) as [Hn1 Hn2].
  pose proof (Z.log2_spec (Zpos d) eq_refl) as [Hd1 Hd2].
  pose proof (Z.log2_nonneg (Zpos n)) as Hn0.
  pose proof (Z.log2_nonneg (Zpos d)) as Hd0.
  set (a := Z.log2 (Zpos n)) in *. set (b := Z.log2 (Zpos d)) in *.
  destruct (Z.leb_spec 0 (a - b)) as [Hc | Hc].
  - destruct (Z.leb_spec (Zpos d * 2 ^ (a - b)) (Zpos n)) as [H | H];
      intros Hpos; [exact H |].
    (* d < 2^(b+1), so d * 2^(a-b-1) < 2^a <= n *)
    assert (E : (2 ^ Z.succ b * 2 ^ (a - b - 1) = 2 ^ a)%Z).
    { rewrite <- Z.pow_add_r by lia. f_equal. lia. }
    assert (Hp : (0 < 2 ^ (a - b - 1))%Z) by (apply Z.pow_pos_nonneg; lia).
    nia.
  - destruct (Z.leb_spec (Zpos d) (Zpos n * 2 ^ (- (a - b)))); intros; lia.
Qed.

Lemma nearest_even_spec (N D : Z) :
  (0 <= N)%Z -> (0 < D)%Z ->
  let m := nearest_even N D in
  (0 <= m)%Z /\ (2 * Z.abs (m * D - N) <= D)%Z
  /\ (forall K, (N <= K * D)%Z -> (m <= K)%Z).
Proof.
  intros HN HD. unfold nearest_even. cbv zeta.
  pose proof (Z.div_mod N D ltac:(lia)) as E.
  pose proof (Z.mod_pos_bound N D HD) as Hr.
  pose proof (Z.div_pos N D HN HD) as Hf.
  set (f := (N / D)%Z) in *. set (r := (N mod D)%Z) in *.
  assert (Hup : forall K, (N <= K * D)%Z -> (f <= K)%Z /\ ((0 < r)%Z -> (f + 1 <= K)%Z)).
  { intros K HK. split; [nia |]. intros Hr0. nia. }
  destruct (Z.compare_spec (2 * r) D) as [Heq | Hlt | Hgt].
  - destruct (Z.even f).
    + split; [lia |]. split; [nia |]. intros K HK. now apply Hup.
    + split; [lia |]. split; [nia |]. intros K HK. apply Hup; [exact HK | lia].
  - split; [lia |]. split; [nia |]. intros K HK. now apply Hup.
  - split; [lia |]. split; [nia |]. intros K HK. apply Hup; [exact HK | lia].
Qed.

(** Rounding a fraction of [[0, B]], [B <= 2^j <= 2^52]: no overflow, the
    result within [[0, B]] and within [2^(j - 53)] of the fraction. *)
Lemma round_pos_spec (n d : positive) (B j : Z) :
  (0 <= j <= 52)%Z -> (B <= 2 ^ j)%Z -> (Zpos n <= B * Zpos d)%Z ->
  exists m P,
    (2 ^ (52 - j) <= P)%Z
    /\ round_pos n d = Some (ofZ m / ofZ P)%Qc
    /\ (0 <= m <= B * P)%Z
    /\ (2 * Z.abs (m * Zpos d - Zpos n * P) <= Zpos d)%Z.
Proof.
  intros Hj HB Hn. unfold round_pos.
  assert (Hil : (ilog2 n d <= j)%Z).
  { destruct (Z.le_gt_cases (ilog2 n d) j) as [H | H]; [exact H |].
    pose proof (ilog2_lower n d ltac:(lia)) as Hl.
    assert (Hlt : (2 ^ j < 2 ^ ilog2 n d)%Z) by (apply Z.pow_lt_mono_r; lia).
    nia. }
  set (e := Z.max (ilog2 n d - 52) (-1074)).
  assert (He : (e <= j - 52)%Z) by lia.
  assert (HP : (2 ^ (52 - j) <= 2 ^ (- e))%Z) by (apply Z.pow_le_mono_r; lia).
  assert (HP0 : (0 < 2 ^ (- e))%Z) by (apply Z.pow_pos_nonneg; lia).
  assert (Hspec := nearest_even_spec (Zpos n * 2 ^ (- e)) (Zpos d)
                                     ltac:(nia) ltac:(lia)).
  cbv zeta in Hspec. destruct Hspec as (Hm0 & Herr & Hup).
  assert (HmB : (nearest_even (Zpos n * 2 ^ (- e)) (Zpos d) <= B * 2 ^ (- e))%Z)
    by (apply Hup; nia).
  exists (nearest_even (Zpos n * 2 ^ (- e)) (Zpos d)), (2 ^ (- e))%Z.
  split; [exact HP |]. split; [| split; [lia | exact Herr]].
  destruct (Z.leb_spec 0 e) as [H0 | H0].
  - assert (E0 : e = 0%Z) by lia. rewrite E0 in *. 
    change (2 ^ (- 0))%Z with 1%Z in *. change (2 ^ 0)%Z with 1%Z.
    rewrite !Z.mul_1_r in *.
    replace (2 ^ 1024 <=? nearest_even (Zpos n) (Zpos d))%Z with false.
    + cbn [andb]. apply f_equal. unfold pow2. cbn [Z.leb Z.compare].
      change (2 ^ 0)%Z with 1%Z. change (ofZ 1) with 1%Qc. field. discriminate.
    + symmetry. apply Z.leb_gt.
      assert (B <= 2 ^ 52)%Z.
      { etransitivity; [exact HB |]. apply Z.pow_le_mono_r; lia. }
      assert (2 ^ 52 < 2 ^ 1024)%Z by (apply Z.pow_lt_mono_r; lia). lia.
  - cbn [andb]. apply f_equal. unfold pow2.
    destruct (Z.leb_spec 0 e); [lia |]. reflexivity.
Qed.

Lemma frac_le (a c : Z) (b d : positive) :
  (ofZ a / ofZ (Zpos b) <= ofZ c / ofZ (Zpos d))%Qc
  <-> (a * Zpos d <= c * Zpos b)%Z.
Proof.
  unfold Qcle, Qcdiv, Qcmult, Qcinv, ofZ. cbn [this Q2Qc].
  rewrite !Qred_correct. unfold Qle, Qmult, Qinv, inject_Z.
  cbn [Qnum Qden]. rewrite !Z.mul_1_r, !Pos.mul_1_l. tauto.
Qed.

Lemma ofZ_nonzero (a : positive) : ofZ (Zpos a) <> 0%Qc.
Proof.
  intros E. symmetry in E. revert E. apply Qclt_not_eq, ofZ_pos. lia.
Qed.

Lemma ofZ_minus (a b : Z) : ofZ (a - b) = (ofZ a - ofZ b)%Qc.
Proof.
  apply Qc_is_canon. unfold ofZ, Qcminus, Qcplus, Qcopp. cbn [this Q2Qc].
  rewrite !Qred_correct. unfold Zminus. now rewrite inject_Z_plus, inject_Z_opp.
Qed.

Lemma Qc_le_ofZ (q : number) (B : Z) :
  (q <= ofZ B)%Qc <-> (Qnum q <= B * Zpos (Qden q))%Z.
Proof.
  unfold Qcle, ofZ. cbn [this Q2Qc]. rewrite Qred_correct.
  unfold Qle, inject_Z. cbn [Qnum Qden]. rewrite Z.mul_1_r. tauto.
Qed.

Lemma Qc_ofZ_le (q : number) (A : Z) :
  (ofZ A <= q)%Qc <-> (A * Zpos (Qden q) <= Qnum q)%Z.
Proof.
  unfold Qcle, ofZ. cbn [this Q2Qc]. rewrite Qred_correct.
  unfold Qle, inject_Z. cbn [Qnum Qden]. rewrite Z.mul_1_r. tauto.
Qed.

Lemma Qcinv_ofZ_nonneg (E : positive) : (0 <= / ofZ (Zpos E))%Qc.
Proof.
  replace (/ ofZ (Zpos E))%Qc with (ofZ 1 / ofZ (Zpos E))%Qc
    by (change (ofZ 1) with 1%Qc; field; apply ofZ_nonzero).
  replace 0%Qc with (ofZ 0 / ofZ 1)%Qc
    by (change (ofZ 1) with 1%Qc; change (ofZ 0) with 0%Qc; field; discriminate).
  apply frac_le. lia.
Qed.

(** A number of [[0, B]], [B <= 2^j <= 2^52], rounds to a number of
    [[0, B]] that is within [2^(j - 53)] of it. *)
Lemma round64_spec (q : number) (B j : Z) :
  (0 <= j <= 52)%Z -> (B <= 2 ^ j)%Z ->
  (0 <= q)%Qc -> (q <= ofZ B)%Qc ->
  exists r,
    round64 q = Num r
    /\ (0 <= r)%Qc /\ (r <= ofZ B)%Qc
    /\ (q - / ofZ (2 ^ (53 - j)) <= r)%Qc
    /\ (r <= q + / ofZ (2 ^ (53 - j)))%Qc.
Proof.
  intros Hj HB H0 HqB.
  assert (HE : (0 < 2 ^ (53 - j))%Z) by (apply Z.pow_pos_nonneg; lia).
  assert (HE2 : (2 ^ (53 - j) = 2 * 2 ^ (52 - j))%Z).
  { replace (53 - j)%Z with (Z.succ (52 - j)) by lia.
    apply Z.pow_succ_r. lia. }
  destruct (2 ^ (53 - j))%Z as [| E | E] eqn:EE; try lia.
  pose proof (Qc_fraction q) as Hq.
  assert (HnB : (Qnum q <= B * Zpos (Qden q))%Z) by now apply Qc_le_ofZ.
  assert (Hn0 : (0 <= Qnum q)%Z).
  { change 0%Qc with (ofZ 0) in H0. apply Qc_ofZ_le in H0. lia. }
  assert (F0 : 0%Qc = (ofZ 0 / ofZ 1)%Qc)
    by (change (ofZ 1) with 1%Qc; change (ofZ 0) with 0%Qc; field; discriminate).
  assert (FB : ofZ B = (ofZ B / ofZ 1)%Qc)
    by (change (ofZ 1) with 1%Qc; field; discriminate).
  unfold round64. destruct (Qnum q) as [| n | n] eqn:En; [| | lia].
  - assert (Eq0 : q = 0%Qc).
    { rewrite Hq. change (ofZ 0) with 0%Qc. field. apply ofZ_nonzero. }
    exists 0%Qc. rewrite Eq0 in *.
    pose proof (Qcinv_ofZ_nonneg E) as Hi.
    split; [reflexivity |]. split; [apply Qcle_refl |]. split; [exact HqB |].
    split.
    + replace (0 - / ofZ (Zpos E))%Qc with (- / ofZ (Zpos E))%Qc by ring.
      apply Qcopp_le_compat in Hi. exact Hi.
    + now rewrite Qcplus_0_l.
  - destruct (round_pos_spec n (Qden q) B j Hj HB HnB)
      as (m & P & HP & -> & Hm & Herr).
    revert Hq HnB Herr. generalize (Qden q). intros d Hq HnB Herr.
    assert (HP0 : (0 < P)%Z).
    { assert (0 < 2 ^ (52 - j))%Z by (apply Z.pow_pos_nonneg; lia). lia. }
    destruct P as [| P | P]; try lia.
    exists (ofZ m / ofZ (Zpos P))%Qc. split; [reflexivity |].
    split; [rewrite F0; apply frac_le; lia |].
    split; [rewrite FB; apply frac_le; lia |].
    rewrite Hq.
    split.
    + replace (ofZ (Zpos n) / ofZ (Zpos d) - / ofZ (Zpos E))%Qc
        with (ofZ (Zpos n * Zpos E - Zpos d) / ofZ (Zpos (d * E)))%Qc.
      * apply frac_le. rewrite Pos2Z.inj_mul. nia.
      * rewrite ofZ_minus, Pos2Z.inj_mul, !ofZ_mult. field.
        split; apply ofZ_nonzero.
    + replace (ofZ (Zpos n) / ofZ (Zpos d) + / ofZ (Zpos E))%Qc
        with (ofZ (Zpos n * Zpos E + Zpos d) / ofZ (Zpos (d * E)))%Qc.
      * apply frac_le. rewrite Pos2Z.inj_mul. nia.
      * rewrite ofZ_plus, Pos2Z.inj_mul, !ofZ_mult. field.
        split; apply ofZ_nonzero.
Qed.


(** ** [Array.prototype.sort] *)

Section JsSortFacts.
Variable A : Type.
Variable cmp : A -> A -> number.

Lemma insert_perm (x : A) (l : list A) : Permutation (insert cmp x l) (x :: l).
Proof.
  induction l as [| y t IH]; simpl; [reflexivity |].
  destruct (Qcleb (cmp x y) 0); [reflexivity |].
  rewrite IH. apply perm_swap.
Qed.

Lemma js_sort_perm (l : list A) : Permutation (js_sort cmp l) l.
Proof.
  induction l as [| x t IH]; simpl; [constructor |].
  rewrite insert_perm. now constructor.
Qed.


(** The comparator orders any two elements one way or the other. *)
Hypothesis cmp_total : forall a b, before cmp a b \/ before cmp b a.

Lemma insert_HdRel (y x : A) (l : list A) :
  before cmp y x -> HdRel (before cmp) y l -> HdRel (before cmp) y (insert cmp x l).
Proof.
  intros Hyx Hl. destruct l as [| z t]; simpl; [now constructor |].
  destruct (Qcleb (cmp x z) 0); constructor; [assumption |].
  now inversion Hl.
Qed.

Lemma insert_Sorted (x : A) (l : list A) :
  Sorted (before cmp) l -> Sorted (before cmp) (insert cmp x l).
Proof.
  induction l as [| y t IH]; simpl; intros Hs.
  - repeat constructor.
  - destruct (Qcleb (cmp x y) 0) eqn:E.
    + constructor; [assumption |]. constructor. now apply Qcleb_le.
    + inversion Hs as [| ? ? Ht Hhd]; subst.
      constructor; [now apply IH |].
      apply insert_HdRel; [| assumption].
      apply Qcleb_gt in E.
      destruct (cmp_total x y) as [H | H]; [| exact H].
      exfalso. now apply (Qclt_not_le _ _ E).
Qed.

Lemma js_sort_Sorted (l : list A) : Sorted (before cmp) (js_sort cmp l).
Proof.
  induction l as [| x t IH]; simpl; [constructor |].
  now apply insert_Sorted.
Qed.
End JsSortFacts.



(** ** ReplayDataSummary: [calculateAverage] and [calculateMedian] *)

Section StoreFacts.
Import ReplayDataSummary.

Lemma read_alloc (h : heap) (a : list number) : read (h ++ [a]) (length h) = a.
Proof. unfold read. rewrite app_nth2, Nat.sub_diag; [reflexivity | lia]. Qed.


Lemma read_write_same (h : heap) (r : ref) (a : list number) :
  (r < length h)%nat -> read (write h r a) r = a.
Proof.
  revert r. induction h as [| x t IH]; intros r H; simpl in *; [lia |].
  destruct r; [reflexivity |]. apply IH. lia.
Qed.




End StoreFacts.


(** ** The file picker *)

Section PickerFacts.
Import FileUploadMax.

Lemma slice0_length (l : list File) : (length (slice0 MAX_FILES l) <= MAX_FILES)%nat.
Proof. unfold slice0. rewrite length_firstn. lia. Qed.

Ltac no_upload :=
  let fs := fresh "fs" in
  let H := fresh "H" in
  intros fs H; simpl in H;
  repeat (destruct H as [H | H]; [discriminate H |]); contradiction.

Lemma step_cap (st : State) (e : PickerEvent) :
  (length (selectedFiles st) <= MAX_FILES)%nat ->
  (length (selectedFiles (fst (step st e))) <= MAX_FILES)%nat
  /\ within_cap (snd (step st e)).
Proof.
  intros Hst. unfold within_cap.
  destruct e as [[fs |] | [fs |] | |];
    unfold step, handleDrop, handleFileChange, handleSubmit;
    cbn [fst snd selectedFiles dragActive].
  - destruct (0 <? length (validFiles fs))%nat;
      [destruct (Nat.ltb_spec MAX_FILES
                              (length (selectedFiles st ++ validFiles fs))) |];
      cbn [fst snd selectedFiles dragActive];
      (split; [first [apply slice0_length | assumption] | no_upload]).
  - split; [assumption | no_upload].
  - destruct (0 <? length (validFiles fs))%nat;
      [destruct (MAX_FILES <? length (selectedFiles st ++ validFiles fs))%nat |];
      cbn [fst snd selectedFiles dragActive];
      (split; [first [apply slice0_length | assumption] | no_upload]).
  - split; [assumption | no_upload].
  - destruct (0 <? length (selectedFiles st))%nat;
      cbn [fst snd selectedFiles dragActive];
      (split; [assumption |]); [| no_upload].
    intros fs [H | []]. now injection H as <-.
  - split; [simpl; lia | no_upload].
Qed.

Lemma run_cap (es : list PickerEvent) :
  forall st, (length (selectedFiles st) <= MAX_FILES)%nat ->
  (length (selectedFiles (fst (run st es))) <= MAX_FILES)%nat
  /\ within_cap (snd (run st es)).
Proof.
  induction es as [| e rest IH]; intros st Hst; simpl.
  - split; [assumption | intros ? []].
  - destruct (step_cap st e Hst) as [H1 H2].
    destruct (step st e) as [st1 out1]; simpl in *.
    destruct (IH st1 H1) as [H3 H4].
    destruct (run st1 rest) as [st2 out2]; simpl in *.
    split; [assumption |].
    intros fs Hin. apply in_app_or in Hin. destruct Hin; [now apply H2 | now apply H4].
Qed.
End PickerFacts.

(** C3, on [components/FileUpload.tsx]: that version of the picker keeps
    everything that is dropped on it; after one drop of 101 replay files the
    selection holds 101 files. *)
Lemma C3_no_cap_in_FileUpload :
  ~ (forall es : list PickerEvent,
       (length (FileUpload.selectedFiles (fst (FileUpload.run FileUpload.initial es)))
        <= 100)%nat).
Proof.
  intros H.
  specialize (H [Drop (Some (repeat {| name := "a.slp"; size := 1 |} 101))]).
  vm_compute in H. lia.
Qed.

(** C3, as amended: the picker that declares [MAX_FILES] (= 100) never holds
    and never submits more than 100 files, whatever is dropped, selected,
    submitted or cleared; and an addition that takes the combined list past
    100 keeps the first 100 files of the combined list. *)
Theorem C3_max_files_cap :
  FileUploadMax.MAX_FILES = 100%nat
  /\ (forall es : list PickerEvent,
        (length (FileUploadMax.selectedFiles
                   (fst (FileUploadMax.run FileUploadMax.initial es))) <= 100)%nat
        /\ forall fs, In (OnFileUpload fs)
                         (snd (FileUploadMax.run FileUploadMax.initial es)) ->
                      (length fs <= 100)%nat)
  /\ (forall (st : FileUploadMax.State) (files : list File),
        let combined := FileUploadMax.selectedFiles st ++ validFiles files in
        validFiles files <> [] ->
        (100 < length combined)%nat ->
        FileUploadMax.selectedFiles (fst (FileUploadMax.handleDrop st (Some files)))
        = firstn 100 combined
        /\ FileUploadMax.selectedFiles
             (fst (FileUploadMax.handleFileChange st (Some files)))
           = firstn 100 combined).
Proof.
  split; [reflexivity |]. split.
  - intros es. apply (run_cap es FileUploadMax.initial). simpl. lia.
  - intros st files combined Hne Hlen.
    unfold FileUploadMax.handleDrop, FileUploadMax.handleFileChange.
    cbn [FileUploadMax.selectedFiles FileUploadMax.dragActive].
    fold combined.
    destruct (Nat.ltb_spec 0 (length (validFiles files))) as [_ | H0].
    + destruct (Nat.ltb_spec FileUploadMax.MAX_FILES (length combined)) as [_ | H1].
      * split; reflexivity.
      * unfold FileUploadMax.MAX_FILES in H1. lia.
    + destruct (validFiles files); [congruence | simpl in H0; lia].
Qed.

(** ** Strings: [endsWith] *)

Lemma substring_all (s : string) : substring 0 (String.length s) s = s.
Proof. induction s as [| c s IH]; simpl; [reflexivity | now rewrite IH]. Qed.

Lemma substring_skip (p s : string) (m : nat) :
  substring (String.length p) m (p ++ s) = substring 0 m s.
Proof. induction p as [| c p IH]; simpl; [reflexivity | exact IH]. Qed.

Lemma length_append (p s : string) :
  String.length (p ++ s) = (String.length p + String.length s)%nat.
Proof. induction p as [| c p IH]; simpl; [reflexivity | now rewrite IH]. Qed.

Lemma substring_split (s : string) :
  forall k, (k <= String.length s)%nat ->
            s = (substring 0 k s ++ substring k (String.length s - k) s)%string.
Proof.
  induction s as [| c s IH]; intros k Hk; simpl in *.
  - destruct k; reflexivity.
  - destruct k as [| k]; simpl.
    + now rewrite substring_all.
    + f_equal. apply IH. lia.
Qed.

Lemma endsWith_ends_in (s suffix : string) :
  endsWith s suffix = true <-> ends_in s suffix.
Proof.
  unfold endsWith, ends_in. split.
  - destruct (Nat.leb_spec (String.length suffix) (String.length s)) as [Hle | Hlt];
      [| discriminate].
    intros H. apply String.eqb_eq in H.
    exists (substring 0 (String.length s - String.length suffix) s).
    pose proof (substring_split s (String.length s - String.length suffix)) as Hs.
    replace (String.length s - (String.length s - String.length suffix))%nat
      with (String.length suffix) in Hs by lia.
    rewrite H in Hs. apply Hs. lia.
  - intros [p ->]. rewrite length_append.
    destruct (Nat.leb_spec (String.length suffix)
                           (String.length p + String.length suffix)); [| lia].
    replace (String.length p + String.length suffix - String.length suffix)%nat
      with (String.length p) by lia.
    rewrite substring_skip, substring_all. apply String.eqb_refl.
Qed.

(** ** The HTTP handlers *)

Section HandlerFacts.
Import Http.
Variables World Parsed : Type.
Variable env : Env World Parsed.

Lemma ends_in_nonempty (suffix : string) :
  suffix <> ""%string -> ~ ends_in "" suffix.
Proof.
  intros Hne [p Hp]. destruct p; simpl in Hp; [congruence | discriminate].
Qed.

Lemma has_suffix_false (file : UploadedFile) (suffix : string) :
  suffix <> ""%string ->
  lacks_suffix file suffix -> has_suffix (originalFilename file) suffix = false.
Proof.
  unfold lacks_suffix, has_suffix. intros Hne H.
  destruct (originalFilename file) as [n |]; [| reflexivity].
  destruct (String.eqb n ""); [reflexivity |].
  destruct (endsWith n suffix) eqn:E; [| reflexivity].
  apply endsWith_ends_in in E. contradiction.
Qed.

Lemma post_eqb (req : Request) :
  method req = "POST"%string -> negb (String.eqb (method req) "POST") = false.
Proof. intros ->. reflexivity. Qed.

Lemma handler_rejects :
  rejects_with env ".slp" "Only .slp files are accepted" (handler env).
Proof.
  intros w req file w' [Hpost [rest Hform]] Hbad.
  unfold handler. rewrite (post_eqb _ Hpost), Hform.
  rewrite (has_suffix_false file ".slp") by (assumption || discriminate).
  split; reflexivity.
Qed.

Lemma zip_handler_rejects :
  rejects_with env ".zip" "Only .zip files are accepted" (zip_handler env).
Proof.
  intros w req file w' [Hpost [rest Hform]] Hbad.
  unfold zip_handler. rewrite (post_eqb _ Hpost), Hform.
  rewrite (has_suffix_false file ".zip") by (assumption || discriminate).
  split; reflexivity.
Qed.

Lemma handlers_reject_missing_file :
  rejects_missing_file env (handler env)
  /\ rejects_missing_file env (zip_handler env).
Proof.
  split; intros w req [Hpost Hform];
    unfold handler, zip_handler; rewrite (post_eqb _ Hpost);
    destruct (formParse env options w req) as [w1 r]; simpl in Hform;
    destruct Hform as [-> | ->]; split; reflexivity.
Qed.

Lemma form_error_answer (w : World) (req : Request) :
  method req = "POST"%string ->
  snd (formParse env options w req) = FormError ->
  answers_form_error env w req.
Proof.
  intros Hpost Hform. unfold answers_form_error, handler, zip_handler.
  rewrite (post_eqb _ Hpost).
  destruct (formParse env options w req) as [w1 r]; simpl in Hform; subst r.
  repeat split; reflexivity.
Qed.

End HandlerFacts.

(** C2, on the zip handler: an upload named [a.zip], which does not end in
    [.slp], is not rejected; its archive is unpacked and the replay parser
    runs on the entry. *)
Lemma C2_zip_handler_accepts_zip :
  ~ exists msg,
      rejects_with (MemPlatform.env (Some [("g.slp"%string, [Byte.x01])]))
                   ".slp" msg
                   (Http.zip_handler
                      (MemPlatform.env (Some [("g.slp"%string, [Byte.x01])]))).
Proof.
  intros [msg H].
  destruct (H MemPlatform.disk (MemPlatform.post (Some "a.zip"%string) [Byte.x01])
              {| Http.originalFilename := Some "a.zip"%string;
                 Http.filepath := "/tmp/upload_" |}
              (fst (MemPlatform.parse_form Http.options MemPlatform.disk
                      (MemPlatform.post (Some "a.zip"%string) [Byte.x01]))))
    as [_ Hcalls].
  - split; [reflexivity |]. exists []. reflexivity.
  - unfold lacks_suffix. simpl. intros E. apply endsWith_ends_in in E.
    vm_compute in E. discriminate.
  - vm_compute in Hcalls. discriminate.
Qed.

(** C2, as amended: the single-replay handler answers 400 "Only .slp files
    are accepted", without calling the replay parser, to every upload
    whose original filename is missing or does not end in [.slp]; the zip
    handler does the same for [.zip] with "Only .zip files are accepted";
    both answer 400 "No replay file uploaded" to a form without a
    [replayFile]. *)
Theorem C2_upload_validation (World Parsed : Type) (env : Http.Env World Parsed) :
  rejects_with env ".slp" "Only .slp files are accepted" (Http.handler env)
  /\ rejects_with env ".zip" "Only .zip files are accepted" (Http.zip_handler env)
  /\ rejects_missing_file env (Http.handler env)
  /\ rejects_missing_file env (Http.zip_handler env).
Proof.
  split; [apply handler_rejects |].
  split; [apply zip_handler_rejects |].
  apply handlers_reject_missing_file.
Qed.

(** C6. Both upload handlers configure the form with a maximum file size of
    10 * 1024 * 1024 bytes; whenever the form does not parse they answer
    500 "Error parsing form data" without calling the replay parser; and
    since formidable refuses a file larger than the maximum, so does an
    upload with a file of more than 10485760 bytes. *)
Theorem C6_form_cap (World Parsed : Type) (env : Http.Env World Parsed) :
  Http.maxFileSize Http.options = (10 * 1024 * 1024)%Z
  /\ (forall w req,
        Http.method req = "POST"%string ->
        snd (Http.formParse env Http.options w req) = Http.FormError ->
        answers_form_error env w req)
  /\ (enforces_maxFileSize env ->
      forall w req,
        Http.method req = "POST"%string ->
        (exists p, In p (Http.parts req)
                   /\ (10485760 < Z.of_nat (length (Http.content p)))%Z) ->
        answers_form_error env w req).
Proof.
  split; [reflexivity |]. split.
  - intros w req. apply form_error_answer.
  - intros Hcap w req Hpost Hbig. apply form_error_answer; [assumption |].
    apply Hcap. exact Hbig.
Qed.

(** C7. When the directory is read, the sample-data handler answers 200 with
    exactly the entries whose names end in [.slp], in the order of the
    directory; when the read fails it answers 500. *)
Theorem C7_sample_listing (World Parsed : Type) (env : Http.Env World Parsed)
        (w : World) :
  let dir := Http.path_join env
               [Http.cwd env; "public"; "assets"; "slp-demo-data"]%string in
  match Http.readdir env w dir with
  | Some entries =>
      exists listed,
        Http.responses (snd (Http.sample_handler env w))
        = [(200%Z, Http.Files listed)]
        /\ (forall f, In f listed <-> In f entries /\ ends_in f ".slp")
        /\ listed = filter (fun f => endsWith f ".slp") entries
  | None =>
      Http.responses (snd (Http.sample_handler env w))
      = [(500%Z, Http.Error "Failed to list sample files")]
  end.
Proof.
  intros dir. unfold Http.sample_handler. fold dir.
  destruct (Http.readdir env w dir) as [entries |]; [| reflexivity].
  exists (filter (fun f => endsWith f ".slp") entries).
  split; [reflexivity |]. split; [| reflexivity].
  intros f. rewrite filter_In, endsWith_ends_in. tauto.
Qed.

(** ** The zip handler: the loop over the archive *)

Section LoopFacts.
Import Http.
Variables World Parsed : Type.
Variable env : Env World Parsed.

Lemma parser_calls_app (a b : list (Event Parsed)) :
  parser_calls (a ++ b) = parser_calls a ++ parser_calls b.
Proof. unfold parser_calls. apply flat_map_app. Qed.

Lemma responses_app (a b : list (Event Parsed)) :
  responses (a ++ b) = responses a ++ responses b.
Proof. unfold responses. apply flat_map_app. Qed.

Lemma parser_calls_steps (steps : list (Step Parsed)) :
  parser_calls (flat_map entry_events steps)
  = map (fun s => (step_path s, step_parsed s)) steps.
Proof. induction steps as [| s t IH]; simpl; [reflexivity | now rewrite <- IH]. Qed.

Lemma responses_steps (steps : list (Step Parsed)) :
  responses (flat_map entry_events steps) = [].
Proof. induction steps as [| s t IH]; simpl; [reflexivity | exact IH]. Qed.

Lemma unlink_attempts_steps (steps : list (Step Parsed)) :
  unlink_attempts (flat_map entry_events steps) = map step_path steps.
Proof. induction steps as [| s t IH]; simpl; [reflexivity | now rewrite <- IH]. Qed.

Lemma written_steps (steps : list (Step Parsed)) :
  written (flat_map entry_events steps) = map step_path steps.
Proof. induction steps as [| s t IH]; simpl; [reflexivity | now rewrite <- IH]. Qed.

Lemma written_batch (steps : list (Step Parsed)) (path : string) (ok : bool)
      (status : Z) (body : Body Parsed) :
  written ([EvRead path true; EvUnzip true] ++ flat_map entry_events steps
             ++ [EvUnlink path ok; EvRespond status body])
  = map step_path steps.
Proof.
  unfold written. rewrite !flat_map_app. fold (written (flat_map entry_events steps)).
  rewrite written_steps. simpl. apply app_nil_r.
Qed.

Lemma unlink_attempts_batch (steps : list (Step Parsed)) (path : string)
      (ok : bool) (status : Z) (body : Body Parsed) :
  unlink_attempts ([EvRead path true; EvUnzip true] ++ flat_map entry_events steps
                     ++ [EvUnlink path ok; EvRespond status body])
  = map step_path steps ++ [path].
Proof.
  unfold unlink_attempts. rewrite !flat_map_app.
  fold (unlink_attempts (flat_map entry_events steps)).
  rewrite unlink_attempts_steps. reflexivity.
Qed.

(** A run of the loop in which no write throws: one step per [.slp] entry,
    one result per step. *)
Lemma loop_run (entries : list (string * buffer)) :
  forall w results w' tr out,
    loop env w entries results = (w', tr, out) ->
    no_failed_write tr ->
    exists steps added,
      out = Some (results ++ added)
      /\ tr = flat_map entry_events steps
      /\ map step_path steps = map (tempPathOf env) (slp_names entries)
      /\ map res_filename added = slp_names entries
      /\ Forall2 (reports env) added
                 (map (fun s => (step_path s, step_parsed s)) steps).
Proof.
  induction entries as [| [filename data] rest IH];
    intros w results w' tr out Hrun Hok; simpl in Hrun.
  - injection Hrun as <- <- <-. exists [], []. rewrite app_nil_r.
    repeat split; constructor.
  - unfold slp_names. simpl. fold (slp_names rest).
    destruct (endsWith filename ".slp") eqn:Eslp; simpl in Hrun.
    + destruct (writeFileSync env w (tempPathOf env filename) data)
        as [w1 [|]] eqn:Ew.
      * destruct (unlinkSync env w1 (tempPathOf env filename)) as [w2 ok] eqn:Eu.
        match type of Hrun with
        | context [loop env w2 rest ?r] =>
            destruct (loop env w2 rest r) as [[w3 tr'] out'] eqn:El
        end.
        injection Hrun as <- <- <-.
        destruct (IH _ _ _ _ _ El) as (steps & added & -> & -> & Hp & Hn & Hr).
        { intros p d Hin. apply (Hok p d). simpl. tauto. }
        exists ({| step_path := tempPathOf env filename; step_data := data;
                   step_parsed := parseSlippiReplay env w1 (tempPathOf env filename);
                   step_unlinked := ok |} :: steps).
        destruct (parseSlippiReplay env w1 (tempPathOf env filename))
          as [parsed |] eqn:Ep.
        -- exists (ResParsed filename parsed :: added).
           rewrite <- app_assoc. simpl.
           repeat split; try congruence.
           constructor; [| assumption]. split; reflexivity.
        -- exists (ResError filename "Failed to parse" :: added).
           rewrite <- app_assoc. simpl.
           repeat split; try congruence.
           constructor; [| assumption]. split; reflexivity.
      * injection Hrun as <- <- <-. exfalso.
        apply (Hok (tempPathOf env filename) data). now left.
    + eapply IH; eassumption.
Qed.

(** The run of the handler on a zip upload in which no write throws. *)
Lemma zip_handler_run (w : World) (req : Request) (file : UploadedFile)
      (unzipped : list (string * buffer)) :
  uploads_zip env w req file unzipped ->
  no_failed_write (snd (zip_handler env w req)) ->
  exists steps results ok,
    snd (zip_handler env w req)
    = [EvRead (filepath file) true; EvUnzip true]
        ++ flat_map entry_events steps
        ++ [EvUnlink (filepath file) ok; EvRespond 200 (Results results)]
    /\ map step_path steps = map (tempPathOf env) (slp_names unzipped)
    /\ map res_filename results = slp_names unzipped
    /\ Forall2 (reports env) results
               (map (fun s => (step_path s, step_parsed s)) steps).
Proof.
  intros (w' & zipBuffer & [Hpost [rest Hform]] & (n & Hn & Hzip) & Hread & Hunzip).
  unfold zip_handler. rewrite (post_eqb _ Hpost), Hform.
  assert (Hs : has_suffix (originalFilename file) ".zip" = true).
  { unfold has_suffix. rewrite Hn.
    destruct (String.eqb_spec n "") as [-> | _].
    - exfalso. revert Hzip. apply ends_in_nonempty. discriminate.
    - now apply endsWith_ends_in. }
  rewrite Hs, Hread, Hunzip. cbn [negb].
  destruct (loop env w' unzipped []) as [[w1 tr] out] eqn:El.
  intros Hok.
  assert (Htr : no_failed_write tr).
  { intros p d Hin. apply (Hok p d).
    destruct out as [results |].
    - destruct (unlinkSync env w1 (filepath file)); simpl.
      right. right. apply in_or_app. now left.
    - simpl. right. right. apply in_or_app. now left. }
  destruct (loop_run unzipped _ _ _ _ _ El Htr) as (steps & added & -> & -> & Hp & Hnames & Hr).
  destruct (unlinkSync env w1 (filepath file)) as [w2 ok].
  exists steps, added, ok. simpl. repeat split; assumption.
Qed.

(** [unlinkSync] may throw or not: the world, the results and the events,
    the outcome of the deletions apart, are the same. *)
Lemma loop_failure_blind (u : World -> string -> World * bool) :
  differs_in_failure env u ->
  forall entries w results,
    fst (fst (loop (with_unlink env u) w entries results))
    = fst (fst (loop env w entries results))
    /\ map forget_failure (snd (fst (loop (with_unlink env u) w entries results)))
       = map forget_failure (snd (fst (loop env w entries results)))
    /\ snd (loop (with_unlink env u) w entries results)
       = snd (loop env w entries results).
Proof.
  intros Hu. induction entries as [| [filename data] rest IH]; intros w results.
  - simpl. repeat split.
  - cbn [loop]. destruct (endsWith filename ".slp"); cbn [negb]; [| apply IH].
    change (tempPathOf (with_unlink env u) filename) with (tempPathOf env filename).
    change (parseSlippiReplay (with_unlink env u)) with (parseSlippiReplay env).
    change (writeFileSync (with_unlink env u)) with (writeFileSync env).
    change (unlinkSync (with_unlink env u)) with u.
    destruct (writeFileSync env w (tempPathOf env filename) data) as [w1 [|]];
      [| simpl; repeat split].
    pose proof (Hu w1 (tempPathOf env filename)) as Hw.
    destruct (u w1 (tempPathOf env filename)) as [w2' ok'].
    destruct (unlinkSync env w1 (tempPathOf env filename)) as [w2 ok].
    simpl in Hw. subst w2'.
    match goal with
    | |- context [loop env w2 rest ?r] =>
        specialize (IH w2 r);
        destruct (loop env w2 rest r) as [[w3 tr] out];
        destruct (loop (with_unlink env u) w2 rest r) as [[w3' tr'] out']
    end.
    simpl in *. destruct IH as (-> & -> & ->). repeat split.
Qed.

Lemma responses_forget (tr : list (Event Parsed)) :
  responses (map forget_failure tr) = responses tr.
Proof.
  induction tr as [| e t IH]; simpl; [reflexivity |].
  destruct e; simpl; now rewrite IH.
Qed.

Lemma zip_handler_failure_blind (u : World -> string -> World * bool) :
  differs_in_failure env u ->
  forall w req,
    responses (snd (zip_handler (with_unlink env u) w req))
    = responses (snd (zip_handler env w req)).
Proof.
  intros Hu w req.
  rewrite <- (responses_forget (snd (zip_handler env w req))).
  rewrite <- (responses_forget (snd (zip_handler (with_unlink env u) w req))).
  f_equal. unfold zip_handler.
  destruct (negb (String.eqb (method req) "POST")); [reflexivity |].
  change (formParse (with_unlink env u)) with (formParse env).
  destruct (formParse env options w req) as [w0 [| [[| file rest] |]]];
    try reflexivity.
  destruct (negb (has_suffix (originalFilename file) ".zip")); [reflexivity |].
  change (readFileSync (with_unlink env u)) with (readFileSync env).
  destruct (readFileSync env w0 (filepath file)) as [zipBuffer |]; [| reflexivity].
  change (unzipFile (with_unlink env u)) with (unzipFile env).
  destruct (unzipFile env zipBuffer) as [unzipped |]; [| reflexivity].
  destruct (loop_failure_blind u Hu unzipped w0 []) as (Hw & Htr & Hout).
  destruct (loop env w0 unzipped []) as [[w1 tr] out].
  destruct (loop (with_unlink env u) w0 unzipped []) as [[w1' tr'] out'].
  simpl in Hw, Htr, Hout. subst w1' out'.
  destruct out as [results |].
  - pose proof (Hu w1 (filepath file)) as Hz.
    change (unlinkSync (with_unlink env u)) with u.
    destruct (u w1 (filepath file)) as [wa oka].
    destruct (unlinkSync env w1 (filepath file)) as [wb okb].
    simpl. f_equal. f_equal. rewrite !map_app, Htr. reflexivity.
  - simpl. f_equal. f_equal. rewrite !map_app, Htr. reflexivity.
Qed.

End LoopFacts.

(** C1, as the claim states it, fails when a temporary file cannot be
    written: the archive below unpacks to one replay inside a folder, the
    write to [/tmp/tmp_dir/g.slp] throws because the folder does not exist,
    and the handler answers 500 instead of a list of results. *)
Lemma C1_unwritable_entry_aborts_batch :
  ~ batch_reports_when
      (MemPlatform.env (Some [("dir/g.slp"%string, [Byte.x01])]))
      (fun _ => True).
Proof.
  intros H.
  destruct (H MemPlatform.disk (MemPlatform.post (Some "a.zip"%string) [Byte.x01])
              {| Http.originalFilename := Some "a.zip"%string;
                 Http.filepath := "/tmp/upload_" |}
              [("dir/g.slp"%string, [Byte.x01])])
    as (results & Hresp & _).
  - eexists. exists [Byte.x01]. split; [| split; [| split]].
    + split; [reflexivity |]. exists []. reflexivity.
    + exists "a.zip"%string. split; [reflexivity |].
      apply endsWith_ends_in. reflexivity.
    + reflexivity.
    + reflexivity.
  - exact I.
  - vm_compute in Hresp. discriminate.
Qed.

(** C1, as amended: for every POST upload of a zip file whose archive is
    read and unpacked and during which no write of a temporary file throws,
    the handler answers 200 with a results array that has exactly one entry
    per archive entry whose name ends in [.slp], in archive order:
    [{filename, parsed}] when the parser succeeded on the temporary file of
    that entry and [{filename, error: "Failed to parse"}] when it threw;
    other archive entries contribute nothing, and a failing parse does not
    stop the loop. *)
Theorem C1_batch_results (World Parsed : Type) (env : Http.Env World Parsed) :
  batch_reports_when env no_failed_write.
Proof.
  intros w req file unzipped Hup Hok.
  destruct (zip_handler_run _ _ env w req file unzipped Hup Hok)
    as (steps & results & ok & -> & _ & Hnames & Hrep).
  exists results.
  rewrite !responses_app, !parser_calls_app, responses_steps, parser_calls_steps.
  simpl. rewrite app_nil_r. repeat split; assumption.
Qed.

(** C10, as the claim states it, fails when the loop is left by an
    exception: the second entry of the archive below cannot be written, the
    handler answers 500, and the uploaded zip's own temporary file is never
    unlinked. *)
Lemma C10_upload_left_behind :
  ~ batch_cleans_up_when
      (MemPlatform.env (Some [("g.slp"%string, [Byte.x01]);
                              ("nested/h.slp"%string, [Byte.x02])]))
      (fun _ => True).
Proof.
  intros H.
  destruct (H MemPlatform.disk (MemPlatform.post (Some "b.zip"%string) [Byte.x07])
              {| Http.originalFilename := Some "b.zip"%string;
                 Http.filepath := "/tmp/upload_" |}
              [("g.slp"%string, [Byte.x01]); ("nested/h.slp"%string, [Byte.x02])])
    as (steps & ok & status & body & _ & _ & _ & Hin).
  - eexists. exists [Byte.x07]. split; [| split; [| split]].
    + split; [reflexivity |]. exists []. reflexivity.
    + exists "b.zip"%string. split; [reflexivity |].
      apply endsWith_ends_in. reflexivity.
    + reflexivity.
    + reflexivity.
  - exact I.
  - vm_compute in Hin. destruct Hin as [Hin | []]. discriminate.
Qed.

(** C10, as amended: on every run of the zip handler in which the archive is
    read and unpacked and no write of a temporary file throws, the calls
    are, in order: for each [.slp] entry the write of its temporary file,
    the parse and the deletion of that file (whatever the parse returned),
    then the deletion of the uploaded zip's temporary file, then the
    response; and on every run the response is the same whether a deletion
    throws or not. *)
Theorem C10_cleanup (World Parsed : Type) (env : Http.Env World Parsed) :
  batch_cleans_up_when env no_failed_write
  /\ (forall u, differs_in_failure env u ->
      forall w req,
        Http.responses (snd (Http.zip_handler (with_unlink env u) w req))
        = Http.responses (snd (Http.zip_handler env w req))).
Proof.
  split.
  - intros w req file unzipped Hup Hok.
    destruct (zip_handler_run _ _ env w req file unzipped Hup Hok)
      as (steps & results & ok & Htr & Hp & _).
    exists steps, ok, 200%Z, (Http.Results results).
    split; [assumption |]. split; [assumption |].
    rewrite Htr, written_batch, unlink_attempts_batch.
    split; [intros p Hin |]; apply in_or_app; [now left | right; now left].
  - intros u Hu w req. now apply zip_handler_failure_blind.
Qed.

(** ** The aggregation components *)

Lemma forEach_invariant {A S : Type} (P : S -> Prop) (f : S -> A -> Throws S) :
  (forall s x s', P s -> f s x = Return s' -> P s') ->
  forall l s s', P s -> forEach f l s = Return s' -> P s'.
Proof.
  intros Hf. induction l as [| x t IH]; intros s s' Hs Hrun; simpl in Hrun.
  - now injection Hrun as <-.
  - destruct (f s x) as [s1 |] eqn:E; simpl in Hrun; [| discriminate].
    eapply IH; [| eassumption]. eapply Hf; eassumption.
Qed.

Section DictionaryFacts.
Variables K V : Type.
Variable eqb : K -> K -> bool.
Variable P : V -> Prop.

Lemma set_all_values (m : list (K * V)) (k : K) (v : V) :
  all_values P m -> P v -> all_values P (set eqb m k v).
Proof.
  unfold all_values. induction m as [| [k' v'] t IH]; simpl; intros Hm Hv.
  - now constructor.
  - inversion Hm; subst. destruct (eqb k' k); simpl; constructor; auto.
Qed.

Lemma get_all_values (m : list (K * V)) (k : K) (v : V) :
  all_values P m -> get eqb m k = Some v -> P v.
Proof.
  unfold all_values. induction m as [| [k' v'] t IH]; simpl; intros Hm Hg.
  - discriminate.
  - inversion Hm; subst. destruct (eqb k' k); [now injection Hg as <- | auto].
Qed.

Lemma alter_all_values (f : V -> V) (m : list (K * V)) (k : K) :
  (forall v, P v -> P (f v)) -> all_values P m -> all_values P (alter eqb f m k).
Proof.
  intros Hf Hm. unfold alter. destruct (get eqb m k) as [v |] eqn:E; [| assumption].
  apply set_all_values; [assumption |]. apply Hf. eapply get_all_values; eassumption.
Qed.
End DictionaryFacts.




(** The rate of [wins] games out of [totalGames], as the doubles have it:
    the quotient rounds to a number of [[0, 1]] within [2^-53] of it, and
    its product by 100 to a number of [[0, 100]] within [2^-46] of the
    product. *)
Lemma rate_rounds (wins totalGames : number) :
  (0 <= wins)%Qc -> (wins <= totalGames)%Qc -> (0 < totalGames)%Qc ->
  exists r,
    dmul (ddiv (Num wins) (Num totalGames)) (Num (ofZ 100)) = Num r
    /\ (0 <= r)%Qc /\ (r <= ofZ 100)%Qc
    /\ near (/ ofZ (2 ^ 45)) r (ofZ 100 * wins / totalGames)%Qc.
Proof.
  intros Hw Hwt Ht.
  assert (Hne : totalGames <> 0%Qc).
  { intros E. symmetry in E. revert E. now apply Qclt_not_eq. }
  pose proof (Qclt_le_weak _ _ (Qcinv_pos _ Ht)) as Hinv.
  assert (H0 : (0 <= wins / totalGames)%Qc).
  { unfold Qcdiv. rewrite <- (Qcmult_0_l (/ totalGames)).
    now apply Qcmult_le_compat_r. }
  assert (H1 : (wins / totalGames <= ofZ 1)%Qc).
  { change (ofZ 1) with 1%Qc. unfold Qcdiv.
    rewrite <- (Qcmult_inv_r totalGames Hne). now apply Qcmult_le_compat_r. }
  assert (H100 : (0 <= ofZ 100)%Qc) by (apply ofZ_le; lia).
  cbn [ddiv]. rewrite (is_zero_pos _ Ht).
  destruct (round64_spec (wins / totalGames) 1 0 ltac:(lia) ltac:(cbn; lia) H0 H1)
    as (r1 & -> & Hr0 & Hr1 & Hlo1 & Hhi1).
  cbn [dmul].
  assert (Hq0 : (0 <= r1 * ofZ 100)%Qc).
  { rewrite <- (Qcmult_0_l (ofZ 100)). now apply Qcmult_le_compat_r. }
  assert (Hq1 : (r1 * ofZ 100 <= ofZ 100)%Qc).
  { rewrite <- (Qcmult_1_l (ofZ 100)) at 2. now apply Qcmult_le_compat_r. }
  destruct (round64_spec (r1 * ofZ 100) 100 7 ltac:(lia) ltac:(cbn; lia) Hq0 Hq1)
    as (r2 & -> & Hr20 & Hr21 & Hlo2 & Hhi2).
  exists r2. split; [reflexivity |]. split; [exact Hr20 |].
  split; [exact Hr21 |].
  change (53 - 0)%Z with 53%Z in *. change (53 - 7)%Z with 46%Z in *.
  set (a := (/ ofZ (2 ^ 53))%Qc) in *. set (b := (/ ofZ (2 ^ 46))%Qc) in *.
  assert (Hc : (a * ofZ 100 + b <= / ofZ (2 ^ 45))%Qc)
    by (vm_compute; discriminate).
  unfold near. split.
  - apply Qcle_trans with ((wins / totalGames - a) * ofZ 100 - b)%Qc.
    + replace ((wins / totalGames - a) * ofZ 100 - b)%Qc
        with (ofZ 100 * wins / totalGames + - (a * ofZ 100 + b))%Qc
        by (field; exact Hne).
      apply Qcplus_le_compat; [apply Qcle_refl |].
      now apply Qcopp_le_compat.
    + apply Qcle_trans with (r1 * ofZ 100 - b)%Qc; [| exact Hlo2].
      apply Qcplus_le_compat; [| apply Qcle_refl].
      now apply Qcmult_le_compat_r.
  - apply Qcle_trans with ((wins / totalGames + a) * ofZ 100 + b)%Qc.
    + apply Qcle_trans with (r1 * ofZ 100 + b)%Qc; [exact Hhi2 |].
      apply Qcplus_le_compat; [| apply Qcle_refl].
      now apply Qcmult_le_compat_r.
    + replace ((wins / totalGames + a) * ofZ 100 + b)%Qc
        with (ofZ 100 * wins / totalGames + (a * ofZ 100 + b))%Qc
        by (field; exact Hne).
      apply Qcplus_le_compat; [apply Qcle_refl | exact Hc].
Qed.


(** *** Character Breakdown *)

Section CharacterBreakdownFacts.
Import CharacterBreakdown.


Lemma record_game_balanced (isWinner : bool) (playerStats : Overall.t) (e : Entry.t) :
  balanced e -> balanced (record_game isWinner playerStats e).
Proof.
  unfold balanced, record_game. intros (Hw & Hl & H).
  cbn [Entry.wins Entry.losses Entry.totalGames].
  destruct isWinner; (split; [| split]); try assumption;
    try (apply Qcplus_nonneg; [assumption | apply Qc_0_le_1]);
    rewrite <- H; ring.
Qed.

Section Invariant.
Variable P : Entry.t -> Prop.
Hypothesis Hfresh : forall c, P (fresh c).
Hypothesis Hrecord :
  forall isWinner playerStats e, P e -> P (record_game isWinner playerStats e).



End Invariant.






End CharacterBreakdownFacts.

(** *** Matchup Analysis *)

Section MatchupAnalysisFacts.
Import MatchupAnalysis.

Lemma record_matchup_balanced (isWinner : bool) (p o : Overall.t) (e : Entry.t) :
  balanced_matchup e -> balanced_matchup (record_game isWinner p o e).
Proof.
  unfold balanced_matchup, record_game. intros (Hw & Hl & H).
  cbn [Entry.wins Entry.losses Entry.totalGames].
  destruct isWinner; (split; [| split]); try assumption;
    try (apply Qcplus_nonneg; [assumption | apply Qc_0_le_1]);
    rewrite <- H; ring.
Qed.


Section MatchupInvariant.
Variable P : Entry.t -> Prop.
Hypothesis Hfresh : forall c o, P (fresh c o).
Hypothesis Hrecord :
  forall isWinner p o e, P e -> P (record_game isWinner p o e).



End MatchupInvariant.





End MatchupAnalysisFacts.


(** *** The order of the rows *)







(** *** The winner of a game *)

(** [stocks[stocks.length - 1]] is in bounds exactly when the array is not
    empty, and is then its last element. *)
Lemma last_element_spec {A : Type} (l : list A) :
  match l with
  | [] => last_element l = None
  | _ :: _ => exists init x, l = init ++ [x] /\ last_element l = Some x
  end.
Proof.
  destruct l as [| a t]; [reflexivity |].
  destruct (exists_last (l := a :: t)) as (init & x & E); [discriminate |].
  exists init, x. split; [assumption |].
  rewrite E. unfold last_element, at_index.
  rewrite length_app. simpl.
  destruct (Z.ltb_spec (Z.of_nat (length init + 1) - 1) 0); [lia |].
  replace (Z.to_nat (Z.of_nat (length init + 1) - 1)) with (length init) by lia.
  rewrite nth_error_app2, Nat.sub_diag; [reflexivity | lia].
Qed.

(** With a stock recorded, the Character Breakdown reaches no error. *)
Lemma character_statsMap_total (selectedPlayer : option string)
      (replayDataList : list ReplayData) :
  Forall (fun replay => Stats.stocks (stats replay) <> []) replayDataList ->
  exists m, CharacterBreakdown.statsMap selectedPlayer replayDataList = Return m.
Proof.
  unfold CharacterBreakdown.statsMap. generalize (@nil (Z * CharacterBreakdown.Entry.t)).
  induction replayDataList as [| replay rest IH]; intros m0 Hall; simpl.
  - now exists m0.
  - inversion Hall as [| ? ? Hne Hrest]; subst.
    assert (Hplayers : forall l m, exists m',
               forEach (CharacterBreakdown.visit_player replay) l m = Return m').
    { induction l as [| i l IHl]; intros m; simpl; [now exists m |].
      assert (Hv : exists m1, CharacterBreakdown.visit_player replay m i = Return m1).
      { unfold CharacterBreakdown.visit_player.
        destruct (i =? -1)%Z; [now eexists |].
        destruct (find _ (Settings.players (settings replay))); [| now eexists].
        destruct (find _ (Stats.overall (stats replay))); [| now eexists].
        pose proof (last_element_spec (Stats.stocks (stats replay))) as Hl.
        destruct (Stats.stocks (stats replay)); [congruence |].
        destruct Hl as (init & x & _ & ->). now eexists. }
      destruct Hv as [m1 ->]. simpl. apply IHl. }
    assert (Hr : exists m1,
               CharacterBreakdown.visit_replay selectedPlayer m0 replay = Return m1).
    { unfold CharacterBreakdown.visit_replay.
      destruct selectedPlayer; [| apply Hplayers].
      destruct (negb _); [apply Hplayers | now eexists]. }
    destruct Hr as [m1 ->]. simpl. now apply IH.
Qed.

(** C9. The components disagree on the winner.  In the game below the last
    stock belongs to player 1.  The Character Breakdown and the Matchup
    Analysis count the game as a win of player 0 (AAA#1), the player whose
    index differs from that of the last stock; ReplayDataSummary takes the
    owner of the last stock, player 1, as the winner and plots the game
    among the losses of AAA#1. *)
Theorem C9_components_disagree_on_winner :
  let g := Samples.game 1 100 60 in
  option_map Stock.playerIndex (last_element (Stats.stocks (stats g))) = Some 1%Z
  /\ match CharacterBreakdown.sortedStats Samples.lib (Some "AAA#1"%string)
             CharacterBreakdown.ColTotalGames desc [g] with
     | Return [row] => CharacterBreakdown.wins row = ofZ 1
                       /\ CharacterBreakdown.losses row = ofZ 0
     | _ => False
     end
  /\ match MatchupAnalysis.sortedStats Samples.lib (Some "AAA#1"%string) None
             MatchupAnalysis.ColTotalGames desc [g] with
     | Return [row] => MatchupAnalysis.wins row = ofZ 1
                       /\ MatchupAnalysis.losses row = ofZ 0
     | _ => False
     end
  /\ match ReplayDataSummary.winner g with
     | Return (Some p) => Overall.playerIndex p = 1%Z
     | _ => False
     end
  /\ match ReplayDataSummary.chartData (Some "AAA#1"%string)
             ReplayDataSummary.totalDamage ReplayDataSummary.damagePerOpening
             [g] with
     | Return (winData, lossData) => length winData = 0%nat
                                     /\ length lossData = 1%nat
     | Throw => False
     end.
Proof.
  vm_compute. repeat split; apply Qc_is_canon; reflexivity.
Qed.

(* ================================================================== *)
(** * The properties on concrete runs *)

Ltac refute_membership H :=
  vm_compute in H;
  repeat (destruct H as [H | H]; [discriminate H |]); contradiction.

Lemma sample_collation : consistent_collation Samples.lib.
Proof.
  intros a b. unfold Samples.lib. cbn [localeCompare].
  rewrite (String.compare_antisym b a).
  destruct (String.compare a b); cbn [CompOpp];
    first [left; now vm_compute | right; now vm_compute].
Qed.

Lemma sample_platform_enforces_maxFileSize (archive : option (list (string * Http.buffer))) :
  enforces_maxFileSize (MemPlatform.env archive).
Proof.
  intros opts w req (p & Hin & Hlt). cbn [MemPlatform.env Http.formParse].
  unfold MemPlatform.parse_form.
  replace (existsb _ (Http.parts req)) with true; [reflexivity |].
  symmetry. apply existsb_exists. exists p. split; [assumption |].
  now apply Z.ltb_lt.
Qed.

(** C5 (as stated). Of the doubles 0.1 and 0.2, the average and the
    median are both 0.15000000000000002: neither is their mean. *)
Lemma C5_mean_is_rounded :
  let a := [Samples.tenth; Samples.fifth] in
  round64 Samples.tenth = Num Samples.tenth
  /\ round64 Samples.fifth = Num Samples.fifth
  /\ ReplayDataSummary.calculateAverage a <> Num (ReplayDataSummary.mean a)
  /\ snd (ReplayDataSummary.calculateMedian [a] 0%nat)
     <> Some (Num (ReplayDataSummary.mean a)).
Proof.
  cbv zeta. split; [now vm_compute | split; [now vm_compute |]].
  split; intros H; vm_compute in H; discriminate.
Qed.


(** An upload named [g.txt] is answered 400 by the single-replay handler,
    one named [g.slp] by the zip handler, and the parser is not called. *)
Lemma C2_upload_validation_witness :
  (Http.responses
     (snd (Http.handler (MemPlatform.env None) MemPlatform.disk
                        (MemPlatform.post (Some "g.txt"%string) [Byte.x01])))
   = [(400%Z, Http.Message "Only .slp files are accepted")]
   /\ Http.parser_calls
        (snd (Http.handler (MemPlatform.env None) MemPlatform.disk
                           (MemPlatform.post (Some "g.txt"%string) [Byte.x01])))
      = [])
  /\ (Http.responses
        (snd (Http.zip_handler (MemPlatform.env None) MemPlatform.disk
                               (MemPlatform.post (Some "g.slp"%string) [Byte.x01])))
      = [(400%Z, Http.Message "Only .zip files are accepted")]
      /\ Http.parser_calls
           (snd (Http.zip_handler (MemPlatform.env None) MemPlatform.disk
                                  (MemPlatform.post (Some "g.slp"%string) [Byte.x01])))
         = []).
Proof.
  destruct (C2_upload_validation _ _ (MemPlatform.env None)) as (Hslp & Hzip & _).
  split.
  - apply (Hslp MemPlatform.disk (MemPlatform.post (Some "g.txt"%string) [Byte.x01])
                {| Http.originalFilename := Some "g.txt"%string;
                   Http.filepath := "/tmp/upload_" |}
                (fst (MemPlatform.parse_form Http.options MemPlatform.disk
                        (MemPlatform.post (Some "g.txt"%string) [Byte.x01])))).
    + split; [reflexivity |]. exists []. reflexivity.
    + intros E. apply endsWith_ends_in in E. discriminate E.
  - apply (Hzip MemPlatform.disk (MemPlatform.post (Some "g.slp"%string) [Byte.x01])
                {| Http.originalFilename := Some "g.slp"%string;
                   Http.filepath := "/tmp/upload_" |}
                (fst (MemPlatform.parse_form Http.options MemPlatform.disk
                        (MemPlatform.post (Some "g.slp"%string) [Byte.x01])))).
    + split; [reflexivity |]. exists []. reflexivity.
    + intros E. apply endsWith_ends_in in E. discriminate E.
Defined.

(** Dropping 101 replay files on the picker with [MAX_FILES] selects the
    first 100 of them. *)
Lemma C3_max_files_cap_witness :
  FileUploadMax.selectedFiles
    (fst (FileUploadMax.handleDrop
            FileUploadMax.initial
            (Some (repeat {| name := "a.slp"; size := 1 |} 101))))
  = firstn 100 (repeat {| name := "a.slp"; size := 1 |} 101).
Proof.
  destruct C3_max_files_cap as (_ & _ & H).
  destruct (H FileUploadMax.initial (repeat {| name := "a.slp"; size := 1 |} 101))
    as [Hdrop _].
  - vm_compute. discriminate.
  - vm_compute. lia.
  - exact Hdrop.
Defined.

(** C4 (as stated). With the character of AAA#1, who wins two of the three
    sample games, the row's winRate is 66.66666666666666, which is not
    100 * 2 / 3. *)
Lemma C4_win_rate_is_rounded :
  exists rows row,
    CharacterBreakdown.sortedStats Samples.lib (Some "AAA#1"%string)
      CharacterBreakdown.ColTotalGames desc Samples.games = Return rows
    /\ In row rows
    /\ CharacterBreakdown.wins row = ofZ 2
    /\ CharacterBreakdown.totalGames row = ofZ 3
    /\ ~ exact_win_rate (CharacterBreakdown.winRate row)
                        (CharacterBreakdown.wins row)
                        (CharacterBreakdown.totalGames row).
Proof.
  eexists. eexists. split; [vm_compute; reflexivity |].
  split; [left; reflexivity |].
  split; [reflexivity |]. split; [reflexivity |].
  intros [H _]. cbn [CharacterBreakdown.winRate CharacterBreakdown.wins
                     CharacterBreakdown.totalGames] in H.
  assert (Hpos : (0 < ofZ 3)%Qc) by reflexivity.
  specialize (H Hpos). vm_compute in H. discriminate H.
Qed.


(** The sample platform refuses a file of 10485761 bytes, and both
    handlers answer 500 "Error parsing form data". *)
Lemma C6_form_cap_witness :
  enforces_maxFileSize (MemPlatform.env None)
  /\ answers_form_error
       (MemPlatform.env None) MemPlatform.disk
       (MemPlatform.post (Some "big.slp"%string)
                         (repeat Byte.x00 (Z.to_nat 10485761))).
Proof.
  split; [apply sample_platform_enforces_maxFileSize |].
  destruct (C6_form_cap _ _ (MemPlatform.env None)) as (_ & _ & H).
  apply H.
  - apply sample_platform_enforces_maxFileSize.
  - reflexivity.
  - eexists. split; [left; reflexivity |].
    cbn [Http.content]. rewrite repeat_length, Z2Nat.id; lia.
Defined.

(** The sample directory holds a.slp, notes.txt and b.slp: the answer
    lists a.slp and b.slp. *)
Lemma C7_sample_listing_witness :
  Http.responses (snd (Http.sample_handler (MemPlatform.env None) MemPlatform.disk))
  = [(200%Z, Http.Files ["a.slp"; "b.slp"]%string)].
Proof.
  pose proof (C7_sample_listing _ _ (MemPlatform.env None) MemPlatform.disk) as H.
  cbv zeta in H.
  change (Http.readdir (MemPlatform.env None) MemPlatform.disk
            (Http.path_join (MemPlatform.env None)
               [Http.cwd (MemPlatform.env None); "public"; "assets";
                "slp-demo-data"]%string))
    with (Some ["a.slp"; "notes.txt"; "b.slp"]%string) in H.
  destruct H as (listed & Hresp & _ & Hlisted).
  rewrite Hresp, Hlisted. reflexivity.
Defined.

(** C8 (as stated). Two games in which both players deal a damage of
    [2^1023] leave the matchup with infinite totals and [NaN] for its
    damageRatio: sorted by that column, the row stands next to the row of
    another matchup, in no order with it. *)
Lemma C8_nan_is_not_ordered :
  exists rows,
    MatchupAnalysis.sortedStats Samples.lib (Some "AAA#1"%string) None
      MatchupAnalysis.ColDamageRatio asc Samples.huge_games = Return rows
    /\ consistent_collation Samples.lib
    /\ ~ adjacent_in_order Samples.lib asc
          (fun row => MatchupAnalysis.cell row MatchupAnalysis.ColDamageRatio)
          rows.
Proof.
  eexists. split; [vm_compute; reflexivity |].
  split; [exact sample_collation |].
  intros H. pose proof (H 0%nat _ _ eq_refl eq_refl) as H0.
  vm_compute in H0. exact H0.
Qed.


(** An archive with two replays, one of them empty, and a text file. *)
Lemma C1_batch_results_witness :
  batch_answer
    (MemPlatform.env (Some [("g.slp"%string, [Byte.x01]);
                            ("readme.txt"%string, [Byte.x02]);
                            ("empty.slp"%string, [])]))
    [("g.slp"%string, [Byte.x01]); ("readme.txt"%string, [Byte.x02]);
     ("empty.slp"%string, [])]
    (snd (Http.zip_handler
            (MemPlatform.env (Some [("g.slp"%string, [Byte.x01]);
                                    ("readme.txt"%string, [Byte.x02]);
                                    ("empty.slp"%string, [])]))
            MemPlatform.disk
            (MemPlatform.post (Some "a.zip"%string) [Byte.x01]))).
Proof.
  apply (C1_batch_results _ _ _ MemPlatform.disk
           (MemPlatform.post (Some "a.zip"%string) [Byte.x01])
           {| Http.originalFilename := Some "a.zip"%string;
              Http.filepath := "/tmp/upload_" |}).
  - eexists. exists [Byte.x01]. split; [| split; [| split]].
    + split; [reflexivity |]. exists []. reflexivity.
    + exists "a.zip"%string. split; [reflexivity |].
      apply endsWith_ends_in. reflexivity.
    + reflexivity.
    + reflexivity.
  - intros p d Hin. refute_membership Hin.
Defined.

(** The same archive: every temporary file is unlinked before the
    response, and the response is the same when every deletion throws. *)
Lemma C10_cleanup_witness :
  cleans_up
    (MemPlatform.env (Some [("g.slp"%string, [Byte.x01]);
                            ("readme.txt"%string, [Byte.x02]);
                            ("empty.slp"%string, [])]))
    {| Http.originalFilename := Some "a.zip"%string;
       Http.filepath := "/tmp/upload_" |}
    [("g.slp"%string, [Byte.x01]); ("readme.txt"%string, [Byte.x02]);
     ("empty.slp"%string, [])]
    (snd (Http.zip_handler
            (MemPlatform.env (Some [("g.slp"%string, [Byte.x01]);
                                    ("readme.txt"%string, [Byte.x02]);
                                    ("empty.slp"%string, [])]))
            MemPlatform.disk
            (MemPlatform.post (Some "a.zip"%string) [Byte.x01])))
  /\ Http.responses
       (snd (Http.zip_handler
               (with_unlink
                  (MemPlatform.env (Some [("g.slp"%string, [Byte.x01]);
                                          ("readme.txt"%string, [Byte.x02]);
                                          ("empty.slp"%string, [])]))
                  (fun w p => (fst (MemPlatform.unlink w p), false)))
               MemPlatform.disk
               (MemPlatform.post (Some "a.zip"%string) [Byte.x01])))
     = [(200%Z, Http.Results [Http.ResParsed "g.slp" 1%nat;
                              Http.ResError "empty.slp" "Failed to parse"])].
Proof.
  destruct (C10_cleanup _ _
              (MemPlatform.env (Some [("g.slp"%string, [Byte.x01]);
                                      ("readme.txt"%string, [Byte.x02]);
                                      ("empty.slp"%string, [])])))
    as [Hclean Hblind].
  split.
  - apply (Hclean MemPlatform.disk
                  (MemPlatform.post (Some "a.zip"%string) [Byte.x01])).
    + eexists. exists [Byte.x01]. split; [| split; [| split]].
      * split; [reflexivity |]. exists []. reflexivity.
      * exists "a.zip"%string. split; [reflexivity |].
        apply endsWith_ends_in. reflexivity.
      * reflexivity.
      * reflexivity.
    + intros p d Hin. refute_membership Hin.
  - rewrite Hblind; [reflexivity |]. intros w p. reflexivity.
Defined.

(** The access [stocks[stocks.length - 1]] is in bounds exactly when a
    stock is recorded: then [winnerIndex] is the index of the last stock,
    otherwise reading [playerIndex] throws. *)
Theorem last_stock_access (replay : ReplayData) :
  (Stats.stocks (stats replay) <> [] ->
   exists init s,
     Stats.stocks (stats replay) = init ++ [s]
     /\ last_element (Stats.stocks (stats replay)) = Some s
     /\ ReplayDataSummary.winnerIndex replay = Return (Stock.playerIndex s))
  /\ (Stats.stocks (stats replay) = [] ->
      last_element (Stats.stocks (stats replay)) = None
      /\ ReplayDataSummary.winnerIndex replay = Throw).
Proof.
  unfold ReplayDataSummary.winnerIndex.
  pose proof (last_element_spec (Stats.stocks (stats replay))) as H.
  destruct (Stats.stocks (stats replay)) as [| a t].
  - split; [congruence |]. intros _. rewrite H. split; reflexivity.
  - split; [| discriminate]. intros _.
    destruct H as (init & s & E & Hl). exists init, s. rewrite Hl.
    repeat split. exact E.
Qed.

(** [forEach] stops at the first element whose callback throws. *)
Lemma forEach_throws {A S : Type} (f : S -> A -> Throws S) (x : A) (l : list A) :
  In x l -> (forall s, f s x = Throw) -> forall s, forEach f l s = Throw.
Proof.
  intros Hin Hx. induction l as [| y t IH]; intros s; [destruct Hin |].
  cbn [forEach]. destruct Hin as [-> | Hin]; [now rewrite Hx |].
  destruct (f s y) as [s1 |]; cbn [bind]; [now apply IH | reflexivity].
Qed.

Lemma visit_player_throws (replay : ReplayData) (i : Z) :
  i <> (-1)%Z ->
  find (fun p => (SettingsPlayer.playerIndex p =? i)%Z)
       (Settings.players (settings replay)) <> None ->
  find (fun p => (Overall.playerIndex p =? i)%Z)
       (Stats.overall (stats replay)) <> None ->
  Stats.stocks (stats replay) = [] ->
  forall m, CharacterBreakdown.visit_player replay m i = Throw.
Proof.
  intros Hi Hp Hs Hst m. unfold CharacterBreakdown.visit_player.
  destruct (Z.eqb_spec i (-1)); [contradiction |].
  destruct (find _ (Settings.players (settings replay))); [| contradiction].
  destruct (find _ (Stats.overall (stats replay))); [| contradiction].
  now rewrite Hst.
Qed.

(** When every replay records a stock the reduction of the Character
    Breakdown runs to its end.  A replay without stocks for which the
    winner determination is reached (a visited player has a character and
    statistics) makes the whole reduction throw, wherever it is in the
    list. *)
Theorem character_breakdown_runs (selectedPlayer : option string)
        (replayDataList : list ReplayData) :
  (Forall (fun replay => Stats.stocks (stats replay) <> []) replayDataList ->
   exists m, CharacterBreakdown.statsMap selectedPlayer replayDataList = Return m)
  /\ (forall replay i,
         In replay replayDataList ->
         Stats.stocks (stats replay) = [] ->
         reaches_winner selectedPlayer replay i ->
         CharacterBreakdown.statsMap selectedPlayer replayDataList = Throw).
Proof.
  split; [apply character_statsMap_total |].
  intros replay i Hin Hst (Hi & Hvisited & Hp & Hs).
  unfold CharacterBreakdown.statsMap.
  apply (forEach_throws _ replay); [exact Hin |].
  intros m. unfold CharacterBreakdown.visit_replay.
  pose proof (visit_player_throws replay i Hi Hp Hs Hst) as Hthrow.
  destruct (truthy selectedPlayer) eqn:Et.
  - destruct selectedPlayer as [s |]; [| discriminate].
    rewrite Hvisited. destruct (Z.eqb_spec i (-1)); [contradiction |].
    cbn [negb forEach]. now rewrite Hthrow.
  - destruct Hvisited as [-> Hvisited].
    now apply (forEach_throws _ i).
Qed.

(** The sample games all record stocks; the game without stocks makes the
    reduction throw. *)
Lemma character_breakdown_runs_witness :
  (exists m, CharacterBreakdown.statsMap None Samples.games = Return m)
  /\ CharacterBreakdown.statsMap None [Samples.game_without_stocks] = Throw.
Proof.
  split.
  - apply (character_breakdown_runs None Samples.games).
    repeat constructor; discriminate.
  - apply (proj2 (character_breakdown_runs None [Samples.game_without_stocks])
                 Samples.game_without_stocks 0%Z);
      [now left | reflexivity |].
    repeat split; try discriminate. now left.
Defined.

(* ================================================================== *)
(** * Further properties of the code *)

(** ** The file picker: what is selected and what is submitted *)

Lemma validFiles_all_slp (fs : list File) : all_slp (validFiles fs).
Proof.
  unfold all_slp, validFiles. apply Forall_forall. intros f Hin.
  apply filter_In in Hin. now apply endsWith_ends_in.
Qed.

Lemma all_slp_app (a b : list File) : all_slp a -> all_slp b -> all_slp (a ++ b).
Proof. unfold all_slp. intros. apply Forall_app. now split. Qed.

Lemma all_slp_firstn (n : nat) (l : list File) : all_slp l -> all_slp (firstn n l).
Proof.
  unfold all_slp. rewrite !Forall_forall. intros H f Hin.
  apply H. rewrite <- (firstn_skipn n l). apply in_or_app. now left.
Qed.

Ltac only_upload Hst :=
  let fs := fresh "fs" in
  let H := fresh "H" in
  intros fs H; simpl in H;
  repeat (destruct H as [H | H];
          [first [discriminate H
                 | injection H as <-; split; [| exact Hst];
                   let E := fresh "E" in
                   intros E; rewrite E in *; simpl in *; discriminate] |]);
  contradiction.

Lemma FileUpload_step_replays (st : FileUpload.State) (e : PickerEvent) :
  all_slp (FileUpload.selectedFiles st) ->
  all_slp (FileUpload.selectedFiles (fst (FileUpload.step st e)))
  /\ submits_replays (snd (FileUpload.step st e)).
Proof.
  intros Hst. pose proof validFiles_all_slp as Hv. unfold submits_replays.
  destruct e as [[fs |] | [fs |] | |];
    unfold FileUpload.step, FileUpload.handleDrop, FileUpload.handleFileChange,
      FileUpload.handleSubmit;
    cbn [fst snd FileUpload.selectedFiles FileUpload.dragActive].
  - destruct (0 <? length (validFiles fs))%nat;
      cbn [fst snd FileUpload.selectedFiles FileUpload.dragActive];
      (split; [first [now apply all_slp_app | assumption] | only_upload Hst]).
  - split; [assumption | only_upload Hst].
  - destruct (0 <? length (validFiles fs))%nat;
      cbn [fst snd FileUpload.selectedFiles FileUpload.dragActive];
      (split; [first [now apply all_slp_app | assumption] | only_upload Hst]).
  - split; [assumption | only_upload Hst].
  - destruct (0 <? length (FileUpload.selectedFiles st))%nat eqn:E;
      cbn [fst snd FileUpload.selectedFiles FileUpload.dragActive];
      (split; [assumption | only_upload Hst]).
  - split; [assumption | only_upload Hst].
Qed.

Lemma FileUploadMax_step_replays (st : FileUploadMax.State) (e : PickerEvent) :
  all_slp (FileUploadMax.selectedFiles st) ->
  all_slp (FileUploadMax.selectedFiles (fst (FileUploadMax.step st e)))
  /\ submits_replays (snd (FileUploadMax.step st e)).
Proof.
  intros Hst. pose proof validFiles_all_slp as Hv. unfold submits_replays.
  destruct e as [[fs |] | [fs |] | |];
    unfold FileUploadMax.step, FileUploadMax.handleDrop,
      FileUploadMax.handleFileChange, FileUploadMax.handleSubmit,
      FileUploadMax.slice0;
    cbn [fst snd FileUploadMax.selectedFiles FileUploadMax.dragActive].
  - destruct (0 <? length (validFiles fs))%nat;
      [destruct (FileUploadMax.MAX_FILES <? _)%nat |];
      cbn [fst snd FileUploadMax.selectedFiles FileUploadMax.dragActive];
      (split; [first [apply all_slp_firstn; now apply all_slp_app
                     | now apply all_slp_app | assumption]
              | only_upload Hst]).
  - split; [assumption | only_upload Hst].
  - destruct (0 <? length (validFiles fs))%nat;
      [destruct (FileUploadMax.MAX_FILES <? _)%nat |];
      cbn [fst snd FileUploadMax.selectedFiles FileUploadMax.dragActive];
      (split; [first [apply all_slp_firstn; now apply all_slp_app | assumption]
              | only_upload Hst]).
  - split; [assumption | only_upload Hst].
  - destruct (0 <? length (FileUploadMax.selectedFiles st))%nat eqn:E;
      cbn [fst snd FileUploadMax.selectedFiles FileUploadMax.dragActive];
      (split; [assumption | only_upload Hst]).
  - split; [constructor | only_upload Hst].
Qed.

(** Whatever is dropped, selected, submitted or cleared, in both versions
    of the picker every selected file has a name that ends in [.slp], and
    the page's callback only ever receives a non-empty list of such
    files. *)
Theorem picker_selects_and_submits_replays (es : list PickerEvent) :
  (all_slp (FileUpload.selectedFiles (fst (FileUpload.run FileUpload.initial es)))
   /\ submits_replays (snd (FileUpload.run FileUpload.initial es)))
  /\ (all_slp (FileUploadMax.selectedFiles
                 (fst (FileUploadMax.run FileUploadMax.initial es)))
      /\ submits_replays (snd (FileUploadMax.run FileUploadMax.initial es))).
Proof.
  split.
  - assert (H : forall st, all_slp (FileUpload.selectedFiles st) ->
                all_slp (FileUpload.selectedFiles (fst (FileUpload.run st es)))
                /\ submits_replays (snd (FileUpload.run st es))).
    { induction es as [| e rest IH]; intros st Hst; simpl.
      - split; [assumption | intros ? []].
      - destruct (FileUpload_step_replays st e Hst) as [H1 H2].
        destruct (FileUpload.step st e) as [st1 out1]; simpl in *.
        destruct (IH st1 H1) as [H3 H4].
        destruct (FileUpload.run st1 rest) as [st2 out2]; simpl in *.
        split; [assumption |]. intros fs Hin. apply in_app_or in Hin.
        destruct Hin; [now apply H2 | now apply H4]. }
    apply H. constructor.
  - assert (H : forall st, all_slp (FileUploadMax.selectedFiles st) ->
                all_slp (FileUploadMax.selectedFiles (fst (FileUploadMax.run st es)))
                /\ submits_replays (snd (FileUploadMax.run st es))).
    { induction es as [| e rest IH]; intros st Hst; simpl.
      - split; [assumption | intros ? []].
      - destruct (FileUploadMax_step_replays st e Hst) as [H1 H2].
        destruct (FileUploadMax.step st e) as [st1 out1]; simpl in *.
        destruct (IH st1 H1) as [H3 H4].
        destruct (FileUploadMax.run st1 rest) as [st2 out2]; simpl in *.
        split; [assumption |]. intros fs Hin. apply in_app_or in Hin.
        destruct Hin; [now apply H2 | now apply H4]. }
    apply H. constructor.
Qed.

(** In the picker with [MAX_FILES], an event other than "Clear Selection"
    never drops or reorders a file that is already selected: the new
    selection is the old one followed by further files, and by none once
    100 files are selected. *)
Theorem picker_keeps_selected_files (st : FileUploadMax.State) (e : PickerEvent) :
  (length (FileUploadMax.selectedFiles st) <= FileUploadMax.MAX_FILES)%nat ->
  e <> ClearSelection ->
  exists added,
    FileUploadMax.selectedFiles (fst (FileUploadMax.step st e))
    = FileUploadMax.selectedFiles st ++ added
    /\ (length (FileUploadMax.selectedFiles st) = FileUploadMax.MAX_FILES ->
        added = []).
Proof.
  intros Hlen He.
  assert (Hcut : forall more,
             firstn FileUploadMax.MAX_FILES (FileUploadMax.selectedFiles st ++ more)
             = FileUploadMax.selectedFiles st
                 ++ firstn (FileUploadMax.MAX_FILES
                            - length (FileUploadMax.selectedFiles st)) more).
  { intros more. rewrite firstn_app. f_equal. now apply firstn_all2. }
  assert (Hfull : forall more : list File,
             length (FileUploadMax.selectedFiles st) = FileUploadMax.MAX_FILES ->
             firstn (FileUploadMax.MAX_FILES
                     - length (FileUploadMax.selectedFiles st)) more = []).
  { intros more ->. now rewrite Nat.sub_diag. }
  destruct e as [[fs |] | [fs |] | |]; try congruence;
    unfold FileUploadMax.step, FileUploadMax.handleDrop,
      FileUploadMax.handleFileChange, FileUploadMax.handleSubmit,
      FileUploadMax.slice0;
    cbn [fst snd FileUploadMax.selectedFiles FileUploadMax.dragActive].
  - destruct (0 <? length (validFiles fs))%nat;
      [destruct (Nat.ltb_spec FileUploadMax.MAX_FILES
                  (length (FileUploadMax.selectedFiles st ++ validFiles fs))) |];
      cbn [fst snd FileUploadMax.selectedFiles FileUploadMax.dragActive].
    + rewrite Hcut. eexists. split; [reflexivity | apply Hfull].
    + exists (validFiles fs). split; [reflexivity |].
      intros Hfullst. rewrite length_app in *.
      destruct (validFiles fs); [reflexivity | simpl in *; lia].
    + exists []. split; [now rewrite app_nil_r | reflexivity].
  - exists []. split; [now rewrite app_nil_r | reflexivity].
  - destruct (0 <? length (validFiles fs))%nat;
      cbn [fst snd FileUploadMax.selectedFiles FileUploadMax.dragActive].
    + rewrite Hcut. eexists. split; [reflexivity | apply Hfull].
    + exists []. split; [now rewrite app_nil_r | reflexivity].
  - exists []. split; [now rewrite app_nil_r | reflexivity].
  - destruct (0 <? length (FileUploadMax.selectedFiles st))%nat;
      exists []; (split; [now rewrite app_nil_r | reflexivity]).
Qed.

Lemma picker_keeps_selected_files_witness :
  exists added,
    FileUploadMax.selectedFiles
      (fst (FileUploadMax.step
              {| FileUploadMax.dragActive := false;
                 FileUploadMax.selectedFiles :=
                   [{| name := "a.slp"; size := 1 |}] |}
              (Drop (Some [{| name := "b.txt"; size := 2 |};
                           {| name := "c.slp"; size := 3 |}]))))
    = [{| name := "a.slp"; size := 1 |}] ++ added
    /\ (length [{| name := "a.slp"; size := 1 |}] = FileUploadMax.MAX_FILES ->
        added = []).
Proof.
  apply (picker_keeps_selected_files
           {| FileUploadMax.dragActive := false;
              FileUploadMax.selectedFiles := [{| name := "a.slp"; size := 1 |}] |}).
  - vm_compute. lia.
  - discriminate.
Defined.

(** ** The handlers on every run *)

Section RunFacts.
Import Http.
Variables World Parsed : Type.
Variable env : Env World Parsed.

Lemma answers_once_single (status : Z) (body : Body Parsed)
      (earlier : list (Event Parsed)) :
  responses earlier = [] -> In status [200; 400; 405; 500]%Z ->
  answers_once (earlier ++ [EvRespond status body]).
Proof. intros H1 H2. now exists earlier, status, body. Qed.

Lemma written_app (a b : list (Event Parsed)) :
  written (a ++ b) = written a ++ written b.
Proof. unfold written. apply flat_map_app. Qed.

Lemma unlink_attempts_app (a b : list (Event Parsed)) :
  unlink_attempts (a ++ b) = unlink_attempts a ++ unlink_attempts b.
Proof. unfold unlink_attempts. apply flat_map_app. Qed.

(** The loop on any run, aborted or not: it answers nothing, it parses
    exactly the files it wrote, it unlinks exactly the files it wrote, and
    these are the temporary files of the first [.slp] entries. *)
Lemma loop_any_run (entries : list (string * buffer)) :
  forall w results,
    let tr := snd (fst (loop env w entries results)) in
    responses tr = []
    /\ map fst (parser_calls tr) = written tr
    /\ unlink_attempts tr = written tr
    /\ exists rest,
         map (tempPathOf env) (slp_names entries) = written tr ++ rest.
Proof.
  induction entries as [| [filename data] rest IH]; intros w results; cbn zeta.
  - simpl. repeat split. now exists [].
  - cbn [loop]. unfold slp_names. cbn [map fst filter]. fold (slp_names rest).
    destruct (endsWith filename ".slp"); cbn [negb]; [| apply IH].
    destruct (writeFileSync env w (tempPathOf env filename) data) as [w1 [|]].
    + destruct (unlinkSync env w1 (tempPathOf env filename)) as [w2 ok].
      match goal with
      | |- context [loop env w2 rest ?r] =>
          specialize (IH w2 r); cbn zeta in IH;
          destruct (loop env w2 rest r) as [[w3 tr'] out']
      end.
      cbn [fst snd] in *. destruct IH as (Hr & Hp & Hu & tail & Ht).
      simpl. rewrite Hr, Hp, Hu, Ht. repeat split. now exists tail.
    + simpl. repeat split. eexists. reflexivity.
Qed.

End RunFacts.

(** Every request is answered exactly once, by the last call of the run,
    with status 200, 400, 405 or 500: by the single-replay handler, by the
    zip handler and by the sample-data handler, whatever the libraries
    return or throw. *)
Theorem every_request_is_answered_once (World Parsed : Type)
        (env : Http.Env World Parsed) (w : World) (req : Http.Request) :
  answers_once (snd (Http.handler env w req))
  /\ answers_once (snd (Http.zip_handler env w req))
  /\ answers_once (snd (Http.sample_handler env w)).
Proof.
  assert (H200 : In 200%Z [200; 400; 405; 500]%Z) by (simpl; tauto).
  assert (H400 : In 400%Z [200; 400; 405; 500]%Z) by (simpl; tauto).
  assert (H405 : In 405%Z [200; 400; 405; 500]%Z) by (simpl; tauto).
  assert (H500 : In 500%Z [200; 400; 405; 500]%Z) by (simpl; tauto).
  split; [| split].
  - unfold Http.handler.
    destruct (negb (String.eqb (Http.method req) "POST"));
      [now apply (answers_once_single _ _ _ []) |].
    destruct (Http.formParse env Http.options w req) as [w0 [| [[| file rest] |]]];
      try now apply (answers_once_single _ _ _ []).
    destruct (negb (Http.has_suffix (Http.originalFilename file) ".slp"));
      [now apply (answers_once_single _ _ _ []) |].
    destruct (Http.parseSlippiReplay env w0 (Http.filepath file)) as [data |].
    + destruct (Http.unlinkSync env w0 (Http.filepath file)) as [w1 ok].
      now apply (answers_once_single _ _ _ [_; _]).
    + now apply (answers_once_single _ _ _ [_]).
  - unfold Http.zip_handler.
    destruct (negb (String.eqb (Http.method req) "POST"));
      [now apply (answers_once_single _ _ _ []) |].
    destruct (Http.formParse env Http.options w req) as [w0 [| [[| file rest] |]]];
      try now apply (answers_once_single _ _ _ []).
    destruct (negb (Http.has_suffix (Http.originalFilename file) ".zip"));
      [now apply (answers_once_single _ _ _ []) |].
    destruct (Http.readFileSync env w0 (Http.filepath file)) as [zipBuffer |];
      [| now apply (answers_once_single _ _ _ [_])].
    destruct (Http.unzipFile env zipBuffer) as [unzipped |];
      [| now apply (answers_once_single _ _ _ [_; _])].
    destruct (loop_any_run _ _ env unzipped w0 []) as (Hr & _).
    destruct (Http.loop env w0 unzipped []) as [[w1 tr] out]. cbn [fst snd] in Hr.
    destruct out as [results |].
    + destruct (Http.unlinkSync env w1 (Http.filepath file)) as [w2 ok].
      cbn [snd].
      replace ((Http.EvRead (Http.filepath file) true :: Http.EvUnzip true :: tr)
                 ++ [Http.EvUnlink (Http.filepath file) ok;
                     Http.EvRespond 200 (Http.Results results)])
        with ((Http.EvRead (Http.filepath file) true :: Http.EvUnzip true :: tr
                 ++ [Http.EvUnlink (Http.filepath file) ok])
                ++ [Http.EvRespond 200 (Http.Results results)])
        by (simpl; now rewrite <- app_assoc).
      apply answers_once_single; [| assumption].
      simpl. rewrite responses_app, Hr. reflexivity.
    + cbn [snd]. apply answers_once_single; [| assumption]. simpl. exact Hr.
  - unfold Http.sample_handler.
    destruct (Http.readdir env w _); now apply (answers_once_single _ _ _ []).
Qed.

(** On every run of the zip handler, aborted or not, the replay parser is
    called exactly on the temporary files that were written, in order, and
    every one of them is unlinked.  Nothing else is deleted but the upload
    itself: it is unlinked once, after the temporary files, and only when
    the loop ran over the whole archive and the answer is 200; on every
    other run the temporary files are the only deletions.  The files
    written are the temporary files of the first [.slp] entries of the
    archive: an entry with another name is never written, parsed or
    deleted. *)
Theorem zip_loop_touches_only_replays (World Parsed : Type)
        (env : Http.Env World Parsed) (w : World) (req : Http.Request) :
  let tr := snd (Http.zip_handler env w req) in
  map fst (Http.parser_calls tr) = Http.written tr
  /\ ((Http.unlink_attempts tr = Http.written tr
       /\ forall results,
            Http.responses tr <> [(200%Z, Http.Results results)])
      \/ exists file unzipped results,
           uploads_zip env w req file unzipped
           /\ Http.unlink_attempts tr
              = Http.written tr ++ [Http.filepath file]
           /\ Http.responses tr = [(200%Z, Http.Results results)])
  /\ (forall file unzipped,
        uploads_zip env w req file unzipped ->
        exists rest,
          map (Http.tempPathOf env) (slp_names unzipped) = Http.written tr ++ rest).
Proof.
  cbn zeta.
  assert (Hshape : forall (tr : list (Http.Event Parsed)) path last,
             Http.parser_calls last = [] -> Http.written last = [] ->
             Http.responses tr = [] ->
             map fst (Http.parser_calls tr) = Http.written tr ->
             Http.unlink_attempts tr = Http.written tr ->
             let all := (Http.EvRead path true :: Http.EvUnzip true :: tr) ++ last in
             map fst (Http.parser_calls all) = Http.written all
             /\ Http.unlink_attempts all
                = Http.written all ++ Http.unlink_attempts last
             /\ Http.written all = Http.written tr
             /\ Http.responses all = Http.responses last).
  { intros tr path last Hlp Hlw Hr Hp Hu. cbn zeta.
    change (Http.EvRead path true :: Http.EvUnzip true :: tr)
      with ([Http.EvRead path true; Http.EvUnzip true] ++ tr).
    rewrite !parser_calls_app, !written_app, !unlink_attempts_app,
      !responses_app, Hlp, Hlw, Hu, Hr.
    simpl. rewrite !app_nil_r. repeat split. exact Hp. }
  assert (Hrun : forall unzipped w0 file,
             let tr := snd (let '(w1, tr, out) := Http.loop env w0 unzipped [] in
                            let pre := Http.EvRead (Http.filepath file) true
                                         :: Http.EvUnzip true :: tr in
                            match out with
                            | None =>
                                (w1, pre ++ [Http.EvRespond 500
                                               (Http.Message
                                                  "Error parsing replay file")])
                            | Some results =>
                                let '(w2, ok) :=
                                  Http.unlinkSync env w1 (Http.filepath file) in
                                (w2, pre ++ [Http.EvUnlink (Http.filepath file) ok;
                                            Http.EvRespond 200
                                              (Http.Results results)])
                            end) in
             map fst (Http.parser_calls tr) = Http.written tr
             /\ ((Http.unlink_attempts tr = Http.written tr
                  /\ forall results,
                       Http.responses tr <> [(200%Z, Http.Results results)])
                 \/ exists results,
                      Http.unlink_attempts tr
                      = Http.written tr ++ [Http.filepath file]
                      /\ Http.responses tr = [(200%Z, Http.Results results)])
             /\ exists rest,
                  map (Http.tempPathOf env) (slp_names unzipped)
                  = Http.written tr ++ rest).
  { intros unzipped w0 file. cbn zeta.
    destruct (loop_any_run _ _ env unzipped w0 []) as (Hr & Hp & Hu & tail & Ht).
    destruct (Http.loop env w0 unzipped []) as [[w1 tr] out].
    cbn [fst snd] in Hr, Hp, Hu, Ht.
    destruct out as [results |];
      [destruct (Http.unlinkSync env w1 (Http.filepath file)) as [w2 ok] |];
      cbn [snd];
      match goal with
      | |- context [(Http.EvRead ?path true :: Http.EvUnzip true :: tr) ++ ?last] =>
          destruct (Hshape tr path last eq_refl eq_refl Hr Hp Hu)
            as (H1 & H2 & H3 & H4)
      end;
      (split; [exact H1 |]); (split; [| exists tail; rewrite H3; exact Ht]).
    - right. exists results. split; [exact H2 | exact H4].
    - left. split; [rewrite H2; apply app_nil_r |].
      intros results. rewrite H4. discriminate. }
  assert (Hquiet : forall (tr : list (Http.Event Parsed)),
             Http.parser_calls tr = [] -> Http.written tr = [] ->
             Http.unlink_attempts tr = [] ->
             (forall results,
                 Http.responses tr <> [(200%Z, Http.Results results)]) ->
             map fst (Http.parser_calls tr) = Http.written tr
             /\ ((Http.unlink_attempts tr = Http.written tr
                  /\ forall results,
                       Http.responses tr <> [(200%Z, Http.Results results)])
                 \/ exists file unzipped results,
                      uploads_zip env w req file unzipped
                      /\ Http.unlink_attempts tr
                         = Http.written tr ++ [Http.filepath file]
                      /\ Http.responses tr = [(200%Z, Http.Results results)])).
  { intros tr -> -> -> Hno. split; [reflexivity |]. left. now split. }
  assert (Hall :
            map fst (Http.parser_calls (snd (Http.zip_handler env w req)))
            = Http.written (snd (Http.zip_handler env w req))
            /\ ((Http.unlink_attempts (snd (Http.zip_handler env w req))
                 = Http.written (snd (Http.zip_handler env w req))
                 /\ forall results,
                      Http.responses (snd (Http.zip_handler env w req))
                      <> [(200%Z, Http.Results results)])
                \/ exists file unzipped results,
                     uploads_zip env w req file unzipped
                     /\ Http.unlink_attempts (snd (Http.zip_handler env w req))
                        = Http.written (snd (Http.zip_handler env w req))
                            ++ [Http.filepath file]
                     /\ Http.responses (snd (Http.zip_handler env w req))
                        = [(200%Z, Http.Results results)])).
  { unfold Http.zip_handler.
    destruct (String.eqb_spec (Http.method req) "POST") as [Hpost | _];
      cbn [negb]; [| apply Hquiet; try reflexivity; discriminate].
    destruct (Http.formParse env Http.options w req)
      as [w0 [| [[| file rest] |]]] eqn:Hform;
      try (apply Hquiet; try reflexivity; discriminate).
    destruct (Http.has_suffix (Http.originalFilename file) ".zip") eqn:Hs;
      cbn [negb]; [| apply Hquiet; try reflexivity; discriminate].
    destruct (Http.readFileSync env w0 (Http.filepath file)) as [zipBuffer |]
      eqn:Hread; [| apply Hquiet; try reflexivity; discriminate].
    destruct (Http.unzipFile env zipBuffer) as [unzipped |] eqn:Ez;
      [| apply Hquiet; try reflexivity; discriminate].
    destruct (Hrun unzipped w0 file) as (H1 & H2 & _).
    split; [exact H1 |].
    destruct H2 as [H2 | (results & Hu & Hr)]; [now left | right].
    exists file, unzipped, results. split; [| now split].
    exists w0, zipBuffer. split; [split; [exact Hpost | now exists rest] |].
    split; [| now split].
    unfold Http.has_suffix in Hs.
    destruct (Http.originalFilename file) as [n |]; [| discriminate].
    exists n. split; [reflexivity |].
    destruct (String.eqb n ""); [discriminate |].
    now apply endsWith_ends_in. }
  split; [apply Hall |]. split; [apply Hall |].
  intros file unzipped
         (w' & zipBuffer & [Hpost [rest Hform]] & (n & Hn & Hzip) & Hread & Hunzip).
  unfold Http.zip_handler. rewrite (post_eqb _ Hpost), Hform.
  assert (Hs : Http.has_suffix (Http.originalFilename file) ".zip" = true).
  { unfold Http.has_suffix. rewrite Hn.
    destruct (String.eqb_spec n "") as [-> | _].
    - exfalso. revert Hzip. apply ends_in_nonempty. discriminate.
    - now apply endsWith_ends_in. }
  rewrite Hs, Hread, Hunzip. cbn [negb].
  apply (Hrun unzipped w' file).
Qed.

(** The single-replay handler calls the replay parser at most once; it
    unlinks the uploaded temporary file exactly when the parse succeeded
    (then it answers 200 with the parsed replay), and on every other path,
    a failed parse included, it deletes nothing; its answer does not depend
    on what the deletion does or throws. *)
Theorem single_handler_deletes_only_after_success (World Parsed : Type)
        (env : Http.Env World Parsed) (w : World) (req : Http.Request) :
  single_run (snd (Http.handler env w req))
  /\ forall u,
       Http.responses (snd (Http.handler (with_unlink env u) w req))
       = Http.responses (snd (Http.handler env w req)).
Proof.
  split.
  - unfold single_run, Http.handler.
    destruct (negb (String.eqb (Http.method req) "POST"));
      [simpl; split; [reflexivity | do 2 eexists; split; [reflexivity | lia]] |].
    destruct (Http.formParse env Http.options w req) as [w0 [| [[| file rest] |]]];
      try (simpl; split; [reflexivity | do 2 eexists; split; [reflexivity | lia]]).
    destruct (negb (Http.has_suffix (Http.originalFilename file) ".slp"));
      [simpl; split; [reflexivity | do 2 eexists; split; [reflexivity | lia]] |].
    destruct (Http.parseSlippiReplay env w0 (Http.filepath file)) as [data |].
    + destruct (Http.unlinkSync env w0 (Http.filepath file)) as [w1 ok].
      simpl. split; reflexivity.
    + simpl. split; reflexivity.
  - intros u. unfold Http.handler.
    destruct (negb (String.eqb (Http.method req) "POST")); [reflexivity |].
    change (Http.formParse (with_unlink env u)) with (Http.formParse env).
    destruct (Http.formParse env Http.options w req) as [w0 [| [[| file rest] |]]];
      try reflexivity.
    destruct (negb (Http.has_suffix (Http.originalFilename file) ".slp"));
      [reflexivity |].
    change (Http.parseSlippiReplay (with_unlink env u))
      with (Http.parseSlippiReplay env).
    destruct (Http.parseSlippiReplay env w0 (Http.filepath file)) as [data |];
      [| reflexivity].
    change (Http.unlinkSync (with_unlink env u)) with u.
    destruct (u w0 (Http.filepath file)); destruct (Http.unlinkSync env w0 _).
    reflexivity.
Qed.

(** ** The tables: header, order and rows *)

Lemma character_Column_eqb_eq (a b : CharacterBreakdown.Column) :
  CharacterBreakdown.Column_eqb a b = true <-> a = b.
Proof. destruct a, b; simpl; split; intros H; congruence || reflexivity. Qed.

Lemma matchup_Column_eqb_eq (a b : MatchupAnalysis.Column) :
  MatchupControls.Column_eqb a b = true <-> a = b.
Proof.
  unfold MatchupControls.Column_eqb. rewrite Nat.eqb_eq.
  destruct a, b; simpl; split; intros H; congruence || reflexivity.
Qed.

(** In both tables a click on a column header sorts by that column: in
    descending order when the column was not the sorted one, and each
    further click on the same header reverses the direction, so that three
    clicks amount to one. *)
Theorem header_clicks_toggle_direction :
  header_click CharacterBreakdown.handleSort
  /\ header_click MatchupControls.handleSort.
Proof.
  split; intros [sortBy sortDir] c.
  - unfold CharacterBreakdown.handleSort. cbn [fst snd].
    assert (Hcc : CharacterBreakdown.Column_eqb c c = true)
      by now apply character_Column_eqb_eq.
    rewrite !Hcc.
    destruct (CharacterBreakdown.Column_eqb sortBy c) eqn:E.
    + apply character_Column_eqb_eq in E. subst.
      destruct sortDir; repeat split; congruence.
    + repeat split; try congruence.
  - unfold MatchupControls.handleSort. cbn [fst snd].
    assert (Hcc : MatchupControls.Column_eqb c c = true)
      by now apply matchup_Column_eqb_eq.
    rewrite !Hcc.
    destruct (MatchupControls.Column_eqb sortBy c) eqn:E.
    + apply matchup_Column_eqb_eq in E. subst.
      destruct sortDir; repeat split; congruence.
    + repeat split; try congruence.
Qed.

(** Sorting only reorders: in both tables the rows shown for one column and
    direction are a rearrangement of the rows shown for any other, whatever
    [localeCompare] returns. *)
Theorem sorting_only_reorders_rows (lib : Lib) (selectedPlayer : option string)
        (selectedCharacter : option Z) (replayDataList : list ReplayData)
        (d1 d2 : SortDir) :
  (forall c1 c2 rows1 rows2,
     CharacterBreakdown.sortedStats lib selectedPlayer c1 d1 replayDataList
     = Return rows1 ->
     CharacterBreakdown.sortedStats lib selectedPlayer c2 d2 replayDataList
     = Return rows2 ->
     Permutation rows1 rows2)
  /\ (forall c1 c2 rows1 rows2,
        MatchupAnalysis.sortedStats lib selectedPlayer selectedCharacter c1 d1
                                    replayDataList = Return rows1 ->
        MatchupAnalysis.sortedStats lib selectedPlayer selectedCharacter c2 d2
                                    replayDataList = Return rows2 ->
        Permutation rows1 rows2).
Proof.
  split; intros c1 c2 rows1 rows2.
  - unfold CharacterBreakdown.sortedStats.
    destruct (CharacterBreakdown.characterStatsArray lib selectedPlayer
                                                     replayDataList)
      as [rows0 |]; simpl; [| discriminate].
    intros H1 H2. injection H1 as <-. injection H2 as <-.
    rewrite !js_sort_perm. reflexivity.
  - unfold MatchupAnalysis.sortedStats.
    destruct (MatchupAnalysis.matchupStatsArray lib selectedPlayer
                                                selectedCharacter replayDataList)
      as [rows0 |]; simpl; [| discriminate].
    intros H1 H2. injection H1 as <-. injection H2 as <-.
    rewrite !js_sort_perm. reflexivity.
Qed.

(** *** The keys of a dictionary *)

Section DictionaryKeys.
Variables K V : Type.
Variable eqb : K -> K -> bool.
Hypothesis eqb_eq : forall a b, eqb a b = true <-> a = b.

Lemma get_None_not_In (m : list (K * V)) (k : K) :
  get eqb m k = None -> ~ In k (map fst m).
Proof.
  induction m as [| [k' v'] t IH]; simpl; [tauto |].
  destruct (eqb k' k) eqn:E; [discriminate |].
  intros Hg [-> | Hin]; [| now apply IH].
  assert (eqb k k = true) by now apply eqb_eq. congruence.
Qed.

Lemma get_Some_In (m : list (K * V)) (k : K) (v : V) :
  get eqb m k = Some v -> In (k, v) m.
Proof.
  induction m as [| [k' v'] t IH]; simpl; [discriminate |].
  destruct (eqb k' k) eqn:E.
  - apply eqb_eq in E. subst. intros H. injection H as <-. now left.
  - intros H. right. now apply IH.
Qed.

Lemma set_keys_new (m : list (K * V)) (k : K) (v : V) :
  ~ In k (map fst m) -> set eqb m k v = m ++ [(k, v)].
Proof.
  induction m as [| [k' v'] t IH]; simpl; [reflexivity |].
  intros Hn. destruct (eqb k' k) eqn:E.
  - apply eqb_eq in E. subst. tauto.
  - f_equal. apply IH. tauto.
Qed.

Lemma set_keys_old (m : list (K * V)) (k : K) (v : V) :
  In k (map fst m) -> map fst (set eqb m k v) = map fst m.
Proof.
  induction m as [| [k' v'] t IH]; simpl; [tauto |].
  intros Hin. destruct (eqb k' k) eqn:E; simpl; [reflexivity |].
  f_equal. apply IH. destruct Hin as [-> | Hin]; [| assumption].
  assert (eqb k k = true) by now apply eqb_eq. congruence.
Qed.

Lemma alter_keys (f : V -> V) (m : list (K * V)) (k : K) :
  map fst (alter eqb f m k) = map fst m.
Proof.
  unfold alter. destruct (get eqb m k) as [v |] eqn:E; [| reflexivity].
  apply set_keys_old. apply get_Some_In in E.
  apply in_map_iff. now exists (k, v).
Qed.

(** Creating the property when it is missing keeps the keys distinct. *)
Lemma ensure_NoDup (m : list (K * V)) (k : K) (v : V) :
  NoDup (map fst m) ->
  NoDup (map fst (match get eqb m k with
                  | Some _ => m
                  | None => set eqb m k v
                  end)).
Proof.
  intros Hnd. destruct (get eqb m k) eqn:E; [assumption |].
  apply get_None_not_In in E. rewrite (set_keys_new _ _ v E), map_app. simpl.
  apply NoDup_Add with (a := k) (l := map fst m); [| now constructor].
  rewrite <- (app_nil_r (map fst m)) at 1. apply Add_app.
Qed.
End DictionaryKeys.

Section DictionaryEntries.
Variables K V : Type.
Variable eqb : K -> K -> bool.
Hypothesis eqb_eq : forall a b, eqb a b = true <-> a = b.
Variable P : K -> V -> Prop.

Lemma set_all_entries (m : list (K * V)) (k : K) (v : V) :
  all_entries P m -> P k v -> all_entries P (set eqb m k v).
Proof.
  unfold all_entries. induction m as [| [k' v'] t IH]; simpl; intros Hm Hv.
  - now constructor.
  - inversion Hm; subst. destruct (eqb k' k) eqn:E; constructor; auto.
    apply eqb_eq in E. now subst.
Qed.

Lemma alter_all_entries (f : V -> V) (m : list (K * V)) (k : K) :
  (forall v, P k v -> P k (f v)) -> all_entries P m ->
  all_entries P (alter eqb f m k).
Proof.
  intros Hf Hm. unfold alter. destruct (get eqb m k) as [v |] eqn:E; [| assumption].
  apply set_all_entries; [assumption |]. apply Hf.
  apply (get_Some_In _ _ eqb eqb_eq) in E. unfold all_entries in Hm. rewrite Forall_forall in Hm.
  apply (Hm (k, v) E).
Qed.

Lemma ensure_all_entries (m : list (K * V)) (k : K) (v : V) :
  all_entries P m -> P k v ->
  all_entries P (match get eqb m k with
                 | Some _ => m
                 | None => set eqb m k v
                 end).
Proof.
  intros Hm Hv. destruct (get eqb m k); [assumption |].
  now apply set_all_entries.
Qed.
End DictionaryEntries.

Lemma filter_partition_perm {A : Type} (f : A -> bool) (l : list A) :
  Permutation (filter f l ++ filter (fun x => negb (f x)) l) l.
Proof.
  induction l as [| x t IH]; simpl; [constructor |].
  destruct (f x); simpl.
  - now constructor.
  - rewrite <- Permutation_middle. now constructor.
Qed.

Lemma values_of_numeric_keys_perm {V : Type} (m : list (Z * V)) :
  exists m', Permutation m' m /\ values_of_numeric_keys m = map snd m'.
Proof.
  unfold values_of_numeric_keys. eexists. split; [| reflexivity].
  rewrite js_sort_perm. apply filter_partition_perm.
Qed.

(** *** Numbers: bounds of a rate *)

Lemma rate_bounds (wins losses totalGames : number) :
  (0 <= wins)%Qc -> (0 <= losses)%Qc -> (wins + losses)%Qc = totalGames ->
  within 0%Qc (ofZ 100)
         (if Qcltb 0 totalGames
          then dmul (ddiv (Num wins) (Num totalGames)) (Num (ofZ 100))
          else Num 0%Qc).
Proof.
  intros Hw Hl Ht.
  destruct (Qcltb 0 totalGames) eqn:E.
  - apply Qcltb_lt in E.
    assert (Hwt : (wins <= totalGames)%Qc).
    { rewrite <- Ht. rewrite <- (Qcplus_0_r wins) at 1.
      apply Qcplus_le_compat; [apply Qcle_refl | assumption]. }
    destruct (rate_rounds wins totalGames Hw Hwt E) as (r & -> & H0 & H1 & _).
    exists r. split; [reflexivity | split; assumption].
  - exists 0%Qc. split; [reflexivity |].
    split; [apply Qcle_refl | apply ofZ_le; lia].
Qed.

(** *** One row per key, and rates between 0 and 100 *)

Lemma Z_eqb_eq (a b : Z) : (a =? b)%Z = true <-> a = b.
Proof. apply Z.eqb_eq. Qed.

Lemma Key_eqb_eq (a b : MatchupAnalysis.Key) :
  MatchupAnalysis.Key_eqb a b = true <-> a = b.
Proof.
  unfold MatchupAnalysis.Key_eqb. destruct a as [a1 a2], b as [b1 b2]. simpl.
  rewrite andb_true_iff, !Z.eqb_eq.
  split; [intros [-> ->]; reflexivity | intros H; injection H; auto].
Qed.

Section CharacterKeys.
Import CharacterBreakdown.

Lemma record_game_entry_ok (isWinner : bool) (playerStats : Overall.t) (k : Z)
      (e : Entry.t) :
  character_entry_ok k e -> character_entry_ok k (record_game isWinner playerStats e).
Proof.
  intros (Hid & Hw & Hl & Hb). unfold character_entry_ok.
  split; [exact Hid |].
  split; [| split; [| now apply record_game_balanced]];
    destruct isWinner; simpl; try assumption;
    apply Qcplus_nonneg; assumption || apply Qc_0_le_1.
Qed.

Lemma fresh_entry_ok (k : Z) : character_entry_ok k (fresh k).
Proof.
  unfold character_entry_ok, fresh. simpl.
  repeat split; try apply Qcle_refl.
Qed.

Lemma visit_player_map_ok (replay : ReplayData) (m : StatsMap) (i : Z)
      (m' : StatsMap) :
  character_map_ok m -> visit_player replay m i = Return m' -> character_map_ok m'.
Proof.
  intros [Hnd Hm]. unfold visit_player.
  destruct (i =? -1)%Z; [intros H; injection H as <-; now split |].
  destruct (find _ (Settings.players (settings replay))) as [p |];
    [| intros H; injection H as <-; now split].
  pose proof (ensure_NoDup _ _ Z.eqb Z_eqb_eq m (SettingsPlayer.characterId p)
                           (fresh (SettingsPlayer.characterId p)) Hnd) as Hnd1.
  pose proof (ensure_all_entries _ _ Z.eqb Z_eqb_eq character_entry_ok m
                (SettingsPlayer.characterId p)
                (fresh (SettingsPlayer.characterId p)) Hm
                (fresh_entry_ok _)) as Hm1.
  destruct (find _ (Stats.overall (stats replay))) as [playerStats |];
    [| intros H; injection H as <-; now split].
  destruct (last_element (Stats.stocks (stats replay))) as [lastStock |];
    [| discriminate].
  intros H. injection H as <-. split.
  - now rewrite (alter_keys _ _ Z.eqb Z_eqb_eq).
  - apply (alter_all_entries _ _ Z.eqb Z_eqb_eq); [| assumption].
    intros v. apply record_game_entry_ok.
Qed.

Lemma statsMap_map_ok (selectedPlayer : option string)
      (replayDataList : list ReplayData) (m : StatsMap) :
  statsMap selectedPlayer replayDataList = Return m -> character_map_ok m.
Proof.
  unfold statsMap.
  apply (forEach_invariant character_map_ok); [| split; constructor].
  intros s replay s' Hs. unfold visit_replay.
  destruct selectedPlayer as [sp |].
  - destruct (negb (selectedPlayerIndex (Some sp) replay =? -1)%Z);
      [| intros H; now injection H as <-].
    apply (forEach_invariant character_map_ok); [| assumption].
    intros s0 i s0'. apply visit_player_map_ok.
  - apply (forEach_invariant character_map_ok); [| assumption].
    intros s0 i s0'. apply visit_player_map_ok.
Qed.

End CharacterKeys.

Section MatchupKeys.
Import MatchupAnalysis.

Lemma record_matchup_entry_ok (isWinner : bool) (p o : Overall.t) (k : Key)
      (e : Entry.t) :
  matchup_entry_ok k e -> matchup_entry_ok k (record_game isWinner p o e).
Proof.
  intros (Hid & Hw & Hl & Hb). unfold matchup_entry_ok.
  split; [exact Hid |].
  split; [| split; [| now apply record_matchup_balanced]];
    destruct isWinner; simpl; try assumption;
    apply Qcplus_nonneg; assumption || apply Qc_0_le_1.
Qed.

Lemma visit_matchup_map_ok (selectedPlayer : option string)
      (selectedCharacter : option Z) (m : StatsMap) (replay : ReplayData)
      (m' : StatsMap) :
  matchup_map_ok m ->
  visit_replay selectedPlayer selectedCharacter m replay = Return m' ->
  matchup_map_ok m'.
Proof.
  intros [Hnd Hm]. unfold visit_replay.
  destruct (negb (length (Settings.players (settings replay)) =? 2)%nat);
    [intros H; injection H as <-; now split |].
  destruct (pick_player selectedPlayer selectedCharacter replay)
    as [[[playerIndex opponentIndex] |] |]; simpl;
    [| intros H; injection H as <-; now split | discriminate].
  destruct (at_index (Settings.players (settings replay)) playerIndex) as [pl |];
    [| intros H; injection H as <-; now split].
  destruct (at_index (Settings.players (settings replay)) opponentIndex) as [op |];
    [| intros H; injection H as <-; now split].
  destruct (match selectedCharacter with
            | Some c => negb (SettingsPlayer.characterId pl =? c)%Z
            | None => false
            end); [intros H; injection H as <-; now split |].
  set (key := (SettingsPlayer.characterId pl, SettingsPlayer.characterId op)).
  assert (Hfresh : matchup_entry_ok key
                     (fresh (SettingsPlayer.characterId pl)
                            (SettingsPlayer.characterId op))).
  { unfold matchup_entry_ok, fresh, balanced_matchup. simpl.
    repeat split; try apply Qcle_refl. }
  pose proof (ensure_NoDup _ _ Key_eqb Key_eqb_eq m key
                (fresh (SettingsPlayer.characterId pl)
                       (SettingsPlayer.characterId op)) Hnd) as Hnd1.
  pose proof (ensure_all_entries _ _ Key_eqb Key_eqb_eq matchup_entry_ok m key
                (fresh (SettingsPlayer.characterId pl)
                       (SettingsPlayer.characterId op)) Hm Hfresh) as Hm1.
  destruct (find _ (Stats.overall (stats replay))) as [playerStats |];
    [| intros H; injection H as <-; now split].
  destruct (find _ (Stats.overall (stats replay))) as [opponentStats |];
    [| intros H; injection H as <-; now split].
  destruct (last_element (Stats.stocks (stats replay))) as [lastStock |];
    [| discriminate].
  intros H. injection H as <-. split.
  - now rewrite (alter_keys _ _ Key_eqb Key_eqb_eq).
  - apply (alter_all_entries _ _ Key_eqb Key_eqb_eq); [| assumption].
    intros v. apply record_matchup_entry_ok.
Qed.

End MatchupKeys.

Lemma all_entries_perm {K V : Type} (P : K -> V -> Prop) (m m' : list (K * V)) :
  Permutation m' m -> all_entries P m -> all_entries P m'.
Proof.
  unfold all_entries. rewrite !Forall_forall. intros HP H kv Hin.
  apply H. eapply Permutation_in; eassumption.
Qed.

(** The Character Breakdown shows one row per character and the Matchup
    Analysis one row per pair of characters; in every row wins and losses
    are not negative and the win rate lies between 0 and 100. *)
Theorem tables_have_one_row_per_key (lib : Lib) (selectedPlayer : option string)
        (selectedCharacter : option Z)
        (sortBy : CharacterBreakdown.Column) (sortBy' : MatchupAnalysis.Column)
        (sortDir : SortDir) (replayDataList : list ReplayData) :
  (forall rows,
     CharacterBreakdown.sortedStats lib selectedPlayer sortBy sortDir
                                    replayDataList = Return rows ->
     NoDup (map CharacterBreakdown.characterId rows)
     /\ Forall (fun row =>
                  (0 <= CharacterBreakdown.wins row)%Qc
                  /\ (0 <= CharacterBreakdown.losses row)%Qc
                  /\ within 0%Qc (ofZ 100) (CharacterBreakdown.winRate row))
               rows)
  /\ (forall rows,
        MatchupAnalysis.sortedStats lib selectedPlayer selectedCharacter
                                    sortBy' sortDir replayDataList = Return rows ->
        NoDup (map (fun row => (MatchupAnalysis.characterId row,
                                MatchupAnalysis.opponentCharacterId row)) rows)
        /\ Forall (fun row =>
                     (0 <= MatchupAnalysis.wins row)%Qc
                     /\ (0 <= MatchupAnalysis.losses row)%Qc
                     /\ within 0%Qc (ofZ 100) (MatchupAnalysis.winRate row))
                  rows).
Proof.
  split; intros rows.
  - unfold CharacterBreakdown.sortedStats, CharacterBreakdown.characterStatsArray.
    destruct (CharacterBreakdown.statsMap selectedPlayer replayDataList)
      as [m |] eqn:Em; simpl; [| discriminate].
    intros H. injection H as <-.
    destruct (statsMap_map_ok _ _ _ Em) as [Hnd Hm].
    destruct (values_of_numeric_keys_perm m) as (m' & Hperm & ->).
    pose proof (all_entries_perm _ _ _ Hperm Hm) as Hm'.
    unfold all_entries in Hm'. rewrite Forall_forall in Hm'.
    split.
    + eapply Permutation_NoDup;
        [apply Permutation_map; symmetry; apply js_sort_perm |].
      rewrite !map_map.
      replace (map (fun x => CharacterBreakdown.characterId
                               (CharacterBreakdown.to_row lib (snd x))) m')
        with (map fst m').
      * eapply Permutation_NoDup; [apply Permutation_map; symmetry; exact Hperm |].
        exact Hnd.
      * apply map_ext_in. intros kv Hin. symmetry. apply (Hm' kv Hin).
    + apply Forall_forall. intros row Hin.
      eapply Permutation_in in Hin; [| apply js_sort_perm].
      rewrite map_map in Hin. apply in_map_iff in Hin.
      destruct Hin as (kv & <- & Hin).
      destruct (Hm' kv Hin) as (_ & Hw & Hl & Hb).
      unfold CharacterBreakdown.to_row.
      cbn [CharacterBreakdown.wins CharacterBreakdown.losses
           CharacterBreakdown.winRate].
      split; [exact Hw |]. split; [exact Hl |].
      apply (rate_bounds _ (CharacterBreakdown.Entry.losses (snd kv)));
        [exact Hw | exact Hl | apply Hb].
  - unfold MatchupAnalysis.sortedStats, MatchupAnalysis.matchupStatsArray.
    destruct (MatchupAnalysis.statsMap selectedPlayer selectedCharacter
                                       replayDataList) as [m |] eqn:Em;
      simpl; [| discriminate].
    intros H. injection H as <-.
    assert (Hok : matchup_map_ok m).
    { revert Em. unfold MatchupAnalysis.statsMap.
      apply (forEach_invariant matchup_map_ok); [| split; constructor].
      intros s replay s'. apply visit_matchup_map_ok. }
    destruct Hok as [Hnd Hm].
    pose proof Hm as Hm'. unfold all_entries in Hm'. rewrite Forall_forall in Hm'.
    split.
    + eapply Permutation_NoDup;
        [apply Permutation_map; symmetry; apply js_sort_perm |].
      rewrite !map_map.
      replace (map (fun x => (MatchupAnalysis.characterId
                                (MatchupAnalysis.to_row lib (snd x)),
                              MatchupAnalysis.opponentCharacterId
                                (MatchupAnalysis.to_row lib (snd x)))) m)
        with (map fst m); [exact Hnd |].
      apply map_ext_in. intros kv Hin. symmetry. apply (Hm' kv Hin).
    + apply Forall_forall. intros row Hin.
      eapply Permutation_in in Hin; [| apply js_sort_perm].
      rewrite map_map in Hin. apply in_map_iff in Hin.
      destruct Hin as (kv & <- & Hin).
      destruct (Hm' kv Hin) as (_ & Hw & Hl & Hb).
      unfold MatchupAnalysis.to_row.
      cbn [MatchupAnalysis.wins MatchupAnalysis.losses
           MatchupAnalysis.winRate].
      split; [exact Hw |]. split; [exact Hl |].
      apply (rate_bounds _ (MatchupAnalysis.Entry.losses (snd kv)));
        [exact Hw | exact Hl | apply Hb].
Qed.

(** *** "All players": one win and one loss per game *)

Lemma sum_over_perm {A : Type} (g : A -> number) (l l' : list A) :
  Permutation l l' -> sum_over g l = sum_over g l'.
Proof.
  induction 1 as [| x l l' _ IH | x y l | l l' l'' _ IH1 _ IH2]; simpl.
  - reflexivity.
  - now rewrite IH.
  - ring.
  - congruence.
Qed.

Lemma sum_over_map {A B : Type} (f : A -> B) (g : B -> number) (l : list A) :
  sum_over g (map f l) = sum_over (fun x => g (f x)) l.
Proof. induction l as [| x t IH]; simpl; [reflexivity | now rewrite IH]. Qed.

Lemma sum_over_app {A : Type} (g : A -> number) (l l' : list A) :
  sum_over g (l ++ l') = (sum_over g l + sum_over g l')%Qc.
Proof. induction l as [| x t IH]; simpl; [ring | rewrite IH; ring]. Qed.

Section DictionarySums.
Variables K V : Type.
Variable eqb : K -> K -> bool.
Variable g : V -> number.

Lemma sum_set_present (m : list (K * V)) (k : K) (v v' : V) :
  get eqb m k = Some v ->
  (sum_over (fun kv => g (snd kv)) (set eqb m k v') + g v)%Qc
  = (sum_over (fun kv => g (snd kv)) m + g v')%Qc.
Proof.
  induction m as [| [k0 v0] t IH]; simpl; [discriminate |].
  destruct (eqb k0 k); simpl.
  - intros H. injection H as ->. ring.
  - intros H. specialize (IH H). rewrite <- Qcplus_assoc, IH. ring.
Qed.

Lemma get_set_same (m : list (K * V)) (k : K) (v : V) :
  eqb k k = true -> get eqb (set eqb m k v) k = Some v.
Proof.
  intros Hk. induction m as [| [k0 v0] t IH]; simpl; [now rewrite Hk |].
  destruct (eqb k0 k) eqn:E; simpl; now rewrite E.
Qed.

Lemma sum_set_absent (m : list (K * V)) (k : K) (v : V) :
  get eqb m k = None ->
  sum_over (fun kv => g (snd kv)) (set eqb m k v)
  = (sum_over (fun kv => g (snd kv)) m + g v)%Qc.
Proof.
  induction m as [| [k0 v0] t IH]; simpl; [intros _; ring |].
  destruct (eqb k0 k); simpl; [discriminate |].
  intros H. rewrite (IH H). ring.
Qed.
End DictionarySums.

Lemma last_element_snoc {A : Type} (l : list A) (x : A) :
  last_element (l ++ [x]) = Some x.
Proof.
  pose proof (last_element_spec (l ++ [x])) as H.
  destruct (l ++ [x]) as [| a t] eqn:E; [destruct l; discriminate |].
  destruct H as (init & y & Hy & ->).
  rewrite <- E in Hy. apply app_inj_tail in Hy. destruct Hy as [_ ->].
  reflexivity.
Qed.

Section CountingGames.
Import CharacterBreakdown.

(** One visit of a player with statistics: one more game, and one more win
    or one more loss. *)
Lemma visit_player_counts (replay : ReplayData) (m : StatsMap) (i : Z)
      (p : SettingsPlayer.t) (s : Overall.t) (earlier : list Stock.t)
      (lastStock : Stock.t) :
  i <> (-1)%Z ->
  find (fun p => (SettingsPlayer.playerIndex p =? i)%Z)
       (Settings.players (settings replay)) = Some p ->
  find (fun p => (Overall.playerIndex p =? i)%Z)
       (Stats.overall (stats replay)) = Some s ->
  Stats.stocks (stats replay) = earlier ++ [lastStock] ->
  exists m',
    visit_player replay m i = Return m'
    /\ sum_over (fun kv => Entry.totalGames (snd kv)) m'
       = (sum_over (fun kv => Entry.totalGames (snd kv)) m + 1)%Qc
    /\ sum_over (fun kv => Entry.wins (snd kv)) m'
       = (sum_over (fun kv => Entry.wins (snd kv)) m
          + (if (Stock.playerIndex lastStock =? i)%Z then 0 else 1))%Qc
    /\ sum_over (fun kv => Entry.losses (snd kv)) m'
       = (sum_over (fun kv => Entry.losses (snd kv)) m
          + (if (Stock.playerIndex lastStock =? i)%Z then 1 else 0))%Qc.
Proof.
  intros Hi Hp Hs Hst. unfold visit_player.
  destruct (Z.eqb_spec i (-1)); [contradiction |].
  rewrite Hp, Hs.
  rewrite Hst, last_element_snoc. eexists. split; [reflexivity |].
  set (c := SettingsPlayer.characterId p).
  set (m1 := match get Z.eqb m c with
             | Some _ => m
             | None => set Z.eqb m c (fresh c)
             end).
  assert (Hm1 : exists e,
             get Z.eqb m1 c = Some e
             /\ forall g, g (fresh c) = 0%Qc ->
                  sum_over (fun kv => g (snd kv)) m1
                  = sum_over (fun kv => g (snd kv)) m).
  { unfold m1. destruct (get Z.eqb m c) as [e |] eqn:Eg.
    - exists e. split; [assumption | reflexivity].
    - exists (fresh c). split; [apply get_set_same, Z.eqb_refl |].
      intros g Hg. rewrite sum_set_absent by assumption. rewrite Hg. ring. }
  destruct Hm1 as (e & Hget & Hsum).
  unfold alter. rewrite Hget.
  assert (Hstep : forall g,
             g (fresh c) = 0%Qc ->
             sum_over (fun kv => g (snd kv))
                      (set Z.eqb m1 c
                           (record_game
                              (negb (Stock.playerIndex lastStock =? i)%Z) s e))
             = (sum_over (fun kv => g (snd kv)) m
                + (g (record_game (negb (Stock.playerIndex lastStock =? i)%Z) s e)
                   - g e))%Qc).
  { intros g Hg. rewrite <- (Hsum g Hg).
    pose proof (sum_set_present _ _ Z.eqb g m1 c e
                  (record_game (negb (Stock.playerIndex lastStock =? i)%Z) s e)
                  Hget) as H.
    match goal with
    | |- ?lhs = _ => replace lhs with ((lhs + g e) - g e)%Qc by ring
    end.
    rewrite H. ring. }
  repeat split.
  - rewrite (Hstep Entry.totalGames eq_refl). simpl. ring.
  - rewrite (Hstep Entry.wins eq_refl).
    destruct (Stock.playerIndex lastStock =? i)%Z; simpl; ring.
  - rewrite (Hstep Entry.losses eq_refl).
    destruct (Stock.playerIndex lastStock =? i)%Z; simpl; ring.
Qed.

Lemma visit_replay_counts (replay : ReplayData) (m : StatsMap) :
  two_player_game replay ->
  exists m',
    visit_replay None m replay = Return m'
    /\ sum_over (fun kv => Entry.totalGames (snd kv)) m'
       = (sum_over (fun kv => Entry.totalGames (snd kv)) m + 1 + 1)%Qc
    /\ sum_over (fun kv => Entry.wins (snd kv)) m'
       = (sum_over (fun kv => Entry.wins (snd kv)) m + 1)%Qc
    /\ sum_over (fun kv => Entry.losses (snd kv)) m'
       = (sum_over (fun kv => Entry.losses (snd kv)) m + 1)%Qc.
Proof.
  intros (p0 & p1 & s0 & s1 & earlier & lastStock
          & Hpl & Hne & H0 & H1 & Hs0 & Hs1 & Hst & Hlast).
  unfold visit_replay. rewrite Hpl. cbn [map forEach].
  assert (Hf0 : find (fun p => (SettingsPlayer.playerIndex p
                                =? SettingsPlayer.playerIndex p0)%Z)
                     (Settings.players (settings replay)) = Some p0).
  { rewrite Hpl. simpl. now rewrite Z.eqb_refl. }
  assert (Hf1 : find (fun p => (SettingsPlayer.playerIndex p
                                =? SettingsPlayer.playerIndex p1)%Z)
                     (Settings.players (settings replay)) = Some p1).
  { rewrite Hpl. simpl.
    destruct (Z.eqb_spec (SettingsPlayer.playerIndex p0)
                         (SettingsPlayer.playerIndex p1)); [contradiction |].
    now rewrite Z.eqb_refl. }
  destruct (visit_player_counts replay m _ p0 s0 earlier lastStock H0 Hf0 Hs0 Hst)
    as (m1 & -> & Ht1 & Hw1 & Hl1).
  cbn [bind].
  destruct (visit_player_counts replay m1 _ p1 s1 earlier lastStock H1 Hf1 Hs1 Hst)
    as (m2 & -> & Ht2 & Hw2 & Hl2).
  cbn [bind]. exists m2. split; [reflexivity |].
  rewrite Ht2, Ht1, Hw2, Hw1, Hl2, Hl1.
  destruct Hlast as [E | E]; rewrite E, Z.eqb_refl.
  - destruct (Z.eqb_spec (SettingsPlayer.playerIndex p0)
                         (SettingsPlayer.playerIndex p1)); [contradiction |].
    repeat split; ring.
  - destruct (Z.eqb_spec (SettingsPlayer.playerIndex p1)
                         (SettingsPlayer.playerIndex p0)); [congruence |].
    repeat split; ring.
Qed.

Lemma statsMap_counts (replayDataList : list ReplayData) :
  Forall two_player_game replayDataList ->
  forall m0, exists m,
    forEach (visit_replay None) replayDataList m0 = Return m
    /\ sum_over (fun kv => Entry.totalGames (snd kv)) m
       = (sum_over (fun kv => Entry.totalGames (snd kv)) m0
          + ofNat (length replayDataList) + ofNat (length replayDataList))%Qc
    /\ sum_over (fun kv => Entry.wins (snd kv)) m
       = (sum_over (fun kv => Entry.wins (snd kv)) m0
          + ofNat (length replayDataList))%Qc
    /\ sum_over (fun kv => Entry.losses (snd kv)) m
       = (sum_over (fun kv => Entry.losses (snd kv)) m0
          + ofNat (length replayDataList))%Qc.
Proof.
  induction 1 as [| replay rest Hr Hrest IH]; intros m0.
  - exists m0. simpl. change (ofNat 0) with 0%Qc. repeat split; ring.
  - destruct (visit_replay_counts replay m0 Hr) as (m1 & Hv & Ht & Hw & Hl).
    destruct (IH m1) as (m & Hm & Ht' & Hw' & Hl').
    exists m. cbn [forEach]. rewrite Hv. cbn [bind].
    split; [exact Hm |].
    cbn [length]. rewrite ofNat_S, Ht', Hw', Hl', Ht, Hw, Hl.
    repeat split; ring.
Qed.

End CountingGames.

(** With "All Players" selected, over games between two players with
    distinct indices, statistics for both and a last stock that belongs to
    one of them, the Character Breakdown is produced and counts every game
    twice, once as a win and once as a loss: over the rows, the games add up
    to twice the number of replays, the wins to the number of replays and
    the losses to the number of replays. *)
Theorem all_players_one_win_one_loss_per_game (lib : Lib)
        (sortBy : CharacterBreakdown.Column) (sortDir : SortDir)
        (replayDataList : list ReplayData) :
  Forall two_player_game replayDataList ->
  exists rows,
    CharacterBreakdown.sortedStats lib None sortBy sortDir replayDataList
    = Return rows
    /\ sum_over CharacterBreakdown.totalGames rows
       = (ofNat (length replayDataList) + ofNat (length replayDataList))%Qc
    /\ sum_over CharacterBreakdown.wins rows = ofNat (length replayDataList)
    /\ sum_over CharacterBreakdown.losses rows = ofNat (length replayDataList).
Proof.
  intros Hall.
  destruct (statsMap_counts replayDataList Hall []) as (m & Hm & Ht & Hw & Hl).
  unfold CharacterBreakdown.sortedStats, CharacterBreakdown.characterStatsArray,
    CharacterBreakdown.statsMap.
  rewrite Hm. cbn [bind]. eexists. split; [reflexivity |].
  destruct (values_of_numeric_keys_perm m) as (m' & Hperm & ->).
  rewrite !(sum_over_perm _ _ _ (js_sort_perm _ _ _)).
  rewrite !map_map, !sum_over_map. cbn [CharacterBreakdown.to_row
    CharacterBreakdown.totalGames CharacterBreakdown.wins CharacterBreakdown.losses].
  rewrite !(sum_over_perm _ _ _ Hperm), Ht, Hw, Hl. simpl.
  repeat split; ring.
Qed.

Lemma sample_games_two_player : Forall two_player_game Samples.games.
Proof.
  repeat constructor; unfold two_player_game;
    do 4 eexists; exists [Samples.stock 0; Samples.stock 1]; eexists;
    (split; [reflexivity |]); simpl;
    repeat split; try reflexivity; try discriminate; auto.
Qed.

(** The three sample games: six games counted, three wins, three losses. *)
Lemma all_players_one_win_one_loss_per_game_witness :
  exists rows,
    CharacterBreakdown.sortedStats Samples.lib None
      CharacterBreakdown.ColTotalGames desc Samples.games = Return rows
    /\ sum_over CharacterBreakdown.totalGames rows = (ofNat 3 + ofNat 3)%Qc
    /\ sum_over CharacterBreakdown.wins rows = ofNat 3
    /\ sum_over CharacterBreakdown.losses rows = ofNat 3.
Proof.
  apply (all_players_one_win_one_loss_per_game Samples.lib
           CharacterBreakdown.ColTotalGames desc Samples.games).
  apply sample_games_two_player.
Defined.

(** *** The scatter chart *)

Section Chart.
Import ReplayDataSummary.
Variable selectedPlayer : option string.
Variables xAxis yAxis : StatKey.

Lemma filteredData_run (replayDataList : list ReplayData) :
  Forall chart_ready replayDataList ->
  exists kept,
    filteredData selectedPlayer replayDataList = Return kept
    /\ (length kept <= length replayDataList)%nat
    /\ incl kept replayDataList.
Proof.
  destruct selectedPlayer as [s |].
  2:{ intros _. exists replayDataList.
      destruct replayDataList; simpl; auto using incl_refl. }
  destruct (String.eqb s "") eqn:Es.
  { intros _. exists replayDataList.
    destruct replayDataList; simpl; rewrite Es; auto using incl_refl. }
  induction 1 as [| replay rest [(p0 & p1 & others & Hp) _] _ IH].
  - exists []. simpl. rewrite Es. auto using incl_refl.
  - destruct IH as (kept & Hk & Hlen & Hincl).
    cbn [filteredData]. rewrite Es, Hp.
    change (at_index (p0 :: p1 :: others) 0) with (Some p0).
    change (at_index (p0 :: p1 :: others) 1) with (Some p1).
    rewrite Hk. cbn [bind].
    destruct (_ || _).
    + exists (replay :: kept). repeat split; [simpl; lia |].
      intros r [<- | Hr]; [now left | right; now apply Hincl].
    + exists kept. repeat split; [simpl; lia |].
      intros r Hr. right. now apply Hincl.
Qed.

Lemma selectedPlayerIndex_run (replay : ReplayData) :
  chart_ready replay ->
  exists i, selectedPlayerIndex replay selectedPlayer = Return i.
Proof.
  intros [(p0 & p1 & others & Hp) _]. unfold selectedPlayerIndex.
  rewrite Hp.
  change (at_index (p0 :: p1 :: others) 0) with (Some p0).
  change (at_index (p0 :: p1 :: others) 1) with (Some p1).
  cbv beta iota zeta.
  destruct selectedPlayer as [s |]; [| eauto].
  destruct (String.eqb (code (names p0)) s); [eauto |].
  destruct (String.eqb (code (names p1)) s); eauto.
Qed.

(** One replay adds at most one point, to one of the two series. *)
Lemma visit_run (replay : ReplayData) (winData lossData : list Point) :
  chart_ready replay ->
  exists wins losses,
    visit selectedPlayer xAxis yAxis (winData, lossData) replay
    = Return (winData ++ wins, lossData ++ losses)
    /\ (length wins + length losses <= 1)%nat
    /\ Forall (plotted_in selectedPlayer xAxis yAxis replay) (wins ++ losses).
Proof.
  intros Hready.
  destruct (selectedPlayerIndex_run replay Hready) as [sel Hsel].
  destruct Hready as [_ Hstocks].
  unfold visit, winner, loser, winnerIndex.
  pose proof (last_element_spec (Stats.stocks (stats replay))) as Hl.
  destruct (Stats.stocks (stats replay)) as [| a t]; [contradiction |].
  destruct Hl as (init & lastStock & _ & ->). cbn [bind]. rewrite Hsel.
  cbn [bind].
  set (w := Stock.playerIndex lastStock).
  destruct (find (fun p => (Overall.playerIndex p =? w)%Z)
                 (Stats.overall (stats replay))) as [pw |] eqn:Ew;
    destruct (find (fun p => negb (Overall.playerIndex p =? w)%Z)
                   (Stats.overall (stats replay))) as [pl |] eqn:El;
    try (apply find_some in Ew; destruct Ew as [Hinw Hw];
         apply Z.eqb_eq in Hw);
    try (apply find_some in El; destruct El as [Hinl Hlo];
         apply negb_true_iff, Z.eqb_neq in Hlo);
    repeat match goal with
           | |- context [(?a =? ?b)%Z] => destruct (Z.eqb_spec a b)
           end;
    try congruence;
    try (exists [], []; rewrite !app_nil_r; repeat split;
         [simpl; lia | constructor]; fail);
    try (eexists [_], []; rewrite !app_nil_r; repeat split;
         [simpl; lia |]; repeat constructor;
         eexists; repeat split; [eassumption | congruence]; fail);
    try (eexists [], [_]; rewrite !app_nil_r; repeat split;
         [simpl; lia |]; repeat constructor;
         eexists; repeat split; [eassumption | congruence]; fail).
Qed.

Lemma forEach_visit_run (kept : list ReplayData) :
  Forall chart_ready kept ->
  forall winData lossData,
  exists wins losses,
    forEach (visit selectedPlayer xAxis yAxis) kept (winData, lossData)
    = Return (winData ++ wins, lossData ++ losses)
    /\ (length wins + length losses <= length kept)%nat
    /\ Forall (plotted_from selectedPlayer xAxis yAxis kept) (wins ++ losses).
Proof.
  induction 1 as [| replay rest Hr _ IH]; intros winData lossData.
  - exists [], []. rewrite !app_nil_r. repeat split; auto.
  - destruct (visit_run replay winData lossData Hr) as (w1 & l1 & Hv & Hn1 & Hp1).
    destruct (IH (winData ++ w1) (lossData ++ l1)) as (w2 & l2 & Hrun & Hn2 & Hp2).
    exists (w1 ++ w2), (l1 ++ l2). cbn [forEach]. rewrite Hv. cbn [bind].
    rewrite Hrun, !app_assoc. repeat split.
    + rewrite !length_app. simpl. lia.
    + apply Forall_app in Hp1, Hp2. destruct Hp1 as [Hw1 Hl1], Hp2 as [Hw2 Hl2].
      repeat (apply Forall_app; split);
        first [ eapply Forall_impl; [| eassumption]; intros pt Hpt;
                exists replay; split; [now left | exact Hpt]
              | eapply Forall_impl; [| eassumption];
                intros pt (r & Hin & Hpt); exists r; split;
                [now right | exact Hpt] ].
Qed.

End Chart.

(** Over replays with two players in the metadata and at least one stock,
    the chart is produced for every selection and both axes; a game is
    plotted at most once, among the wins or among the losses, never in
    both; and every point shows the statistics of the player whose index is
    the position (0 or 1) of the selected player in the metadata of its
    game. *)
Theorem chart_plots_a_game_at_most_once (selectedPlayer : option string)
        (xAxis yAxis : ReplayDataSummary.StatKey)
        (replayDataList : list ReplayData) :
  Forall chart_ready replayDataList ->
  exists winData lossData,
    ReplayDataSummary.chartData selectedPlayer xAxis yAxis replayDataList
    = Return (winData, lossData)
    /\ (length winData + length lossData <= length replayDataList)%nat
    /\ Forall (plotted_from selectedPlayer xAxis yAxis replayDataList)
              (winData ++ lossData).
Proof.
  intros Hall.
  destruct (filteredData_run selectedPlayer replayDataList Hall)
    as (kept & Hk & Hlen & Hincl).
  assert (Hkept : Forall chart_ready kept).
  { rewrite Forall_forall in *. auto. }
  destruct (forEach_visit_run selectedPlayer xAxis yAxis kept Hkept [] [])
    as (w & l & Hrun & Hn & Hp).
  exists w, l. unfold ReplayDataSummary.chartData. rewrite Hk. cbn [bind].
  rewrite Hrun. repeat split; [lia |].
  eapply Forall_impl; [| exact Hp].
  intros pt (r & Hin & Hpt). exists r. split; [now apply Hincl | exact Hpt].
Qed.

(** While no player is selected, the chart of replays whose players all have
    an index (none is -1) has no point at all. *)
Theorem chart_without_player_is_empty
        (xAxis yAxis : ReplayDataSummary.StatKey)
        (replayDataList : list ReplayData) :
  Forall chart_ready replayDataList ->
  Forall indices_assigned replayDataList ->
  ReplayDataSummary.chartData None xAxis yAxis replayDataList = Return ([], []).
Proof.
  intros Hready Hidx.
  assert (Hkept : ReplayDataSummary.filteredData None replayDataList
                  = Return replayDataList).
  { destruct replayDataList; reflexivity. }
  unfold ReplayDataSummary.chartData. rewrite Hkept. cbn [bind].
  destruct (forEach_visit_run None xAxis yAxis replayDataList Hready [] [])
    as (w & l & -> & _ & Hp).
  cbn [app].
  assert (Hnil : w ++ l = []).
  { destruct (w ++ l) as [| pt rest]; [reflexivity | exfalso].
    apply Forall_inv in Hp. destruct Hp as (r & Hin & p & Hinp & Hsel & _).
    rewrite Forall_forall in Hready, Hidx.
    destruct (Hready r Hin) as [(p0 & p1 & others & Hpl) _].
    unfold ReplayDataSummary.selectedPlayerIndex in Hsel. rewrite Hpl in Hsel.
    injection Hsel as Hsel.
    specialize (Hidx r Hin). unfold indices_assigned in Hidx.
    rewrite Forall_forall in Hidx. now apply (Hidx p Hinp). }
  apply app_eq_nil in Hnil. destruct Hnil as [-> ->]. reflexivity.
Qed.

Lemma sample_games_chart_ready : Forall chart_ready Samples.games.
Proof.
  repeat constructor; try (do 3 eexists; reflexivity); discriminate.
Qed.

Lemma sample_games_indices_assigned : Forall indices_assigned Samples.games.
Proof. repeat constructor; discriminate. Qed.

(** The three sample games, charted for AAA#1. *)
Lemma chart_plots_a_game_at_most_once_witness :
  exists winData lossData,
    ReplayDataSummary.chartData (Some "AAA#1"%string)
      ReplayDataSummary.totalDamage ReplayDataSummary.inputsPerMinute
      Samples.games
    = Return (winData, lossData)
    /\ (length winData + length lossData <= length Samples.games)%nat
    /\ Forall (plotted_from (Some "AAA#1"%string)
                 ReplayDataSummary.totalDamage ReplayDataSummary.inputsPerMinute
                 Samples.games)
              (winData ++ lossData).
Proof.
  apply (chart_plots_a_game_at_most_once (Some "AAA#1"%string)
           ReplayDataSummary.totalDamage ReplayDataSummary.inputsPerMinute
           Samples.games).
  apply sample_games_chart_ready.
Defined.

(** The three sample games, charted with no player selected. *)
Lemma chart_without_player_is_empty_witness :
  ReplayDataSummary.chartData None ReplayDataSummary.totalDamage
    ReplayDataSummary.inputsPerMinute Samples.games
  = Return ([], []).
Proof.
  apply (chart_without_player_is_empty ReplayDataSummary.totalDamage
           ReplayDataSummary.inputsPerMinute Samples.games).
  - apply sample_games_chart_ready.
  - apply sample_games_indices_assigned.
Defined.

(** *** The page: counting the players *)


Lemma Sorted_weaken {A : Type} (R R' : A -> A -> Prop) (l : list A) :
  Sorted R l -> (forall a b, R a b -> R' a b) -> Sorted R' l.
Proof.
  intros Hs Himp. induction Hs as [| x t _ IH Hhd]; constructor;
    [assumption |].
  destruct Hhd; constructor. now apply Himp.
Qed.


Section DictionaryLookup.
Variables K V : Type.
Variable eqb : K -> K -> bool.
Hypothesis eqb_eq : forall a b, eqb a b = true <-> a = b.



End DictionaryLookup.


Section PlayerCounts.
Variable engine : Engine.

Lemma count_player_returns (counts : list (string * counter)) (p : Player) :
  exists counts', count_player engine counts (Some p) = Return counts'.
Proof.
  unfold count_player. destruct (String.eqb _ _); eexists; reflexivity.
Qed.

(** The counting reaches no error on replays that have their two
    players, whatever their codes. *)
Lemma playerCounts_returns (replayDataList : list ReplayData) :
  Forall has_two_players replayDataList ->
  exists counts, playerCounts engine replayDataList = Return counts.
Proof.
  intros Hall. unfold playerCounts. generalize (@nil (string * counter)).
  induction Hall as [| replay rest (p0 & p1 & others & Hp) _ IH];
    intros counts.
  - now exists counts.
  - cbn [forEach]. cbv zeta. rewrite Hp.
    change (at_index (p0 :: p1 :: others) 0) with (Some p0).
    change (at_index (p0 :: p1 :: others) 1) with (Some p1).
    cbn [forEach].
    destruct (count_player_returns counts p0) as (c1 & ->). cbn [bind].
    destruct (count_player_returns c1 p1) as (c2 & ->). cbn [bind].
    apply IH.
Qed.






End PlayerCounts.



Lemma sample_games_have_two_players : Forall has_two_players Samples.games.
Proof. repeat constructor; do 3 eexists; reflexivity. Qed.




(** A code that [Object.prototype] has a property for is not counted: two
    games between [constructor] and [__proto__] leave one property, which
    holds a string, and no player is selected. *)
Lemma inherited_codes_are_not_counted :
  let g := {| metadata :=
                {| Metadata.startAt := ""; Metadata.lastFrame := 0%Qc;
                   Metadata.playedOn := "";
                   Metadata.players := [Samples.player "constructor";
                                        Samples.player "__proto__"] |};
              stats := stats (Samples.game 1 0 0);
              settings := settings (Samples.game 1 0 0) |} in
  exists counts,
    playerCounts sample_engine [g; g] = Return counts
    /\ counts = [("constructor"%string,
                  CStr "function Object() { [native code] }11")]
    /\ or_null (mostFrequentPlayer sample_engine counts) = None.
Proof.
  cbv zeta. eexists. split; [vm_compute; reflexivity |].
  split; reflexivity.
Qed.

(** *** The page: uploads *)

Section PageUploads.
Variable Net : Type.

Lemma requests_run
      (fetch : Net -> File -> Net * Throws (Response ReplayData))
      (files : list File) :
  forall n newReplayDataList,
    let '(_, sent, out) := Home.requests fetch n files newReplayDataList in
    (exists rest, files = sent ++ rest)
    /\ match out with
       | Return l =>
           sent = files
           /\ exists new,
                l = newReplayDataList ++ new /\ length new = length files
       | Throw => sent <> []
       end.
Proof.
  induction files as [| file rest IH]; intros n acc; cbn [Home.requests].
  - split; [now exists [] |]. split; [reflexivity |].
    exists []. now rewrite app_nil_r.
  - destruct (fetch n file) as [n1 [response |]].
    2:{ split; [now exists rest | discriminate]. }
    destruct (ok response); cbn [negb].
    2:{ split; [now exists rest | discriminate]. }
    destruct (json response) as [data |].
    2:{ split; [now exists rest | discriminate]. }
    specialize (IH n1 (acc ++ [data])).
    destruct (Home.requests fetch n1 rest (acc ++ [data])) as [[n2 sent] out].
    destruct IH as ((more & Hmore) & Hout). split.
    + exists more. simpl. now rewrite <- Hmore.
    + destruct out as [l |]; [| discriminate].
      destruct Hout as (-> & new & -> & Hlen). split; [reflexivity |].
      exists (data :: new). rewrite <- app_assoc. simpl. now rewrite Hlen.
Qed.

Lemma take_results_run (results : list (Http.Result ReplayData))
      (acc : HomeBatch.Acc) :
  HomeBatch.newReplayDataList (fold_left HomeBatch.take_result results acc)
  = HomeBatch.newReplayDataList acc
    ++ flat_map (fun result => match result with
                               | Http.ResParsed _ parsed => [parsed]
                               | Http.ResError _ _ => []
                               end) results
  /\ HomeBatch.errorFiles (fold_left HomeBatch.take_result results acc)
     = HomeBatch.errorFiles acc
       ++ flat_map (fun result => match result with
                                  | Http.ResParsed _ _ => []
                                  | Http.ResError filename _ => [filename]
                                  end) results.
Proof.
  revert acc. induction results as [| result rest IH]; intros acc;
    cbn [fold_left flat_map].
  - now rewrite !app_nil_r.
  - destruct (IH (HomeBatch.take_result acc result)) as [-> ->].
    destruct result; cbn [HomeBatch.take_result HomeBatch.newReplayDataList
      HomeBatch.errorFiles]; rewrite <- ?app_assoc; simpl;
      now rewrite ?app_nil_r.
Qed.

Lemma upload_run
      (fetch : Net -> File -> Net * Throws (Response (Http.Body ReplayData)))
      (files : list File) :
  forall n acc,
    let '(_, tr, out) := HomeBatch.upload fetch n files acc in
    (exists rest, files = map fst (HomeBatch.exchanges tr) ++ rest)
    /\ match out with
       | Return acc' =>
           forallb answered (HomeBatch.exchanges tr) = true
           /\ map fst (HomeBatch.exchanges tr) = files
           /\ HomeBatch.newReplayDataList acc'
              = HomeBatch.newReplayDataList acc
                ++ flat_map parsed_in (HomeBatch.exchanges tr)
           /\ HomeBatch.errorFiles acc'
              = HomeBatch.errorFiles acc
                ++ flat_map failed_in (HomeBatch.exchanges tr)
       | Throw => forallb answered (HomeBatch.exchanges tr) = false
       end.
Proof.
  induction files as [| file rest IH]; intros n acc; cbn [HomeBatch.upload].
  - split; [now exists [] |]. simpl. now rewrite !app_nil_r.
  - destruct (fetch n file) as [n1 [response |]].
    2:{ split; [now exists rest | reflexivity]. }
    destruct (ok response) eqn:Eok; cbn [negb].
    + destruct (json response) as [data |] eqn:Ejson.
      2:{ split; [now exists rest |].
          cbn. unfold answered. cbn [snd]. now rewrite Eok, Ejson. }
      set (acc1 := match data with
                   | Http.Results results =>
                       fold_left HomeBatch.take_result results acc
                   | _ => HomeBatch.fail_file acc file
                   end).
      specialize (IH n1 acc1).
      destruct (HomeBatch.upload fetch n1 rest acc1) as [[n2 tr] out].
      destruct IH as ((more & Hmore) & Hout).
      cbn [HomeBatch.exchanges flat_map app map fst forallb].
      fold (HomeBatch.exchanges tr).
      assert (Hans : answered (file, Return response) = true).
      { unfold answered. cbn [snd]. now rewrite Eok, Ejson. }
      rewrite Hans. cbn [andb]. split.
      * exists more. now rewrite <- Hmore.
      * destruct out as [acc' |]; [| exact Hout].
        destruct Hout as (Hall & Hsent & Hnew & Herr).
        split; [exact Hall |]. split; [now rewrite Hsent |].
        assert (Hfile :
                  HomeBatch.newReplayDataList acc1
                  = HomeBatch.newReplayDataList acc
                    ++ parsed_in (file, Return response)
                  /\ HomeBatch.errorFiles acc1
                     = HomeBatch.errorFiles acc
                       ++ failed_in (file, Return response)).
        { unfold parsed_in, failed_in, acc1. cbn [snd fst].
          rewrite Eok, Ejson.
          destruct data as [| | results | |];
            try (cbn [HomeBatch.fail_file HomeBatch.newReplayDataList
                   HomeBatch.errorFiles]; now rewrite ?app_nil_r).
          apply take_results_run. }
        destruct Hfile as [Hf1 Hf2].
        rewrite Hnew, Herr, Hf1, Hf2. now rewrite <- !app_assoc.
    + specialize (IH n1 (HomeBatch.fail_file acc file)).
      destruct (HomeBatch.upload fetch n1 rest (HomeBatch.fail_file acc file))
        as [[n2 tr] out].
      destruct IH as ((more & Hmore) & Hout).
      cbn [HomeBatch.exchanges flat_map app map fst forallb].
      fold (HomeBatch.exchanges tr).
      assert (Hans : answered (file, Return response) = true).
      { unfold answered. cbn [snd]. now rewrite Eok. }
      rewrite Hans. cbn [andb]. split.
      * exists more. now rewrite <- Hmore.
      * destruct out as [acc' |]; [| exact Hout].
        destruct Hout as (Hall & Hsent & Hnew & Herr).
        split; [exact Hall |]. split; [now rewrite Hsent |].
        assert (Hfile :
                  parsed_in (file, Return response) = []
                  /\ failed_in (file, Return response) = [name file]).
        { unfold parsed_in, failed_in. cbn [snd fst]. now rewrite Eok. }
        destruct Hfile as [Hf1 Hf2].
        rewrite Hnew, Herr, Hf1, Hf2.
        cbn [HomeBatch.fail_file HomeBatch.newReplayDataList
          HomeBatch.errorFiles app].
        now rewrite <- ?app_assoc.
Qed.

End PageUploads.

(** The first page sends the files one by one and stops at the first
    request that fails: it never sends a file that follows a failed one,
    and it ends with [loading] off.  Either every file was sent and the
    list grew by one replay per file, with no error shown; or the list is
    what it was, whatever was parsed before the failure is dropped, and the
    error is shown. *)
Theorem first_page_upload_is_all_or_nothing (Net : Type)
        (fetch : Net -> File -> Net * Throws (Response ReplayData))
        (st : Home.State) (n : Net) (files : list File) :
  let '(_, sent, st') := Home.handleFileUpload fetch st n files in
  Home.loading st' = false
  /\ (exists rest, files = sent ++ rest)
  /\ ((Home.error st' = ""%string
       /\ sent = files
       /\ exists new,
            Home.replayDataList st' = Home.replayDataList st ++ new
            /\ length new = length files)
      \/ (Home.error st' = generic_error
          /\ Home.replayDataList st' = Home.replayDataList st)).
Proof.
  unfold Home.handleFileUpload.
  pose proof (requests_run Net fetch files n []) as H.
  destruct (Home.requests fetch n files []) as [[n1 sent] out].
  destruct H as (Hprefix & Hout).
  destruct out as [l |]; cbn [Home.loading Home.error Home.replayDataList].
  - destruct Hout as (-> & new & -> & Hlen).
    split; [reflexivity |]. split; [exact Hprefix |]. left.
    repeat split. now exists new.
  - split; [reflexivity |]. split; [exact Hprefix |]. right. now split.
Qed.

(** The later page sends every file unless a request is left unanswered
    (or an answer cannot be read), and ends with [loading] off and the
    progress bar reset.  When every request is answered, the list grows by
    exactly the replays the answers carry, in order: a failed file or a
    failed entry of an archive stops nothing, and, when the new replays
    have their two players, the error names exactly the failed files and
    entries.  When a request is left unanswered the list is what it was and
    the general error is shown. *)
Theorem later_page_upload_collects_failures (Net : Type) (engine : Engine)
        (fetch : Net -> File -> Net * Throws (Response (Http.Body ReplayData)))
        (st : HomeBatch.State) (n : Net) (files : list File) :
  let '(_, tr, st') := HomeBatch.handleFileUpload engine fetch st n files in
  let answers := HomeBatch.exchanges tr in
  HomeBatch.loading st' = false
  /\ HomeBatch.progress st'
     = {| HomeBatch.current := 0%Qc; HomeBatch.total := 0%Qc |}
  /\ (exists rest, files = map fst answers ++ rest)
  /\ if forallb answered answers then
       map fst answers = files
       /\ HomeBatch.replayDataList st'
          = HomeBatch.replayDataList st ++ flat_map parsed_in answers
       /\ (Forall has_two_players (flat_map parsed_in answers) ->
           HomeBatch.error st' = failure_message (flat_map failed_in answers))
     else
       HomeBatch.replayDataList st' = HomeBatch.replayDataList st
       /\ HomeBatch.error st' = generic_error.
Proof.
  unfold HomeBatch.handleFileUpload.
  set (acc0 := {| HomeBatch.newReplayDataList := [];
                  HomeBatch.successCount := 0%Qc;
                  HomeBatch.errorFiles := [] |}).
  pose proof (upload_run Net fetch files n acc0) as H.
  destruct (HomeBatch.upload fetch n files acc0) as [[n1 tr] out].
  destruct H as (Hprefix & Hout).
  destruct out as [acc |].
  - destruct Hout as (Hall & Hsent & Hnew & Herr). unfold acc0 in Hnew, Herr.
    cbn [HomeBatch.newReplayDataList HomeBatch.errorFiles app] in Hnew, Herr.
    destruct (playerCounts engine (HomeBatch.newReplayDataList acc))
      as [counts |] eqn:Ec;
      cbv zeta; cbn [HomeBatch.loading HomeBatch.progress HomeBatch.error
        HomeBatch.replayDataList]; rewrite Hall;
      (split; [reflexivity |]); (split; [reflexivity |]);
      (split; [exact Hprefix |]); (split; [exact Hsent |]);
      (split; [now rewrite Hnew |]).
    + intros _. rewrite Herr. reflexivity.
    + intros Htwo. rewrite <- Hnew in Htwo.
      destruct (playerCounts_returns engine _ Htwo) as (c & Hc). congruence.
  - cbv zeta. cbn [HomeBatch.loading HomeBatch.progress HomeBatch.error
      HomeBatch.replayDataList]. rewrite Hout.
    repeat split; try reflexivity. exact Hprefix.
Qed.

(** *** The statistics beside the chart *)

Section StatisticsFacts.
Import ReplayDataSummary StatisticsSummary.

Lemma running_sum_number (values : list number) (acc : double) :
  acc <> NaN ->
  fold_left (fun sum val => dadd sum (Num val)) values acc <> NaN.
Proof.
  revert acc. induction values as [| v t IH]; intros acc Hacc; cbn [fold_left].
  - exact Hacc.
  - apply IH. now apply dadd_number.
Qed.

Lemma calculateAverage_settled (values : list number) :
  values <> [] -> settled values (Some (calculateAverage values)).
Proof.
  intros Hne. eexists. split; [reflexivity |]. split; [| contradiction].
  unfold calculateAverage. apply ddiv_number.
  - apply running_sum_number. discriminate.
  - destruct values; [contradiction | apply ofNat_pos].
Qed.

(** [calculateMedian] reads the middle of the ascending arrangement. *)
Lemma calculateMedian_value (h : heap) (data : ref) :
  snd (calculateMedian h data)
  = let s := js_sort (fun a b => (a - b)%Qc) (read h data) in
    let mid := (Z.of_nat (length s) / 2)%Z in
    if (Z.of_nat (length s) mod 2 =? 0)%Z then
      Some (ddiv (dadd (operand (at_index s (mid - 1)))
                       (operand (at_index s mid)))
                 (Num (ofZ 2)))
    else option_map Num (at_index s mid).
Proof.
  unfold calculateMedian, alloc, sort_in_place. cbn [snd].
  rewrite read_alloc, read_write_same; [reflexivity |].
  rewrite length_app. simpl. lia.
Qed.

Lemma at_index_In (s : list number) (i : Z) (a : number) :
  at_index s i = Some a -> In a s.
Proof.
  unfold at_index. destruct (i <? 0)%Z; [discriminate |].
  apply nth_error_In.
Qed.

Lemma at_index_Some (s : list number) (i : Z) :
  (0 <= i < Z.of_nat (length s))%Z -> exists a, at_index s i = Some a.
Proof.
  intros Hi. unfold at_index.
  destruct (Z.ltb_spec i 0); [lia |].
  destruct (nth_error s (Z.to_nat i)) eqn:E; [eauto |].
  apply nth_error_None in E. lia.
Qed.

Lemma calculateMedian_settled (h : heap) (data : ref) :
  read h data <> [] ->
  settled (read h data) (snd (calculateMedian h data))
  /\ ((length (read h data) mod 2 = 1)%nat ->
      one_of (read h data) (snd (calculateMedian h data))).
Proof.
  intros Hne. rewrite calculateMedian_value. cbv zeta.
  set (s := js_sort (fun a b => (a - b)%Qc) (read h data)).
  assert (Hperm : Permutation s (read h data)) by apply js_sort_perm.
  assert (Hlength : length s = length (read h data))
    by apply (Permutation_length Hperm).
  assert (Hlen : (0 < length s)%nat).
  { rewrite Hlength. destruct (read h data); [contradiction | simpl; lia]. }
  assert (Hmod : (Z.of_nat (length s) mod 2)%Z = Z.of_nat (length s mod 2))
    by now rewrite Nat2Z.inj_mod.
  destruct (Z.eqb_spec (Z.of_nat (length s) mod 2) 0) as [Heven | Hodd].
  - split; [| intros Hpar; rewrite <- Hlength in Hpar; lia].
    assert (H2 : (2 <= Z.of_nat (length s))%Z).
    { destruct (Z.eq_dec (Z.of_nat (length s)) 1) as [E | E]; [| lia].
      rewrite E in Heven. discriminate. }
    destruct (at_index_Some s (Z.of_nat (length s) / 2 - 1)) as [a Ha].
    { pose proof (Z.div_le_lower_bound (Z.of_nat (length s)) 2 1).
      pose proof (Z.div_lt (Z.of_nat (length s)) 2). lia. }
    destruct (at_index_Some s (Z.of_nat (length s) / 2)) as [b Hb].
    { pose proof (Z.div_pos (Z.of_nat (length s)) 2).
      pose proof (Z.div_lt (Z.of_nat (length s)) 2). lia. }
    rewrite Ha, Hb. cbn [operand].
    eexists. split; [reflexivity |]. split; [| contradiction].
    apply ddiv_number; [apply round64_number |].
    change (ofZ 2) with (ofNat 2). apply ofNat_pos.
  - destruct (at_index_Some s (Z.of_nat (length s) / 2)) as [b Hb].
    { pose proof (Z.div_pos (Z.of_nat (length s)) 2).
      pose proof (Z.div_lt (Z.of_nat (length s)) 2). lia. }
    rewrite Hb. cbn [option_map]. split.
    + eexists. split; [reflexivity |]. split; [discriminate | contradiction].
    + intros _. exists b. split; [| reflexivity].
      eapply Permutation_in; [exact Hperm |]. eapply at_index_In; exact Hb.
Qed.

Lemma guarded_settled (calc : heap -> ref -> heap * option double)
      (h : heap) (data : list Point) (f : Point -> number) :
  (forall h r, read h r <> [] -> settled (read h r) (snd (calc h r))) ->
  settled (map f data) (snd (guarded calc h data f)).
Proof.
  intros Hcalc. unfold guarded. destruct data as [| p t].
  - cbn [length Nat.ltb Nat.leb snd map]. eexists.
    split; [reflexivity |]. split; [discriminate | reflexivity].
  - cbn [length Nat.ltb Nat.leb]. unfold alloc.
    pose proof (Hcalc (h ++ [map f (p :: t)]) (length h)) as H.
    rewrite read_alloc in H. apply H. discriminate.
Qed.

Lemma guarded_median_one_of (h : heap) (data : list Point) (f : Point -> number) :
  (length data mod 2 = 1)%nat ->
  one_of (map f data) (snd (guarded calculateMedian h data f)).
Proof.
  intros Hpar. unfold guarded. destruct data as [| p t]; [discriminate |].
  cbn [length Nat.ltb Nat.leb]. unfold alloc.
  destruct (calculateMedian_settled (h ++ [map f (p :: t)]) (length h))
    as [_ H]; rewrite read_alloc in *; [discriminate |].
  apply H. now rewrite length_map.
Qed.

Lemma series_run (h : heap) (data : list Point) :
  series_settled data (snd (series h data)).
Proof.
  unfold series.
  pose proof (guarded_settled average h data x) as Hxa.
  destruct (guarded average h data x) as [h1 xa].
  pose proof (guarded_settled average h1 data y) as Hya.
  destruct (guarded average h1 data y) as [h2 ya].
  pose proof (guarded_settled calculateMedian h2 data x) as Hxm.
  pose proof (guarded_median_one_of h2 data x) as Hxo.
  destruct (guarded calculateMedian h2 data x) as [h3 xm].
  pose proof (guarded_settled calculateMedian h3 data y) as Hym.
  pose proof (guarded_median_one_of h3 data y) as Hyo.
  destruct (guarded calculateMedian h3 data y) as [h4 ym].
  cbn [snd] in *. unfold series_settled.
  cbn [count xAvg yAvg xMedian yMedian]. cbv zeta.
  split; [reflexivity |].
  split; [| split; [| split; [| split]]].
  - apply Hxa. intros h' r Hne. unfold average. cbn [snd].
    apply calculateAverage_settled, Hne.
  - apply Hya. intros h' r Hne. unfold average. cbn [snd].
    apply calculateAverage_settled, Hne.
  - apply Hxm. intros h' r Hne. apply calculateMedian_settled, Hne.
  - apply Hym. intros h' r Hne. apply calculateMedian_settled, Hne.
  - intros Hpar. split; [apply Hxo | apply Hyo]; exact Hpar.
Qed.

End StatisticsFacts.

(** The statistics beside the chart are absent exactly when nothing is
    plotted.  When they are shown, the count of each series is the number
    of its points and each of its four values is a number, never [NaN] or
    [undefined]: 0 for a series without points; and the two medians of a
    series with an odd number of points are coordinates of its points. *)
Theorem statistics_are_numbers (h : ReplayDataSummary.heap)
        (winData lossData : list ReplayDataSummary.Point) :
  match snd (StatisticsSummary.stats h winData lossData) with
  | None => winData = [] /\ lossData = []
  | Some (wins, losses) =>
      (winData <> [] \/ lossData <> [])
      /\ series_settled winData wins
      /\ series_settled lossData losses
  end.
Proof.
  unfold StatisticsSummary.stats.
  destruct ((0 <? length winData)%nat || (0 <? length lossData)%nat) eqn:E.
  - pose proof (series_run h winData) as Hw.
    destruct (StatisticsSummary.series h winData) as [h1 wins].
    pose proof (series_run h1 lossData) as Hl.
    destruct (StatisticsSummary.series h1 lossData) as [h2 losses].
    cbn [snd] in *. split; [| split; assumption].
    destruct winData; [| left; discriminate].
    destruct lossData; [discriminate | right; discriminate].
  - cbn [snd]. destruct winData; [| discriminate].
    destruct lossData; [| discriminate]. now split.
Qed.

(** *** The menu of characters *)

Section CharacterMenu.
Import MatchupCharacters.

Lemma add_spec (s : list Z) (c x : Z) : In x (add s c) <-> In x s \/ x = c.
Proof.
  unfold add. destruct (existsb (Z.eqb c) s) eqn:E.
  - split; [now left |]. intros [H | ->]; [exact H |].
    apply existsb_exists in E. destruct E as (y & Hy & Heq).
    apply Z.eqb_eq in Heq. now subst.
  - rewrite in_app_iff. simpl. intuition.
Qed.

Lemma add_NoDup (s : list Z) (c : Z) : NoDup s -> NoDup (add s c).
Proof.
  intros Hnd. unfold add. destruct (existsb (Z.eqb c) s) eqn:E; [exact Hnd |].
  apply NoDup_Add with (a := c) (l := s).
  - rewrite <- (app_nil_r s) at 1. apply Add_app.
  - split; [exact Hnd |]. intros Hin.
    assert (existsb (Z.eqb c) s = true); [| congruence].
    apply existsb_exists. exists c. split; [exact Hin | apply Z.eqb_refl].
Qed.

Lemma add_players (players : list SettingsPlayer.t) :
  forall s,
    NoDup s ->
    let s' := fold_left (fun s player => add s (SettingsPlayer.characterId player))
                        players s in
    NoDup s'
    /\ forall x, In x s'
                 <-> In x s
                     \/ exists p, In p players
                                  /\ SettingsPlayer.characterId p = x.
Proof.
  induction players as [| p t IH]; intros s Hnd; cbn [fold_left].
  - split; [exact Hnd |]. intros x. split; [now left |].
    intros [H | (p & [] & _)]. exact H.
  - destruct (IH (add s (SettingsPlayer.characterId p)) (add_NoDup _ _ Hnd))
      as (Hnd' & Hin).
    split; [exact Hnd' |]. intros x. rewrite Hin, add_spec. split.
    + intros [[H | ->] | (q & Hq & Hc)].
      * now left.
      * right. exists p. split; [now left | reflexivity].
      * right. exists q. split; [now right | exact Hc].
    + intros [H | (q & [<- | Hq] & Hc)].
      * left. now left.
      * left. right. now symmetry.
      * right. now exists q.
Qed.

Lemma visit_replay_set (selectedPlayer : option string) (replay : ReplayData)
      (s : list Z) :
  has_two_players replay ->
  NoDup s ->
  exists s',
    visit_replay selectedPlayer s replay = Return s'
    /\ NoDup s'
    /\ (forall x, In x s -> In x s')
    /\ (forall x, In x s' ->
                  In x s
                  \/ exists p, In p (Settings.players (settings replay))
                               /\ SettingsPlayer.characterId p = x)
    /\ (truthy selectedPlayer = false ->
        forall p, In p (Settings.players (settings replay)) ->
                  In (SettingsPlayer.characterId p) s').
Proof.
  intros (p0 & p1 & others & Hp) Hnd. unfold visit_replay.
  destruct (truthy selectedPlayer) eqn:Et.
  - assert (Hsel : exists i, ReplayDataSummary.selectedPlayerIndex
                               replay selectedPlayer = Return i).
    { unfold ReplayDataSummary.selectedPlayerIndex. rewrite Hp.
      change (at_index (p0 :: p1 :: others) 0) with (Some p0).
      change (at_index (p0 :: p1 :: others) 1) with (Some p1).
      cbv beta iota zeta.
      destruct selectedPlayer as [c |]; [| eauto].
      destruct (String.eqb (code (names p0)) c); [eauto |].
      destruct (String.eqb (code (names p1)) c); eauto. }
    destruct Hsel as [i ->]. cbn [bind].
    destruct (i =? -1)%Z.
    { exists s. repeat split; auto; discriminate. }
    destruct (find _ _) as [p |] eqn:Ef.
    + apply find_some in Ef. destruct Ef as [Hin _].
      eexists. split; [reflexivity |]. split; [now apply add_NoDup |].
      split; [intros x Hx; apply add_spec; now left |].
      split; [| discriminate].
      intros x Hx. apply add_spec in Hx. destruct Hx as [Hx | ->];
        [now left | right; now exists p].
    + exists s. repeat split; auto; discriminate.
  - destruct (add_players (Settings.players (settings replay)) s Hnd)
      as (Hnd' & Hin).
    eexists. split; [reflexivity |]. split; [exact Hnd' |].
    split; [intros x Hx; apply Hin; now left |].
    split; [intros x Hx; now apply Hin |].
    intros _ p Hpl. apply Hin. right. now exists p.
Qed.

Lemma characterSet_run (selectedPlayer : option string)
      (replayDataList : list ReplayData) :
  Forall has_two_players replayDataList ->
  forall s,
    NoDup s ->
    exists s',
      forEach (visit_replay selectedPlayer) replayDataList s = Return s'
      /\ NoDup s'
      /\ (forall x, In x s -> In x s')
      /\ (forall x, In x s' -> In x s \/ character_played replayDataList x)
      /\ (truthy selectedPlayer = false ->
          forall x, character_played replayDataList x -> In x s').
Proof.
  induction 1 as [| replay rest Hr _ IH]; intros s Hnd.
  - exists s. repeat split; auto.
    intros _ x (r & p & [] & _).
  - destruct (visit_replay_set selectedPlayer replay s Hr Hnd)
      as (s1 & Hv & Hnd1 & Hmono1 & Hfrom1 & Hall1).
    destruct (IH s1 Hnd1) as (s2 & Hrun & Hnd2 & Hmono2 & Hfrom2 & Hall2).
    exists s2. cbn [forEach]. rewrite Hv. cbn [bind].
    split; [exact Hrun |]. split; [exact Hnd2 |].
    split; [auto |]. split.
    + intros x Hx. destruct (Hfrom2 x Hx) as [H1 | (r & p & Hin & Hp & Hc)].
      * destruct (Hfrom1 x H1) as [H0 | (p & Hp & Hc)]; [now left |].
        right. exists replay, p. repeat split; [now left | exact Hp | exact Hc].
      * right. exists r, p. repeat split; [now right | exact Hp | exact Hc].
    + intros Ht x (r & p & [<- | Hin] & Hp & Hc).
      * apply Hmono2. rewrite <- Hc. now apply Hall1.
      * apply Hall2; [exact Ht |]. now exists r, p.
Qed.

End CharacterMenu.

(** Over replays that have their two players, the menu of characters of
    the Matchup Analysis is produced; it lists no character twice, names
    each with [getCharacterName], and lists only characters played in the
    replays.  With no player selected it lists every character played.
    Provided [localeCompare] orders any two strings one way or the other,
    the menu is in the order of the names. *)
Theorem character_menu_lists_each_character_once (lib : Lib)
        (selectedPlayer : option string) (replayDataList : list ReplayData) :
  Forall has_two_players replayDataList ->
  exists choices,
    MatchupCharacters.uniqueCharacters lib selectedPlayer replayDataList
    = Return choices
    /\ NoDup (map MatchupCharacters.id choices)
    /\ Forall (fun c => MatchupCharacters.name c
                        = getCharacterName lib (MatchupCharacters.id c)
                        /\ character_played replayDataList
                                            (MatchupCharacters.id c))
              choices
    /\ (truthy selectedPlayer = false ->
        forall c, character_played replayDataList c ->
                  In c (map MatchupCharacters.id choices))
    /\ (consistent_collation lib ->
        Sorted (fun a b => (localeCompare lib (MatchupCharacters.name a)
                                          (MatchupCharacters.name b) <= 0)%Qc)
               choices).
Proof.
  intros Hall.
  destruct (characterSet_run selectedPlayer replayDataList Hall [])
    as (s & Hrun & Hnd & _ & Hfrom & Hevery); [constructor |].
  unfold MatchupCharacters.uniqueCharacters. rewrite Hrun. cbn [bind].
  eexists. split; [reflexivity |].
  set (cmp := fun a b => localeCompare lib (MatchupCharacters.name a)
                                       (MatchupCharacters.name b)).
  set (choices := map (fun c => {| MatchupCharacters.id := c;
                                   MatchupCharacters.name :=
                                     getCharacterName lib c |}) s).
  assert (Hperm : Permutation (js_sort cmp choices) choices)
    by apply js_sort_perm.
  assert (Hids : map MatchupCharacters.id choices = s).
  { unfold choices. rewrite map_map. cbn [MatchupCharacters.id].
    apply map_id. }
  assert (Hids' : Permutation (map MatchupCharacters.id (js_sort cmp choices)) s).
  { rewrite <- Hids. now apply Permutation_map. }
  split; [| split; [| split]].
  - eapply Permutation_NoDup; [symmetry; exact Hids' | exact Hnd].
  - apply Forall_forall. intros c Hc.
    apply (Permutation_in _ Hperm) in Hc. unfold choices in Hc.
    apply in_map_iff in Hc. destruct Hc as (x & <- & Hx).
    cbn [MatchupCharacters.id MatchupCharacters.name].
    split; [reflexivity |].
    destruct (Hfrom x Hx) as [[] | H]. exact H.
  - intros Ht c Hc.
    eapply Permutation_in; [symmetry; exact Hids' |]. now apply Hevery.
  - intros Hcol. apply (js_sort_Sorted _ cmp). intros a b. apply Hcol.
Qed.

(** The menu for the three sample games, no player selected. *)
Lemma character_menu_lists_each_character_once_witness :
  exists choices,
    MatchupCharacters.uniqueCharacters Samples.lib None Samples.games
    = Return choices
    /\ NoDup (map MatchupCharacters.id choices)
    /\ Forall (fun c => MatchupCharacters.name c
                        = getCharacterName Samples.lib (MatchupCharacters.id c)
                        /\ character_played Samples.games
                                            (MatchupCharacters.id c))
              choices
    /\ (truthy None = false ->
        forall c, character_played Samples.games c ->
                  In c (map MatchupCharacters.id choices))
    /\ (consistent_collation Samples.lib ->
        Sorted (fun a b => (localeCompare Samples.lib (MatchupCharacters.name a)
                                          (MatchupCharacters.name b) <= 0)%Qc)
               choices).
Proof.
  apply (character_menu_lists_each_character_once Samples.lib None Samples.games).
  apply sample_games_have_two_players.
Defined.

(** *** The Matchup Analysis and the selection *)

Section DictionarySumSteps.
Variables K V : Type.
Variable eqb : K -> K -> bool.
Variable g : V -> number.

Lemma sum_ensure (m : list (K * V)) (k : K) (v0 : V) :
  eqb k k = true -> g v0 = 0%Qc ->
  let m1 := match get eqb m k with
            | None => set eqb m k v0
            | Some _ => m
            end in
  sum_over (fun kv => g (snd kv)) m1 = sum_over (fun kv => g (snd kv)) m
  /\ exists e, get eqb m1 k = Some e.
Proof.
  intros Hk H0. cbv zeta. destruct (get eqb m k) as [e |] eqn:E.
  - split; [reflexivity | now exists e].
  - split.
    + rewrite sum_set_absent by assumption. rewrite H0. ring.
    + exists v0. now apply get_set_same.
Qed.

Lemma sum_alter_present (f : V -> V) (d : number) (m : list (K * V)) (k : K) :
  (forall e, g (f e) = (g e + d)%Qc) ->
  (exists e, get eqb m k = Some e) ->
  sum_over (fun kv => g (snd kv)) (alter eqb f m k)
  = (sum_over (fun kv => g (snd kv)) m + d)%Qc.
Proof.
  intros Hf [e He]. unfold alter. rewrite He.
  pose proof (sum_set_present _ _ eqb g m k e (f e) He) as H.
  rewrite Hf in H.
  match goal with
  | |- ?lhs = _ => replace lhs with ((lhs + g e) - g e)%Qc by ring
  end.
  rewrite H. ring.
Qed.
End DictionarySumSteps.

Section MatchupSelection.
Import MatchupAnalysis.

Lemma Key_eqb_refl (k : Key) : Key_eqb k k = true.
Proof. now apply Key_eqb_eq. Qed.

Lemma matchup_visit_step (selectedPlayer : option string)
      (selectedCharacter : option Z) (m : StatsMap) (replay : ReplayData)
      (m' : StatsMap) :
  visit_replay selectedPlayer selectedCharacter m replay = Return m' ->
  matchup_step selectedPlayer selectedCharacter m m'.
Proof.
  unfold visit_replay, matchup_step.
  destruct (negb (length (Settings.players (settings replay)) =? 2)%nat);
    [intros H; injection H as <-; now left |].
  destruct (pick_player selectedPlayer selectedCharacter replay)
    as [[[playerIndex opponentIndex] |] |] eqn:Epick; simpl;
    [| intros H; injection H as <-; now left | discriminate].
  assert (Hsel : truthy selectedPlayer = true \/ selectedCharacter <> None).
  { unfold pick_player in Epick.
    destruct (truthy selectedPlayer); [now left | right].
    destruct selectedCharacter; [discriminate | discriminate]. }
  destruct (at_index (Settings.players (settings replay)) playerIndex) as [pl |];
    [| intros H; injection H as <-; now left].
  destruct (at_index (Settings.players (settings replay)) opponentIndex) as [op |];
    [| intros H; injection H as <-; now left].
  destruct (match selectedCharacter with
            | Some c => negb (SettingsPlayer.characterId pl =? c)%Z
            | None => false
            end) eqn:Emis; [intros H; injection H as <-; now left |].
  set (key := (SettingsPlayer.characterId pl, SettingsPlayer.characterId op)).
  assert (Hkey : forall c, selectedCharacter = Some c -> fst key = c).
  { intros c ->. apply negb_false_iff, Z.eqb_eq in Emis. exact Emis. }
  change (match get Key_eqb m key with
          | Some _ => m
          | None => set Key_eqb m key
                        (fresh (SettingsPlayer.characterId pl)
                               (SettingsPlayer.characterId op))
          end) with (with_matchup m key).
  destruct (find _ (Stats.overall (stats replay))) as [playerStats |];
    [| intros H; injection H as <-; right; exists key; auto].
  destruct (find _ (Stats.overall (stats replay))) as [opponentStats |];
    [| intros H; injection H as <-; right; exists key; auto].
  destruct (last_element (Stats.stocks (stats replay))) as [lastStock |];
    [| discriminate].
  intros H. injection H as <-. right. exists key.
  split; [exact Hkey |]. split; [exact Hsel |]. right. eauto.
Qed.

Lemma with_matchup_games (m : StatsMap) (key : Key) :
  sum_over (fun kv => Entry.totalGames (snd kv)) (with_matchup m key)
  = sum_over (fun kv => Entry.totalGames (snd kv)) m
  /\ exists e, get Key_eqb (with_matchup m key) key = Some e.
Proof.
  apply (sum_ensure _ _ Key_eqb Entry.totalGames m key
           (fresh (fst key) (snd key)) (Key_eqb_refl key) eq_refl).
Qed.

Lemma matchup_step_games (selectedPlayer : option string)
      (selectedCharacter : option Z) (m m' : StatsMap) :
  matchup_step selectedPlayer selectedCharacter m m' ->
  (sum_over (fun kv => Entry.totalGames (snd kv)) m'
   <= sum_over (fun kv => Entry.totalGames (snd kv)) m + 1)%Qc.
Proof.
  assert (Hle : forall a : Qc, (a <= a + 1)%Qc).
  { intros a. rewrite <- (Qcplus_0_r a) at 1.
    apply Qcplus_le_compat; [apply Qcle_refl | apply Qc_0_le_1]. }
  intros [-> | (key & _ & _ & [-> | (w & ps & os & ->)])].
  - apply Hle.
  - destruct (with_matchup_games m key) as [-> _]. apply Hle.
  - destruct (with_matchup_games m key) as [Hsum Hget].
    rewrite (sum_alter_present _ _ Key_eqb Entry.totalGames
               (record_game w ps os) 1%Qc (with_matchup m key) key);
      [rewrite Hsum; apply Qcle_refl | reflexivity | exact Hget].
Qed.

Lemma matchup_step_character (selectedPlayer : option string) (c : Z)
      (m m' : StatsMap) :
  matchup_step selectedPlayer (Some c) m m' ->
  all_values (fun e => Entry.characterId e = c) m ->
  all_values (fun e => Entry.characterId e = c) m'.
Proof.
  intros Hstep Hm.
  assert (Hwith : forall key, fst key = c ->
                    all_values (fun e => Entry.characterId e = c)
                               (with_matchup m key)).
  { intros key Hk. unfold with_matchup.
    destruct (get Key_eqb m key); [exact Hm |].
    apply set_all_values; [exact Hm | exact Hk]. }
  destruct Hstep as [-> | (key & Hk & _ & [-> | (w & ps & os & ->)])].
  - exact Hm.
  - apply Hwith. now apply Hk.
  - apply alter_all_values; [intros e He; exact He |].
    apply Hwith. now apply Hk.
Qed.

Lemma matchup_rows_of (lib : Lib) (selectedPlayer : option string)
      (selectedCharacter : option Z) (sortBy : Column) (sortDir : SortDir)
      (replayDataList : list ReplayData) (rows : list MatchupStats) :
  sortedStats lib selectedPlayer selectedCharacter sortBy sortDir replayDataList
  = Return rows ->
  exists m,
    forEach (visit_replay selectedPlayer selectedCharacter) replayDataList []
    = Return m
    /\ Permutation rows (map (to_row lib) (map snd m)).
Proof.
  unfold sortedStats, matchupStatsArray, statsMap.
  destruct (forEach (visit_replay selectedPlayer selectedCharacter)
                    replayDataList []) as [m |]; [| discriminate].
  cbn [bind]. intros H. injection H as <-. exists m.
  split; [reflexivity | apply js_sort_perm].
Qed.

Lemma matchup_games_bound (selectedPlayer : option string)
      (selectedCharacter : option Z) (replayDataList : list ReplayData) :
  forall m m',
    forEach (visit_replay selectedPlayer selectedCharacter) replayDataList m
    = Return m' ->
    (sum_over (fun kv => Entry.totalGames (snd kv)) m'
     <= sum_over (fun kv => Entry.totalGames (snd kv)) m
        + ofNat (length replayDataList))%Qc.
Proof.
  induction replayDataList as [| replay rest IH]; intros m m'; cbn [forEach].
  - intros H. injection H as <-. change (ofNat (length [])) with 0%Qc.
    rewrite Qcplus_0_r. apply Qcle_refl.
  - destruct (visit_replay selectedPlayer selectedCharacter m replay)
      as [m1 |] eqn:Ev; [| discriminate].
    cbn [bind]. intros Hrun. specialize (IH m1 m' Hrun).
    apply matchup_visit_step, matchup_step_games in Ev.
    cbn [length]. rewrite ofNat_S.
    eapply Qcle_trans; [exact IH |].
    replace (sum_over (fun kv => Entry.totalGames (snd kv)) m
             + (ofNat (length rest) + 1))%Qc
      with (sum_over (fun kv => Entry.totalGames (snd kv)) m + 1
            + ofNat (length rest))%Qc by ring.
    apply Qcplus_le_compat; [exact Ev | apply Qcle_refl].
Qed.

Lemma matchup_without_selection (selectedPlayer : option string)
      (replayDataList : list ReplayData) :
  truthy selectedPlayer = false ->
  forall m,
    forEach (visit_replay selectedPlayer None) replayDataList m = Return m.
Proof.
  intros Ht. induction replayDataList as [| replay rest IH]; intros m;
    cbn [forEach]; [reflexivity |].
  assert (Hv : visit_replay selectedPlayer None m replay = Return m).
  { unfold visit_replay, pick_player. rewrite Ht.
    destruct (negb _); reflexivity. }
  rewrite Hv. cbn [bind]. apply IH.
Qed.

Lemma matchup_runs (selectedPlayer : option string)
      (selectedCharacter : option Z) (replayDataList : list ReplayData) :
  Forall chart_ready replayDataList ->
  forall m, exists m',
    forEach (visit_replay selectedPlayer selectedCharacter) replayDataList m
    = Return m'.
Proof.
  induction 1 as [| replay rest Hready _ IH];
    intros m; cbn [forEach]; [eauto |].
  pose proof (proj2 Hready) as Hstocks.
  assert (Hv : exists m1,
             visit_replay selectedPlayer selectedCharacter m replay
             = Return m1).
  { unfold visit_replay.
    destruct (negb _); [eauto |].
    assert (Hpick : exists picked,
               pick_player selectedPlayer selectedCharacter replay
               = Return picked).
    { unfold pick_player. destruct (truthy selectedPlayer).
      - destruct (selectedPlayerIndex_run selectedPlayer replay Hready)
          as [i ->].
        cbn [bind]. destruct (i =? -1)%Z; eauto.
      - destruct selectedCharacter; [| eauto].
        destruct (_ =? -1)%Z; eauto. }
    destruct Hpick as [picked ->]. cbn [bind].
    destruct picked as [[playerIndex opponentIndex] |]; [| eauto].
    destruct (at_index _ playerIndex); [| eauto].
    destruct (at_index _ opponentIndex); [| eauto].
    destruct (match selectedCharacter with
              | Some c => _
              | None => false
              end); [eauto |].
    destruct (find _ _); [| eauto].
    destruct (find _ _); [| eauto].
    pose proof (last_element_spec (Stats.stocks (stats replay))) as Hl.
    destruct (Stats.stocks (stats replay)); [contradiction |].
    destruct Hl as (init & x & _ & ->). eauto. }
  destruct Hv as [m1 ->]. cbn [bind]. apply IH.
Qed.

End MatchupSelection.

(** The Matchup Analysis follows the selection.  With neither a player nor
    a character selected the table is empty, whatever the replays.  With a
    character selected every row is a matchup of that character.  And for
    every selection a replay is counted in at most one row, at most once:
    the games of the rows add up to no more than the number of replays. *)
Theorem matchup_table_follows_the_selection (lib : Lib)
        (sortBy : MatchupAnalysis.Column) (sortDir : SortDir)
        (replayDataList : list ReplayData) :
  (forall selectedPlayer,
      truthy selectedPlayer = false ->
      MatchupAnalysis.sortedStats lib selectedPlayer None sortBy sortDir
                                  replayDataList = Return [])
  /\ (forall selectedPlayer c rows,
         MatchupAnalysis.sortedStats lib selectedPlayer (Some c) sortBy sortDir
                                     replayDataList = Return rows ->
         Forall (fun row => MatchupAnalysis.characterId row = c) rows)
  /\ (forall selectedPlayer selectedCharacter rows,
         MatchupAnalysis.sortedStats lib selectedPlayer selectedCharacter
                                     sortBy sortDir replayDataList = Return rows ->
         (sum_over MatchupAnalysis.totalGames rows
          <= ofNat (length replayDataList))%Qc).
Proof.
  split; [| split].
  - intros selectedPlayer Ht.
    unfold MatchupAnalysis.sortedStats, MatchupAnalysis.matchupStatsArray,
      MatchupAnalysis.statsMap.
    now rewrite (matchup_without_selection selectedPlayer replayDataList Ht []).
  - intros selectedPlayer c rows Hrows.
    apply matchup_rows_of in Hrows. destruct Hrows as (m & Hm & Hperm).
    assert (Hall : all_values (fun e => MatchupAnalysis.Entry.characterId e = c) m).
    { eapply (forEach_invariant
                (all_values (fun e => MatchupAnalysis.Entry.characterId e = c)));
        [| | exact Hm]; [| constructor].
      intros s x s' Hs Hv. apply matchup_visit_step in Hv.
      eapply matchup_step_character; eassumption. }
    apply Forall_forall. intros row Hrow.
    apply (Permutation_in _ Hperm) in Hrow.
    apply in_map_iff in Hrow. destruct Hrow as (e & <- & He).
    unfold all_values in Hall. rewrite Forall_forall in Hall.
    exact (Hall e He).
  - intros selectedPlayer selectedCharacter rows Hrows.
    apply matchup_rows_of in Hrows. destruct Hrows as (m & Hm & Hperm).
    rewrite (sum_over_perm _ _ _ Hperm), !sum_over_map.
    cbn [MatchupAnalysis.to_row MatchupAnalysis.totalGames].
    pose proof (matchup_games_bound selectedPlayer selectedCharacter
                  replayDataList [] m Hm) as H.
    cbn [sum_over fold_right] in H. now rewrite Qcplus_0_l in H.
Qed.

Lemma matchup_visit_throws (selectedPlayer : option string)
      (selectedCharacter : option Z) (replay : ReplayData) :
  Stats.stocks (stats replay) = [] ->
  matchup_reaches_winner selectedPlayer selectedCharacter replay ->
  forall m,
    MatchupAnalysis.visit_replay selectedPlayer selectedCharacter m replay
    = Throw.
Proof.
  intros Hst (Hlen & playerIndex & opponentIndex & pl & op
              & Hpick & Hpl & Hop & Hchar & Hps & Hos) m.
  unfold MatchupAnalysis.visit_replay. cbv zeta in Hlen. rewrite Hlen.
  cbn [Nat.eqb negb]. rewrite Hpick. cbn [bind]. rewrite Hpl, Hop.
  assert (Hmis : match selectedCharacter with
                 | Some c => negb (SettingsPlayer.characterId pl =? c)%Z
                 | None => false
                 end = false).
  { destruct selectedCharacter as [c |]; [| reflexivity].
    rewrite (Hchar c eq_refl), Z.eqb_refl. reflexivity. }
  rewrite Hmis.
  destruct (find _ (Stats.overall (stats replay))); [| contradiction].
  destruct (find _ (Stats.overall (stats replay))); [| contradiction].
  now rewrite Hst.
Qed.

(** Over replays with two players in the metadata and at least one stock,
    the reduction of the Matchup Analysis runs to its end for every
    selection.  A replay without stocks for which the winner determination
    is reached makes the whole reduction throw, wherever it is in the
    list. *)
Theorem matchup_analysis_runs (lib : Lib) (selectedPlayer : option string)
        (selectedCharacter : option Z) (sortBy : MatchupAnalysis.Column)
        (sortDir : SortDir) (replayDataList : list ReplayData) :
  (Forall chart_ready replayDataList ->
   exists rows,
     MatchupAnalysis.sortedStats lib selectedPlayer selectedCharacter
                                 sortBy sortDir replayDataList = Return rows)
  /\ (forall replay,
         In replay replayDataList ->
         Stats.stocks (stats replay) = [] ->
         matchup_reaches_winner selectedPlayer selectedCharacter replay ->
         MatchupAnalysis.sortedStats lib selectedPlayer selectedCharacter
                                     sortBy sortDir replayDataList = Throw).
Proof.
  unfold MatchupAnalysis.sortedStats, MatchupAnalysis.matchupStatsArray,
    MatchupAnalysis.statsMap.
  split.
  - intros Hall.
    destruct (matchup_runs selectedPlayer selectedCharacter replayDataList
                           Hall []) as [m Hm].
    rewrite Hm. cbn [bind]. eauto.
  - intros replay Hin Hst Hreach.
    rewrite (forEach_throws _ replay replayDataList Hin
               (matchup_visit_throws selectedPlayer selectedCharacter replay
                                     Hst Hreach)).
    reflexivity.
Qed.

(** The sample games, for AAA#1 and the character 2; the game without
    stocks makes the reduction throw. *)
Lemma matchup_analysis_runs_witness :
  (exists rows,
      MatchupAnalysis.sortedStats Samples.lib (Some "AAA#1"%string) (Some 2%Z)
        MatchupAnalysis.ColTotalGames desc Samples.games = Return rows)
  /\ MatchupAnalysis.sortedStats Samples.lib (Some "AAA#1"%string) (Some 2%Z)
       MatchupAnalysis.ColTotalGames desc [Samples.game_without_stocks]
     = Throw.
Proof.
  split.
  - apply (matchup_analysis_runs Samples.lib (Some "AAA#1"%string) (Some 2%Z)
             MatchupAnalysis.ColTotalGames desc Samples.games).
    apply sample_games_chart_ready.
  - apply (proj2 (matchup_analysis_runs Samples.lib (Some "AAA#1"%string)
                    (Some 2%Z) MatchupAnalysis.ColTotalGames desc
                    [Samples.game_without_stocks])
                 Samples.game_without_stocks);
      [now left | reflexivity |].
    split; [reflexivity |].
    exists 0%Z, 1%Z. do 2 eexists.
    repeat split; try reflexivity; try discriminate.
    intros c H. injection H as <-. reflexivity.
Defined.

(** *** The picker and the page *)

Lemma FileUploadMax_run_replays (es : list PickerEvent) :
  forall st,
    all_slp (FileUploadMax.selectedFiles st) ->
    all_slp (FileUploadMax.selectedFiles (fst (FileUploadMax.run st es)))
    /\ submits_replays (snd (FileUploadMax.run st es)).
Proof.
  induction es as [| e rest IH]; intros st Hst; simpl.
  - split; [assumption | intros ? []].
  - destruct (FileUploadMax_step_replays st e Hst) as [H1 H2].
    destruct (FileUploadMax.step st e) as [st1 out1]; simpl in *.
    destruct (IH st1 H1) as [H3 H4].
    destruct (FileUploadMax.run st1 rest) as [st2 out2]; simpl in *.
    split; [assumption |]. intros fs Hin. apply in_app_or in Hin.
    destruct Hin; [now apply H2 | now apply H4].
Qed.

(** Whatever the user does with the picker that declares [MAX_FILES], an
    upload it starts makes the page send at least one and at most 100
    requests, each for a file whose name ends in [.slp]. *)
Theorem an_upload_sends_at_most_100_requests (es : list PickerEvent)
        (fs : list File) (Net : Type) (engine : Engine)
        (fetch : Net -> File -> Net * Throws (Response (Http.Body ReplayData)))
        (st : HomeBatch.State) (n : Net) :
  In (OnFileUpload fs) (snd (FileUploadMax.run FileUploadMax.initial es)) ->
  let '(_, tr, _) := HomeBatch.handleFileUpload engine fetch st n fs in
  (1 <= length (HomeBatch.exchanges tr) <= 100)%nat
  /\ all_slp (map fst (HomeBatch.exchanges tr)).
Proof.
  intros Hin.
  assert (Hcap : (length fs <= 100)%nat).
  { apply (run_cap es FileUploadMax.initial); [simpl; lia | exact Hin]. }
  destruct (FileUploadMax_run_replays es FileUploadMax.initial) as [_ Hsub];
    [constructor |].
  destruct (Hsub fs Hin) as [Hne Hslp].
  unfold HomeBatch.handleFileUpload.
  set (acc0 := {| HomeBatch.newReplayDataList := [];
                  HomeBatch.successCount := 0%Qc;
                  HomeBatch.errorFiles := [] |}).
  pose proof (upload_run Net fetch fs n acc0) as H.
  destruct (HomeBatch.upload fetch n fs acc0) as [[n1 tr] out].
  destruct H as ((rest & Hprefix) & Hout).
  assert (Hgoal : (1 <= length (HomeBatch.exchanges tr) <= 100)%nat
                  /\ all_slp (map fst (HomeBatch.exchanges tr))).
  { split; [split |].
    - destruct (HomeBatch.exchanges tr) as [| x t] eqn:E; [| simpl; lia].
      exfalso. destruct out as [acc |].
      + destruct Hout as (_ & Hsent & _). simpl in Hsent. now apply Hne.
      + discriminate Hout.
    - apply (f_equal (@length File)) in Hprefix.
      rewrite length_app, length_map in Hprefix. lia.
    - unfold all_slp in *. rewrite Hprefix in Hslp.
      apply Forall_app in Hslp. tauto. }
  destruct out as [acc |]; [| exact Hgoal].
  destruct (playerCounts engine (HomeBatch.newReplayDataList acc));
    exact Hgoal.
Qed.

(** A drop of one replay followed by a click on "Upload", on a network
    that answers nothing. *)
Lemma an_upload_sends_at_most_100_requests_witness :
  let '(_, tr, _) :=
    HomeBatch.handleFileUpload sample_engine
      (fun (n : unit) (_ : File) => (n, Throw))
      {| HomeBatch.replayDataList := []; HomeBatch.loading := false;
         HomeBatch.error := ""; HomeBatch.selectedPlayer := None;
         HomeBatch.activeTab := "summary";
         HomeBatch.progress := {| HomeBatch.current := 0%Qc;
                                  HomeBatch.total := 0%Qc |} |}
      tt [{| name := "a.slp"; size := 1 |}] in
  (1 <= length (HomeBatch.exchanges tr) <= 100)%nat
  /\ all_slp (map fst (HomeBatch.exchanges tr)).
Proof.
  apply (an_upload_sends_at_most_100_requests
           [Drop (Some [{| name := "a.slp"; size := 1 |}]); Submit]
           [{| name := "a.slp"; size := 1 |}] unit sample_engine
           (fun (n : unit) (_ : File) => (n, Throw))).
  vm_compute. left. reflexivity.
Defined.
